(** * Deployment orchestrator (app.py): shallow embedding and verified properties

    The development follows the layout of [app.py]:

    - [PyStr]: the Python string operations the program relies on
      ([str.strip], [str.rstrip], [str.split], [str.replace], [str.join],
      slices) on texts seen as sequences of 8-bit characters;
    - [Regex]: the two [re.sub] password patterns of [mask_secrets], run by a
      small greedy backtracking matcher;
    - the data model (events, frames, configuration, request, run state);
    - the runner thread [run_command_async] as a list of atomic steps on the
      shared cell, interleaved with the generator by a scheduler;
    - the generator of [deploy_stream] in a small state monad that records
      every yielded frame and every spawned process in one trace;
    - the non-streaming handler [deploy] with its dry-run branch. *)

From Stdlib Require Import ZArith List String Ascii Bool Arith Lia.
From Stdlib Require Import DecimalString.
Import ListNotations.
Open Scope string_scope.

(* ===================================================================== *)
(** * Python string operations *)
(* ===================================================================== *)

Module PyStr.

(** Texts are the byte sequences of their UTF-8 encoding.  [isspace] is
    Python's whitespace class on the ASCII range: TAB, LF, VT, FF, CR, the
    separators FS, GS, RS, US and the space. *)
Definition isspace (c : ascii) : bool :=
  let n := nat_of_ascii c in
  (((9 <=? n) && (n <=? 13)) || ((28 <=? n) && (n <=? 32)))%nat.

Definition nl : ascii := "010"%char.

Definition is_empty (s : string) : bool :=
  match s with "" => true | String _ _ => false end.

(** A Python string used as a condition: true when non-empty. *)
Definition truthy (s : string) : bool := negb (is_empty s).

Fixpoint lstrip (s : string) : string :=
  match s with
  | "" => ""
  | String c s' => if isspace c then lstrip s' else s
  end.

Fixpoint rstrip (s : string) : string :=
  match s with
  | "" => ""
  | String c s' =>
      match rstrip s' with
      | "" => if isspace c then "" else String c ""
      | r => String c r
      end
  end.

Definition strip (s : string) : string := lstrip (rstrip s).

(** [s.split('\n')]: never empty, [''.split('\n') = ['']]. *)
Fixpoint split_nl (s : string) : list string :=
  match s with
  | "" => [""]
  | String c s' =>
      if Ascii.eqb c nl then "" :: split_nl s'
      else match split_nl s' with
           | [] => [String c ""]
           | l :: ls => String c l :: ls
           end
  end.

(** [l[-n:]] for a positive [n]. *)
Definition lastn {A} (n : nat) (l : list A) : list A :=
  skipn (List.length l - n) l.

(** [''.join(ls)] and ['\n'.join(ls)]. *)
Definition join (ls : list string) : string := String.concat "" ls.
Definition join_nl (ls : list string) : string :=
  String.concat (String nl "") ls.

Fixpoint drop (n : nat) (s : string) : string :=
  match n, s with
  | 0, _ => s
  | S _, "" => ""
  | S k, String _ s' => drop k s'
  end.

Fixpoint take (n : nat) (s : string) : string :=
  match n, s with
  | 0, _ => ""
  | S _, "" => ""
  | S k, String c s' => String c (take k s')
  end.

(** [s.replace(old, new)] for a non-empty [old]: leftmost occurrences, not
    overlapping.  [skip] counts the characters of the occurrence just
    replaced that are still to be passed over. *)
Fixpoint replace_go (old new : string) (skip : nat) (s : string) : string :=
  match s with
  | "" => ""
  | String c s' =>
      match skip with
      | S k => replace_go old new k s'
      | 0 =>
          if String.prefix old s
          then new ++ replace_go old new (String.length old - 1) s'
          else String c (replace_go old new 0 s')
      end
  end.

(** With an empty [old] Python puts [new] before every character and at
    the end. *)
Fixpoint intersperse (new s : string) : string :=
  match s with
  | "" => new
  | String c s' => new ++ String c (intersperse new s')
  end.

Definition replace (old new s : string) : string :=
  if is_empty old then intersperse new s else replace_go old new 0 s.

(** [str(n)] for an integer. *)
Definition str_of_Z (z : Z) : string := NilZero.string_of_int (Z.to_int z).

(** [sub in s]. *)
Fixpoint occurs (sub s : string) : bool :=
  String.prefix sub s ||
  match s with
  | "" => false
  | String _ s' => occurs sub s'
  end.

Fixpoint mem_char (c : ascii) (s : string) : bool :=
  match s with
  | "" => false
  | String d s' => Ascii.eqb c d || mem_char c s'
  end.

End PyStr.

Import PyStr.

(* ===================================================================== *)
(** * The password patterns of [mask_secrets] *)
(* ===================================================================== *)

Module Regex.

(** The pieces the two patterns are made of: a literal, one character of a
    class, an optional character of a class ([?]) and a non-empty greedy
    run of a class ([+]). *)
Inductive atom :=
| Lit (s : string)
| One (cls : ascii -> bool)
| Opt (cls : ascii -> bool)
| Plus (cls : ascii -> bool).

(** A pattern [(group)rest]: the atoms of group 1, then the others. *)
Record pattern := { p_group : list atom; p_rest : list atom }.

Fixpoint run_length (cls : ascii -> bool) (s : string) : nat :=
  match s with
  | "" => 0
  | String c s' => if cls c then S (run_length cls s') else 0
  end.

Definition head_in (cls : ascii -> bool) (s : string) : bool :=
  match s with "" => false | String c _ => cls c end.

(** Backtracking match at the start of [s]: the length each atom consumes.
    A greedy run first tries its longest length and gives characters back
    one at a time; an optional character is tried present, then absent. *)
Fixpoint match_atoms (ats : list atom) (s : string) : option (list nat) :=
  match ats with
  | [] => Some []
  | Lit l :: rest =>
      if String.prefix l s
      then option_map (cons (String.length l))
             (match_atoms rest (drop (String.length l) s))
      else None
  | One cls :: rest =>
      if head_in cls s
      then option_map (cons 1) (match_atoms rest (drop 1 s))
      else None
  | Opt cls :: rest =>
      match (if head_in cls s then match_atoms rest (drop 1 s) else None) with
      | Some r => Some (1 :: r)
      | None => option_map (cons 0) (match_atoms rest s)
      end
  | Plus cls :: rest =>
      (fix give_back (k : nat) : option (list nat) :=
         match k with
         | 0 => None
         | S k' =>
             match match_atoms rest (drop k s) with
             | Some r => Some (k :: r)
             | None => give_back k'
             end
         end) (run_length cls s)
  end.

Definition total (l : list nat) : nat := fold_right Nat.add 0 l.

(** Length of group 1 and of the whole match. *)
Definition match_pattern (p : pattern) (s : string) : option (nat * nat) :=
  match match_atoms (p_group p ++ p_rest p) s with
  | Some lens =>
      Some (total (firstn (List.length (p_group p)) lens), total lens)
  | None => None
  end.

(** [re.sub(p, r'\1***', s)]: leftmost matches, not overlapping; both
    patterns only match non-empty texts. *)
Fixpoint sub_go (p : pattern) (skip : nat) (s : string) : string :=
  match s with
  | "" => ""
  | String c s' =>
      match skip with
      | S k => sub_go p k s'
      | 0 =>
          match match_pattern p s with
          | Some (g, n) => take g s ++ "***" ++ sub_go p (n - 1) s'
          | None => String c (sub_go p 0 s')
          end
      end
  end.

Definition sub (p : pattern) (s : string) : string := sub_go p 0 s.

Definition is_char (a : ascii) (c : ascii) : bool := Ascii.eqb a c.

(** [r'(--password[=\s]+)[^\s]+'] *)
Definition password_flag : pattern :=
  {| p_group := [Lit "--password"; Plus (fun c => is_char "=" c || isspace c)];
     p_rest := [Plus (fun c => negb (isspace c))] |}.

(** The double and the single quote. *)
Definition quote (c : ascii) : bool := is_char "034" c || is_char "'" c.

(** [r'(password[=:]["\']?)[^"\'>\s]+'] *)
Definition password_assign : pattern :=
  {| p_group := [Lit "password"; One (fun c => is_char "=" c || is_char ":" c);
                 Opt quote];
     p_rest := [Plus (fun c => negb (quote c || is_char ">" c || isspace c))] |}.

End Regex.

(** [mask_secrets], the closure of [deploy] over [api_key]. *)
Definition mask_secrets (api_key : string) (cmd_str : string) : string :=
  let masked := replace api_key "***" cmd_str in
  let masked := Regex.sub Regex.password_flag masked in
  let masked := Regex.sub Regex.password_assign masked in
  masked.

(* ===================================================================== *)
(** * Data model *)
(* ===================================================================== *)

(** The values of the ['type'] key of the frames the program writes. *)
Inductive EventType :=
| EvStart | EvSection | EvCommand | EvOutput | EvPods | EvPod
| EvInfo | EvSuccess | EvLog | EvError | EvComplete.

Definition type_name (t : EventType) : string :=
  match t with
  | EvStart => "start" | EvSection => "section" | EvCommand => "command"
  | EvOutput => "output" | EvPods => "pods" | EvPod => "pod"
  | EvInfo => "info" | EvSuccess => "success" | EvLog => "log"
  | EvError => "error" | EvComplete => "complete"
  end.

Definition EventType_eqb (a b : EventType) : bool :=
  String.eqb (type_name a) (type_name b).

(** The dictionary given to [json.dumps]; only ['complete'] has no message. *)
Record Event := { ev_type : EventType; ev_message : option string }.

Definition event (t : EventType) (m : string) : Event :=
  {| ev_type := t; ev_message := Some m |}.

Definition complete_event : Event :=
  {| ev_type := EvComplete; ev_message := None |}.

(** What the generator yields: a [data:] frame or the keepalive comment. *)
Inductive Frame :=
| Data (e : Event)
| Keepalive.

(** Everything the handlers do that is visible from outside, in order. *)
Inductive Action :=
| Yield (f : Frame)
| Exec (cmd : string)          (* execute_command *)
| StartThread (cmd : string)   (* threading.Thread(target=run_command_async) *)
| PollPods (cmd : string)      (* subprocess.run of the pod listing *)
| RunLog (cmd : string)        (* subprocess.run of a log source *)
| Sleep (seconds : Z)          (* time.sleep *)
| Join (timeout : Z).          (* cmd_thread.join *)

Record LogSource := { ls_command : option string; ls_label : option string }.

(** One entry of config.json; a key the file may omit is an [option], the
    program's default is applied where the key is read. *)
Record DeploymentConfig := {
  dc_command : string;
  dc_working_dir : option string;
  dc_env_var : option string;
  dc_pre_commands : list string;
  dc_log_sources : list LogSource;
  dc_namespace : option string;
  dc_default_version : option string
}.

(** config.json: deployment types in file order. *)
Definition Config := list (string * DeploymentConfig).

(** The JSON body of a request. *)
Record DeploymentRequest := {
  apiKey : option string;
  version : option string;
  dryRun : bool
}.

(** [result_holder]. *)
Record ResultHolder := {
  done : bool;
  returncode : option Z;
  stdout : string
}.

(** The object [execute_command] returns. *)
Record Result := { r_returncode : Z; r_stdout : string; r_stderr : string }.

(** [d.get(key, default)]. *)
Definition get_default {A} (o : option A) (d : A) : A :=
  match o with Some a => a | None => d end.

(** [a or b] on strings that may be absent. *)
Definition or_else (a : option string) (b : string) : string :=
  match a with
  | Some s => if truthy s then s else b
  | None => b
  end.

(* ===================================================================== *)
(** * The outside world *)
(* ===================================================================== *)

(** How a child process read line by line ends. *)
Inductive ProcEnd :=
| Exit (rc : Z)
| Fails (e : string).          (* Popen, readline or wait raises *)

Record ProcBehaviour := { p_lines : list string; p_end : ProcEnd }.

Inductive PollOutcome :=
| PollOut (kubectl_stdout : string)
| PollFails.                   (* subprocess.run raises, e.g. on its timeout *)

Inductive LogOutcome :=
| LogOut (rc : Z) (out : string)
| LogFails (e : string).

Inductive SyncOutcome :=
| Completed (rc : Z) (out err : string)
| TimeoutExpired
| SyncFails (e : string).

(** The answers of the environment, by order of request: the process of the
    k-th pre-command run, the process of the main command, how many steps
    the runner thread takes before the k-th access of the generator to the
    shared cell or queue, the k-th pod listing, the k-th log command, the
    k-th value of [time.time()], and for [deploy] the k-th captured run. *)
Record World := {
  pre_proc : nat -> ProcBehaviour;
  main_proc : ProcBehaviour;
  sched : nat -> nat;
  poll_proc : nat -> PollOutcome;
  log_proc : nat -> LogOutcome;
  clock : nat -> Z;
  sync_proc : nat -> SyncOutcome
}.

(* ===================================================================== *)
(** * The runner thread *)
(* ===================================================================== *)

(** The atomic steps of the thread on the state it shares. *)
Inductive ThreadOp :=
| Put (t : EventType) (m : string)   (* output_queue.put((t, m)) *)
| SetReturncode (rc : Z)
| SetStdout (s : string)
| SetDone.

(** The lines [iter(process.stdout.readline, '')] delivers under [if line:]. *)
Definition read_lines (b : ProcBehaviour) : list string :=
  filter truthy (p_lines b).

(** [run_command_async] for a process that behaves as [b]. *)
Definition run_command_async (b : ProcBehaviour) : list ThreadOp :=
  map (fun line => Put EvOutput (rstrip line)) (read_lines b) ++
  match p_end b with
  | Exit rc =>
      [SetReturncode rc; SetStdout (join (read_lines b)); SetDone]
  | Fails e =>
      [SetReturncode 1; SetStdout e; SetDone;
       Put EvError ("Command error: " ++ e)]
  end.

(** The memory the thread and the generator share. *)
Record Shared := {
  holder : ResultHolder;
  log_queue : list (EventType * string)
}.

Definition thread_step (op : ThreadOp) (sh : Shared) : Shared :=
  let h := holder sh in
  match op with
  | Put t m =>
      {| holder := h; log_queue := log_queue sh ++ [(t, m)] |}
  | SetReturncode rc =>
      {| holder := {| done := done h; returncode := Some rc; stdout := stdout h |};
         log_queue := log_queue sh |}
  | SetStdout s =>
      {| holder := {| done := done h; returncode := returncode h; stdout := s |};
         log_queue := log_queue sh |}
  | SetDone =>
      {| holder := {| done := true; returncode := returncode h; stdout := stdout h |};
         log_queue := log_queue sh |}
  end.

(** [n] steps of the thread, fewer when it finishes earlier. *)
Fixpoint run_thread (n : nat) (ops : list ThreadOp) (sh : Shared)
  : list ThreadOp * Shared :=
  match n, ops with
  | 0, _ => (ops, sh)
  | _, [] => ([], sh)
  | S k, op :: ops' => run_thread k ops' (thread_step op sh)
  end.

(* ===================================================================== *)
(** * The generator monad *)
(* ===================================================================== *)

(** State of a run of a handler: the trace so far, the shared memory, what
    the runner thread still has to do, how many answers of each kind were
    taken from the world, and [g_checked], the value of
    [result_holder['returncode']] the final status test read (set when the
    test is made). *)
Record GenState := {
  g_trace : list Action;
  g_shared : Shared;
  g_thread : list ThreadOp;
  g_ticks : nat;
  g_pres : nat;
  g_polls : nat;
  g_logs : nat;
  g_clocks : nat;
  g_checked : option (option Z)
}.

Definition initial_holder : ResultHolder :=
  {| done := false; returncode := None; stdout := "" |}.

Definition initial_state : GenState :=
  {| g_trace := [];
     g_shared := {| holder := initial_holder; log_queue := [] |};
     g_thread := []; g_ticks := 0; g_pres := 0; g_polls := 0; g_logs := 0;
     g_clocks := 0; g_checked := None |}.

(** How a piece of the generator ends: normally, by [return], by an
    exception that reaches the handler's [except], or cut by the fuel of the
    model. *)
Inductive Res (A : Type) :=
| Normal (a : A)
| Returned
| Raised (e : string)
| OutOfFuel.

Arguments Normal {A} a.
Arguments Returned {A}.
Arguments Raised {A} e.
Arguments OutOfFuel {A}.

Definition M (A : Type) : Type := GenState -> Res A * GenState.

Definition ret {A} (a : A) : M A := fun st => (Normal a, st).

Definition bind {A B} (m : M A) (k : A -> M B) : M B :=
  fun st =>
    match m st with
    | (Normal a, st') => k a st'
    | (Returned, st') => (Returned, st')
    | (Raised e, st') => (Raised e, st')
    | (OutOfFuel, st') => (OutOfFuel, st')
    end.

Declare Scope gen_scope.
Delimit Scope gen_scope with gen.
Notation "x <- c ;; k" := (bind c (fun x => k))
  (at level 100, c at next level, right associativity) : gen_scope.
Notation "c ;; k" := (bind c (fun _ => k))
  (at level 100, right associativity) : gen_scope.
Open Scope gen_scope.

Definition return_ {A} : M A := fun st => (Returned, st).
Definition raise {A} (e : string) : M A := fun st => (Raised e, st).
Definition out_of_fuel {A} : M A := fun st => (OutOfFuel, st).

Definition emit (a : Action) : M unit :=
  fun st =>
    (Normal tt,
     {| g_trace := g_trace st ++ [a]; g_shared := g_shared st;
        g_thread := g_thread st; g_ticks := g_ticks st; g_pres := g_pres st;
        g_polls := g_polls st; g_logs := g_logs st; g_clocks := g_clocks st;
        g_checked := g_checked st |}).

Definition yield_event (t : EventType) (m : string) : M unit :=
  emit (Yield (Data (event t m))).

Definition set_shared (sh : Shared) (ops : list ThreadOp) (st : GenState)
  : GenState :=
  {| g_trace := g_trace st; g_shared := sh; g_thread := ops;
     g_ticks := g_ticks st; g_pres := g_pres st; g_polls := g_polls st;
     g_logs := g_logs st; g_clocks := g_clocks st;
     g_checked := g_checked st |}.

Section Generator.

Variable w : World.

(** The thread advances as the scheduler says; placed before each access
    of the generator to the shared cell or to the queue. *)
Definition tick : M unit :=
  fun st =>
    let '(ops, sh) := run_thread (sched w (g_ticks st)) (g_thread st)
                        (g_shared st) in
    (Normal tt,
     {| g_trace := g_trace st; g_shared := sh; g_thread := ops;
        g_ticks := S (g_ticks st); g_pres := g_pres st;
        g_polls := g_polls st; g_logs := g_logs st;
        g_clocks := g_clocks st; g_checked := g_checked st |}).

Definition read_holder : M ResultHolder :=
  tick ;; fun st => (Normal (holder (g_shared st)), st).

(** [log_queue.empty()] and [get]: the oldest entry, if any. *)
Definition queue_get : M (option (EventType * string)) :=
  tick ;;
  fun st =>
    match log_queue (g_shared st) with
    | [] => (Normal None, st)
    | x :: q =>
        (Normal (Some x),
         set_shared {| holder := holder (g_shared st); log_queue := q |}
           (g_thread st) st)
    end.

Definition queue_put_all (l : list (EventType * string)) : M unit :=
  fun st =>
    (Normal tt,
     set_shared {| holder := holder (g_shared st);
                   log_queue := log_queue (g_shared st) ++ l |}
       (g_thread st) st).

(** [while not log_queue.empty(): msg_type, msg = log_queue.get(); yield] *)
Fixpoint drain_loop (fuel : nat) : M unit :=
  match fuel with
  | 0 => out_of_fuel
  | S f =>
      x <- queue_get ;;
      match x with
      | None => ret tt
      | Some (msg_type, msg) => yield_event msg_type msg ;; drain_loop f
      end
  end.

(** Every turn of the loop takes one entry, and no more entries can come
    than the queue holds and the thread has steps left. *)
Definition drain : M unit :=
  fun st =>
    drain_loop
      (S (List.length (log_queue (g_shared st)) + List.length (g_thread st)))
      st.

(** [execute_command(cmd, ..., stream_queue=log_queue)].  The process has
    printed finitely many lines when it ends; a command that never closes
    its output, which [execute_command] would read for ever (its timeout
    only bounds the wait that follows the end of the output), is not
    represented. *)
Definition execute_command_stream (cmd : string) : M Result :=
  emit (Exec cmd) ;;
  fun st =>
    let b := pre_proc w (g_pres st) in
    let st' :=
      {| g_trace := g_trace st;
         g_shared :=
           {| holder := holder (g_shared st);
              log_queue :=
                log_queue (g_shared st) ++
                map (fun line => (EvOutput, rstrip line)) (read_lines b) |};
         g_thread := g_thread st; g_ticks := g_ticks st;
         g_pres := S (g_pres st); g_polls := g_polls st;
         g_logs := g_logs st; g_clocks := g_clocks st;
         g_checked := g_checked st |} in
    match p_end b with
    | Exit rc =>
        (Normal {| r_returncode := rc; r_stdout := join (read_lines b);
                   r_stderr := "" |}, st')
    | Fails e => (Raised e, st')
    end.

Definition time_time : M Z :=
  fun st =>
    (Normal (clock w (g_clocks st)),
     {| g_trace := g_trace st; g_shared := g_shared st;
        g_thread := g_thread st; g_ticks := g_ticks st; g_pres := g_pres st;
        g_polls := g_polls st; g_logs := g_logs st;
        g_clocks := S (g_clocks st); g_checked := g_checked st |}).

Definition next_poll : M PollOutcome :=
  fun st =>
    (Normal (poll_proc w (g_polls st)),
     {| g_trace := g_trace st; g_shared := g_shared st;
        g_thread := g_thread st; g_ticks := g_ticks st; g_pres := g_pres st;
        g_polls := S (g_polls st); g_logs := g_logs st;
        g_clocks := g_clocks st; g_checked := g_checked st |}).

Definition next_log : M LogOutcome :=
  fun st =>
    (Normal (log_proc w (g_logs st)),
     {| g_trace := g_trace st; g_shared := g_shared st;
        g_thread := g_thread st; g_ticks := g_ticks st; g_pres := g_pres st;
        g_polls := g_polls st; g_logs := S (g_logs st);
        g_clocks := g_clocks st; g_checked := g_checked st |}).

Definition record_check (rc : option Z) : M unit :=
  fun st =>
    (Normal tt,
     {| g_trace := g_trace st; g_shared := g_shared st;
        g_thread := g_thread st; g_ticks := g_ticks st; g_pres := g_pres st;
        g_polls := g_polls st; g_logs := g_logs st;
        g_clocks := g_clocks st; g_checked := Some rc |}).

Definition start_thread (cmd : string) : M unit :=
  emit (StartThread cmd) ;;
  fun st =>
    (Normal tt,
     set_shared {| holder := initial_holder;
                   log_queue := log_queue (g_shared st) |}
       (run_command_async (main_proc w)) st).

(** [for x in l: body x]. *)
Fixpoint for_each {A} (l : list A) (body : A -> M unit) : M unit :=
  match l with
  | [] => ret tt
  | x :: l' => body x ;; for_each l' body
  end.

End Generator.

(* ===================================================================== *)
(** * [deploy_stream] *)
(* ===================================================================== *)

Definition poll_interval : Z := 5.
Definition max_monitor_time : Z := 300.

Definition pods_header : string := "ðŸ“¦ Pod Status:".

(** The [| head -20] stage of the pod listing: the first [n] lines. *)
Fixpoint head_lines (s : string) (n : nat) {struct s} : string :=
  match s with
  | "" => ""
  | String c s' =>
      match n with
      | 0 => ""
      | S k => String c (head_lines s' (if Ascii.eqb c nl then k else n))
      end
  end.

Definition pod_command (namespace : string) : string :=
  "kubectl get pods -n " ++ namespace ++ " --no-headers 2>/dev/null | head -20".

Definition fmt_returncode (rc : option Z) : string :=
  match rc with Some z => str_of_Z z | None => "None" end.

Definition is_zero (rc : option Z) : bool :=
  match rc with Some z => (z =? 0)%Z | None => false end.

Fixpoint lookup (k : string) (c : Config) : option DeploymentConfig :=
  match c with
  | [] => None
  | (k', dc) :: c' => if (k =? k')%string then Some dc else lookup k c'
  end.

Definition first_key (c : Config) : option string :=
  match c with [] => None | (k, _) :: _ => Some k end.

(** The deployment type and its entry, as both handlers select them:
    [DEPLOY_TYPE] when set and not empty, else the first key of the file. *)
Definition active_deployment (env_deploy_type : option string) (config : Config)
  : option (string * DeploymentConfig) :=
  let deploy_type :=
    match env_deploy_type with
    | Some t => if truthy t then Some t else first_key config
    | None => first_key config
    end in
  match deploy_type with
  | Some t =>
      if truthy t
      then match lookup t config with
           | Some dc => Some (t, dc)
           | None => None
           end
      else None
  | None => None
  end.

(** [env['VERSION']]. *)
Definition version_env (req : DeploymentRequest) (dc : DeploymentConfig)
  : string :=
  or_else (version req) (get_default (dc_default_version dc) "").

(** How the monitoring loop was left, and after how many turns. *)
Inductive ExitReason :=
| Settled                      (* break: done seen twice *)
| TimedOut (elapsed : Z)       (* break: the deadline test, with the time read *)
| ConditionFalse.              (* the while condition *)

Record LoopExit := { iterations : nat; reason : ExitReason }.

Section Stream.

Variable w : World.

(** The try block that polls the pods; returns [last_pod_status]. *)
Definition poll_pod_status (namespace last_pod_status : string) : M string :=
  emit (PollPods (pod_command namespace)) ;;
  r <- next_poll w ;;
  match r with
  | PollFails => ret last_pod_status
  | PollOut out =>
      let pod_status := strip (head_lines out 20) in
      if truthy pod_status && negb (pod_status =? last_pod_status)%string
      then
        yield_event EvPods pods_header ;;
        for_each (firstn 15 (split_nl pod_status))
          (fun line =>
             if truthy (strip line) then yield_event EvPod line else ret tt) ;;
        ret pod_status
      else ret last_pod_status
  end.

(** [while not result_holder['done'] or polls_without_change < 2: ...] *)
Fixpoint monitor_loop (fuel : nat) (namespace : string) (start_time : Z)
    (last_pod_status : string) (polls_without_change : nat) (iter : nat)
  : M LoopExit :=
  match fuel with
  | 0 => out_of_fuel
  | S f =>
      h <- read_holder w ;;
      if negb (done h) || (polls_without_change <? 2)%nat
      then
        emit (Yield Keepalive) ;;
        drain w ;;
        h <- read_holder w ;;
        let polls :=
          if done h then S polls_without_change else polls_without_change in
        if done h && (2 <=? polls)%nat
        then ret {| iterations := S iter; reason := Settled |}
        else
          last <- poll_pod_status namespace last_pod_status ;;
          now <- time_time w ;;
          if (now - start_time >? max_monitor_time)%Z
          then
            yield_event EvInfo
              "Monitoring timeout reached, deployment may still be in progress" ;;
            ret {| iterations := S iter;
                   reason := TimedOut (now - start_time) |}
          else
            emit (Sleep poll_interval) ;;
            monitor_loop f namespace start_time last polls (S iter)
      else ret {| iterations := iter; reason := ConditionFalse |}
  end.

Definition monitor (fuel : nat) (namespace : string) : M LoopExit :=
  start_time <- time_time w ;;
  monitor_loop fuel namespace start_time "" 0 0.

Definition report_log_source (version : string) (log_source : LogSource)
  : M unit :=
  let log_cmd :=
    replace "${VERSION}" version (get_default (ls_command log_source) "") in
  let log_label := get_default (ls_label log_source) "Status" in
  yield_event EvInfo ("--- " ++ log_label ++ " ---") ;;
  emit (RunLog log_cmd) ;;
  r <- next_log w ;;
  match r with
  | LogOut _ out =>
      for_each (split_nl (strip out))
        (fun line =>
           if truthy (strip line) then yield_event EvLog line else ret tt)
  | LogFails e =>
      yield_event EvError ("Failed to get " ++ log_label ++ ": " ++ e)
  end.

(** From [# Report final status] to the end of the try block. *)
Definition report_final_status (version : string)
    (log_sources : list LogSource) : M unit :=
  h <- read_holder w ;;
  record_check (returncode h) ;;
  if is_zero (returncode h)
  then
    yield_event EvSuccess "Helm install command completed successfully!" ;;
    yield_event EvSection "Final Status" ;;
    for_each log_sources (report_log_source version) ;;
    emit (Yield (Data complete_event))
  else
    h1 <- read_holder w ;;
    let error_output := stdout h1 in
    h2 <- read_holder w ;;
    yield_event EvError
      ("Deployment failed with exit code " ++ fmt_returncode (returncode h2)) ;;
    if truthy error_output
    then
      for_each (lastn 20 (split_nl error_output))
        (fun line =>
           if truthy (strip line) then yield_event EvError line else ret tt)
    else ret tt.

Definition pre_command_step (n : nat) (x : nat * string) : M unit :=
  let '(idx, pre_cmd) := x in
  yield_event EvSection
    ("Pre-command " ++ str_of_Z (Z.of_nat idx) ++ "/" ++ str_of_Z (Z.of_nat n)) ;;
  yield_event EvCommand pre_cmd ;;
  result <- execute_command_stream w pre_cmd ;;
  drain w ;;
  if negb (r_returncode result =? 0)%Z
  then
    yield_event EvError
      ("Pre-command failed with exit code " ++ str_of_Z (r_returncode result)) ;;
    yield_event EvError (r_stdout result) ;;
    return_
  else ret tt.

(** [for idx, pre_cmd in enumerate(pre_commands, 1): ...] *)
Definition run_pre_commands (pre_commands : list string) : M unit :=
  for_each (combine (seq 1 (List.length pre_commands)) pre_commands)
    (pre_command_step (List.length pre_commands)).

(** From the ['start'] event to the last draining of the queue, for the
    deployment selected. *)
Definition run_deployment (fuel : nat) (deploy_type : string)
    (deploy_config : DeploymentConfig) : M unit :=
  let pre_commands := dc_pre_commands deploy_config in
  let command := dc_command deploy_config in
  let namespace := get_default (dc_namespace deploy_config) "nemo" in
  yield_event EvStart ("Starting " ++ deploy_type ++ " deployment...") ;;
  run_pre_commands pre_commands ;;
  yield_event EvSection "Main Deployment" ;;
  yield_event EvCommand command ;;
  start_thread w command ;;
  monitor fuel namespace ;;
  emit (Join 10) ;;
  drain w.

(** The try block of [generate]. *)
Definition generate_body (fuel : nat) (env_deploy_type : option string)
    (config : Config) (req : DeploymentRequest) : M unit :=
  if negb (truthy (get_default (apiKey req) ""))
  then yield_event EvError "API key is required" ;; return_
  else
    match active_deployment env_deploy_type config with
    | None => yield_event EvError "No deployment configured" ;; return_
    | Some (deploy_type, deploy_config) =>
        run_deployment fuel deploy_type deploy_config ;;
        report_final_status (version_env req deploy_config)
          (dc_log_sources deploy_config)
    end.

(** [generate]: the body under [except Exception]. *)
Definition generate (fuel : nat) (env_deploy_type : option string)
    (config : Config) (req : DeploymentRequest) : M unit :=
  fun st =>
    match generate_body fuel env_deploy_type config req st with
    | (Raised e, st') => yield_event EvError ("Error: " ++ e) st'
    | r => r
    end.

Definition deploy_stream (fuel : nat) (env_deploy_type : option string)
    (config : Config) (req : DeploymentRequest) : Res unit * GenState :=
  generate fuel env_deploy_type config req initial_state.

End Stream.

(** The frames and the events of a trace. *)
Definition frames (tr : list Action) : list Frame :=
  flat_map (fun a => match a with Yield f => [f] | _ => [] end) tr.

Definition events (tr : list Action) : list Event :=
  flat_map (fun a => match a with Yield (Data e) => [e] | _ => [] end) tr.

(** Does the action start a child process? *)
Definition spawns (a : Action) : bool :=
  match a with
  | Exec _ | StartThread _ | PollPods _ | RunLog _ => true
  | _ => false
  end.

(** The commands given to [execute_command], in order. *)
Definition executed (tr : list Action) : list string :=
  flat_map (fun a => match a with Exec c => [c] | _ => [] end) tr.

Definition has_type (t : EventType) (e : Event) : bool :=
  EventType_eqb (ev_type e) t.

(* ===================================================================== *)
(** * [deploy] *)
(* ===================================================================== *)

(** [would_execute] of the dry-run answer. *)
Record WouldExecute := {
  deployment_type : string;
  we_version : string;
  working_directory : string;
  environment : list (string * string);
  pre_commands : list string;
  main_command : string
}.

(** The JSON objects [deploy] answers with. *)
Inductive Body :=
| ErrorBody (error : string) (output : option string)
| MessageBody (message output : string)
| DryRunBody (would_execute : WouldExecute) (message : string).

Record Response := { body : Body; status : nat }.

Definition lower_char (c : ascii) : ascii :=
  let n := nat_of_ascii c in
  if ((65 <=? n) && (n <=? 90))%nat then ascii_of_nat (n + 32) else c.

Definition upper_char (c : ascii) : ascii :=
  let n := nat_of_ascii c in
  if ((97 <=? n) && (n <=? 122))%nat then ascii_of_nat (n - 32) else c.

Definition is_alpha (c : ascii) : bool :=
  let n := nat_of_ascii c in
  (((65 <=? n) && (n <=? 90)) || ((97 <=? n) && (n <=? 122)))%nat.

(** [s.lower()] and [s.title()] on ASCII letters. *)
Fixpoint lower (s : string) : string :=
  match s with
  | "" => ""
  | String c s' => String (lower_char c) (lower s')
  end.

Fixpoint title_go (in_word : bool) (s : string) : string :=
  match s with
  | "" => ""
  | String c s' =>
      String (if in_word then lower_char c else upper_char c)
        (title_go (is_alpha c) s')
  end.

Definition title (s : string) : string := title_go false s.

Section Deploy.

Variable w : World.

(** The loop over the pre-commands of [deploy]: the answer that ends the
    request, or the outputs collected and the number of runs made. *)
Fixpoint deploy_pre_commands (k : nat) (cmds : list string)
    (outputs : list string) (tr : list Action)
  : (Response + (nat * list string)) * list Action :=
  match cmds with
  | [] => (inr (k, outputs), tr)
  | pre_cmd :: rest =>
      let tr := (tr ++ [Exec pre_cmd])%list in
      match sync_proc w k with
      | Completed rc out err =>
          let outputs := app outputs [("Pre-command output: " ++ out)%string] in
          if negb (rc =? 0)%Z
          then
            (inl {| body := ErrorBody ("Pre-command failed: " ++ err)
                              (Some (join_nl outputs));
                    status := 500 |}, tr)
          else deploy_pre_commands (S k) rest outputs tr
      | TimeoutExpired =>
          (inl {| body := ErrorBody "Deployment timed out after 10 minutes" None;
                  status := 500 |}, tr)
      | SyncFails e =>
          (inl {| body := ErrorBody ("Deployment error: " ++ e) None;
                  status := 500 |}, tr)
      end
  end.

(** [deploy]; [env_dry_run] is the variable [DRY_RUN] of the server. *)
Definition deploy (env_deploy_type env_dry_run : option string)
    (config : Config) (req : DeploymentRequest) : Response * list Action :=
  let dry_run :=
    dryRun req || (lower (get_default env_dry_run "") =? "true")%string in
  let api_key := get_default (apiKey req) "" in
  if negb (truthy api_key)
  then ({| body := ErrorBody "API key is required" None; status := 400 |}, [])
  else
    match active_deployment env_deploy_type config with
    | None =>
        ({| body := ErrorBody "No deployment configured" None;
            status := 500 |}, [])
    | Some (deploy_type, deploy_config) =>
        let working_dir := get_default (dc_working_dir deploy_config) "/app" in
        let env_var := get_default (dc_env_var deploy_config) "NGC_API_KEY" in
        let pre_cmds := dc_pre_commands deploy_config in
        let command := dc_command deploy_config in
        let v := version_env req deploy_config in
        if dry_run
        then
          ({| body :=
                DryRunBody
                  {| deployment_type := deploy_type;
                     we_version := v;
                     working_directory := working_dir;
                     environment := [(env_var, "***hidden***"); ("VERSION", v)];
                     pre_commands := map (mask_secrets api_key) pre_cmds;
                     main_command := mask_secrets api_key command |}
                  "Dry run complete - no commands were executed";
              status := 200 |}, [])
        else
          match deploy_pre_commands 0 pre_cmds [] [] with
          | (inl resp, tr) => (resp, tr)
          | (inr (k, outputs), tr) =>
              let tr := (tr ++ [Exec command])%list in
              match sync_proc w k with
              | Completed rc out err =>
                  let outputs := (outputs ++ [out])%list in
                  if (rc =? 0)%Z
                  then
                    ({| body :=
                          MessageBody
                            (title deploy_type ++
                             " deployment initiated successfully!")
                            (join_nl outputs);
                        status := 200 |}, tr)
                  else
                    ({| body := ErrorBody ("Deployment failed: " ++ err)
                                  (Some (join_nl outputs));
                        status := 500 |}, tr)
              | TimeoutExpired =>
                  ({| body :=
                        ErrorBody "Deployment timed out after 10 minutes" None;
                      status := 500 |}, tr)
              | SyncFails e =>
                  ({| body := ErrorBody ("Deployment error: " ++ e) None;
                      status := 500 |}, tr)
              end
          end
    end.

End Deploy.

(** The commands a dry-run answer echoes. *)
Definition echoed (r : Response) : list string :=
  match body r with
  | DryRunBody we _ => pre_commands we ++ [main_command we]
  | _ => []
  end.

(* ===================================================================== *)
(** * Sample worlds *)
(* ===================================================================== *)

Definition quiet_proc : ProcBehaviour := {| p_lines := []; p_end := Exit 0 |}.

(** A world in which every process succeeds silently, the thread is never
    scheduled, and time does not pass. *)
Definition idle_world : World :=
  {| pre_proc := fun _ => quiet_proc;
     main_proc := quiet_proc;
     sched := fun _ => 0;
     poll_proc := fun _ => PollOut "";
     log_proc := fun _ => LogOut 0 "";
     clock := fun _ => 0%Z;
     sync_proc := fun _ => Completed 0 "" "" |}.

Definition sample_config (pre : list string) (cmd : string)
    (logs : list LogSource) : Config :=
  [("helm",
    {| dc_command := cmd; dc_working_dir := None; dc_env_var := None;
       dc_pre_commands := pre; dc_log_sources := logs; dc_namespace := None;
       dc_default_version := None |})].

Definition sample_request (key : string) : DeploymentRequest :=
  {| apiKey := Some key; version := None; dryRun := false |}.

(* ===================================================================== *)
(** * Vocabulary of the proofs *)
(* ===================================================================== *)

Definition puts_of (b : ProcBehaviour) : list ThreadOp :=
  map (fun line => Put EvOutput (rstrip line)) (read_lines b).

Definition epilogue (b : ProcBehaviour) : list ThreadOp :=
  match p_end b with
  | Exit rc => [SetReturncode rc; SetStdout (join (read_lines b)); SetDone]
  | Fails e =>
      [SetReturncode 1; SetStdout e; SetDone;
       Put EvError ("Command error: " ++ e)]
  end.

Definition is_put (op : ThreadOp) : Prop :=
  match op with Put _ _ => True | _ => False end.

Definition exit_code (b : ProcBehaviour) : Z :=
  match p_end b with Exit rc => rc | Fails _ => 1%Z end.

(** What the runner leaves in [result_holder['stdout']]. *)
Definition captured (b : ProcBehaviour) : string :=
  match p_end b with Exit _ => join (read_lines b) | Fails e => e end.

(** The states of the cell and of the rest of the thread after [n] steps
    from a fresh cell. *)
Definition runner_after (b : ProcBehaviour) (q : list (EventType * string))
    (n : nat) : list ThreadOp * Shared :=
  run_thread n (run_command_async b)
    {| holder := initial_holder; log_queue := q |}.

(** [keeps I m]: the computation [m] preserves the invariant [I], however
    it ends. *)
Definition keeps (I : GenState -> Prop) {A} (m : M A) : Prop :=
  forall st, I st -> I (snd (m st)).

Definition put_pairs (ops : list ThreadOp) : list (EventType * string) :=
  flat_map (fun op => match op with Put t m => [(t, m)] | _ => [] end) ops.

(** What is in the queue followed by what the thread will still put. *)
Definition pending (sh : Shared) (ops : list ThreadOp)
  : list (EventType * string) :=
  (log_queue sh ++ put_pairs ops)%list.

Definition holder_step (op : ThreadOp) (h : ResultHolder) : ResultHolder :=
  match op with
  | Put _ _ => h
  | SetReturncode rc =>
      {| done := done h; returncode := Some rc; stdout := stdout h |}
  | SetStdout s =>
      {| done := done h; returncode := returncode h; stdout := s |}
  | SetDone =>
      {| done := true; returncode := returncode h; stdout := stdout h |}
  end.

Fixpoint run_holder (n : nat) (ops : list ThreadOp) (h : ResultHolder)
  : list ThreadOp * ResultHolder :=
  match n, ops with
  | 0, _ => (ops, h)
  | _, [] => ([], h)
  | S k, op :: ops' => run_holder k ops' (holder_step op h)
  end.

(** [advanced st st']: from [st] to [st'] the thread took some steps and
    nothing else touched the cell. *)
Definition advanced (st st' : GenState) : Prop :=
  exists n,
    run_holder n (g_thread st) (holder (g_shared st)) =
    (g_thread st', holder (g_shared st')).

(** The counters that only their own operation moves. *)
Definition same_counters (st st' : GenState) : Prop :=
  g_pres st' = g_pres st /\ g_polls st' = g_polls st /\
  g_logs st' = g_logs st /\ g_clocks st' = g_clocks st /\
  g_checked st' = g_checked st.

Definition yield_of (x : EventType * string) : Action :=
  Yield (Data (event (fst x) (snd x))).

(** Actions that can occur before the final status: no ['complete'] frame
    and no log command. *)
Definition calm (a : Action) : Prop :=
  match a with
  | Yield (Data e) => ev_type e <> EvComplete
  | RunLog _ => False
  | _ => True
  end.

(** The entries the runners put on the queue. *)
Definition benign (x : EventType * string) : Prop :=
  fst x = EvOutput \/ fst x = EvError.

(** The thread is not started, or it is some steps into
    [run_command_async]. *)
Definition reach (w : World) (st : GenState) : Prop :=
  (g_thread st = [] /\ holder (g_shared st) = initial_holder) \/
  (exists n,
     run_holder n (run_command_async (main_proc w)) initial_holder =
     (g_thread st, holder (g_shared st))).

Definition Inv (w : World) (st : GenState) : Prop :=
  g_checked st = None /\
  g_logs st = 0 /\
  Forall calm (g_trace st) /\
  Forall benign (pending (g_shared st) (g_thread st)) /\
  reach w st.

(** The state after more actions were recorded and [n] more log outcomes
    taken. *)
Definition after_logs (tr : list Action) (n : nat) (st : GenState) : GenState :=
  {| g_trace := g_trace st ++ tr; g_shared := g_shared st;
     g_thread := g_thread st; g_ticks := g_ticks st; g_pres := g_pres st;
     g_polls := g_polls st; g_logs := n + g_logs st; g_clocks := g_clocks st;
     g_checked := g_checked st |}.

Definition add_trace (tr : list Action) (st : GenState) : GenState :=
  after_logs tr 0 st.

(** A line is shown when it is not blank. *)
Definition nonblank (line : string) : bool := truthy (strip line).

Definition yield_line (t : EventType) (line : string) : Action :=
  Yield (Data (event t line)).

Definition log_command (v : string) (ls : LogSource) : string :=
  replace "${VERSION}" v (get_default (ls_command ls) "").

Definition log_label (ls : LogSource) : string :=
  get_default (ls_label ls) "Status".

Definition log_failure (ls : LogSource) (e : string) : Action :=
  Yield (Data (event EvError ("Failed to get " ++ log_label ls ++ ": " ++ e))).

(** What reporting one log source adds to the trace, by its outcome. *)
Definition log_source_trace (v : string) (ls : LogSource) (o : LogOutcome)
  : list Action :=
  [Yield (Data (event EvInfo ("--- " ++ log_label ls ++ " ---")));
   RunLog (log_command v ls)] ++
  match o with
  | LogOut _ out => map (yield_line EvLog) (filter nonblank (split_nl (strip out)))
  | LogFails e => [log_failure ls e]
  end.

(** The same for a list of sources, the first taking outcome [k]. *)
Fixpoint logs_trace (w : World) (v : string) (sources : list LogSource)
    (k : nat) : list Action :=
  match sources with
  | [] => []
  | ls :: rest => log_source_trace v ls (log_proc w k) ++ logs_trace w v rest (S k)
  end.

Definition success_header : list Action :=
  [Yield (Data (event EvSuccess "Helm install command completed successfully!"));
   Yield (Data (event EvSection "Final Status"))].

Definition failure_event (rc : option Z) : Action :=
  Yield (Data (event EvError
                 ("Deployment failed with exit code " ++ fmt_returncode rc))).

Definition shown_lines (error_output : string) : list string :=
  filter nonblank (lastn 20 (split_nl error_output)).

Definition is_complete (e : Event) : Prop := ev_type e = EvComplete.

Definition not_complete (a : Action) : Prop :=
  match a with
  | Yield (Data e) => ev_type e <> EvComplete
  | _ => True
  end.

Definition success_event : Event :=
  event EvSuccess "Helm install command completed successfully!".

(** A world whose main command prints [lines] and exits with [rc]; the
    runner is scheduled generously and log command [k] fails when [bad k]. *)
Definition finishing_world (lines : list string) (rc : Z) (bad : nat -> bool)
  : World :=
  {| pre_proc := fun _ => quiet_proc;
     main_proc := {| p_lines := lines; p_end := Exit rc |};
     sched := fun _ => 100;
     poll_proc := fun _ => PollOut "";
     log_proc := fun k => if bad k then LogFails "timed out" else LogOut 0 "ok";
     clock := fun _ => 0%Z;
     sync_proc := fun _ => Completed 0 "" "" |}.


Definition logs_run (tr : list Action) : list string :=
  flat_map (fun a => match a with RunLog c => [c] | _ => [] end) tr.

(** Actions of the pre-command phase: the main command is not started,
    nothing is polled, no log is fetched. *)
Definition no_main (a : Action) : Prop :=
  match a with
  | StartThread _ | PollPods _ | RunLog _ => False
  | _ => True
  end.

Definition pre_failed_event (rc : Z) : Action :=
  Yield (Data (event EvError
                 ("Pre-command failed with exit code " ++ str_of_Z rc))).

Definition after_exec (w : World) (cmd : string) (st : GenState) : GenState :=
  {| g_trace := g_trace st ++ [Exec cmd];
     g_shared :=
       {| holder := holder (g_shared st);
          log_queue :=
            log_queue (g_shared st) ++
            map (fun line => (EvOutput, rstrip line))
              (read_lines (pre_proc w (g_pres st))) |};
     g_thread := g_thread st; g_ticks := g_ticks st;
     g_pres := S (g_pres st); g_polls := g_polls st;
     g_logs := g_logs st; g_clocks := g_clocks st;
     g_checked := g_checked st |}.

(** A world whose second pre-command fails with code 2. *)
Definition failing_pre_world : World :=
  {| pre_proc := fun k =>
       if Nat.eqb k 1
       then {| p_lines := ["Error: chart not found" ++ String nl ""];
               p_end := Exit 2 |}
       else quiet_proc;
     main_proc := quiet_proc;
     sched := fun _ => 100;
     poll_proc := fun _ => PollOut "";
     log_proc := fun _ => LogOut 0 "";
     clock := fun _ => 0%Z;
     sync_proc := fun k =>
       if Nat.eqb k 1 then Completed 2 "" "chart not found"
       else Completed 0 "" "" |}.


(** The trimmed text of a pod listing. *)
Definition polled_text (out : string) : string := strip (head_lines out 20).

(** The test of the poller: the text is not empty and not the last one. *)
Definition changed (text last_pod_status : string) : bool :=
  truthy text && negb (text =? last_pod_status)%string.

Definition pod_lines (text : string) : list string :=
  filter nonblank (firstn 15 (split_nl text)).

(** The events of one update. *)
Definition pod_group (text : string) : list Action :=
  Yield (Data (event EvPods pods_header)) :: map (yield_line EvPod) (pod_lines text).

Definition after_poll (tr : list Action) (st : GenState) : GenState :=
  {| g_trace := g_trace st ++ tr; g_shared := g_shared st;
     g_thread := g_thread st; g_ticks := g_ticks st; g_pres := g_pres st;
     g_polls := S (g_polls st); g_logs := g_logs st; g_clocks := g_clocks st;
     g_checked := g_checked st |}.

(** What a poll returns as [last_pod_status] and adds to the trace. *)
Definition poll_result (o : PollOutcome) (last_pod_status : string)
  : string * list Action :=
  match o with
  | PollFails => (last_pod_status, [])
  | PollOut out =>
      if changed (polled_text out) last_pod_status
      then (polled_text out, pod_group (polled_text out))
      else (last_pod_status, [])
  end.




Definition after_clock (st : GenState) : GenState :=
  {| g_trace := g_trace st; g_shared := g_shared st;
     g_thread := g_thread st; g_ticks := g_ticks st; g_pres := g_pres st;
     g_polls := g_polls st; g_logs := g_logs st; g_clocks := S (g_clocks st);
     g_checked := g_checked st |}.

Definition timeout_message : string :=
  "Monitoring timeout reached, deployment may still be in progress".

(** A world in which the main command never gets to run, a turn of the
    loop takes 3 seconds besides its sleep of 5: the clock reads 0 at the
    start of the loop and 8k - 5 at its k-th deadline test. *)
Definition slow_poll_world : World :=
  {| pre_proc := fun _ => quiet_proc;
     main_proc := quiet_proc;
     sched := fun _ => 0;
     poll_proc := fun _ => PollOut "";
     log_proc := fun _ => LogOut 0 "";
     clock := fun k => match k with O => 0%Z | S _ => (8 * Z.of_nat k - 5)%Z end;
     sync_proc := fun _ => Completed 0 "" "" |}.

(** A world in which the main command is still running when the stream
    ends: the runner never gets to record anything; the clock advances by
    5 seconds from one reading to the next. *)
Definition stalled_world : World :=
  {| pre_proc := fun _ => quiet_proc;
     main_proc := quiet_proc;
     sched := fun _ => 0;
     poll_proc := fun _ => PollOut "";
     log_proc := fun _ => LogOut 0 "";
     clock := fun k => (5 * Z.of_nat k)%Z;
     sync_proc := fun _ => Completed 0 "" "" |}.

(** The credential has no ['*'] in it. *)
Definition star_free (k : string) : bool := negb (mem_char "*" k).

(** [Masked s s']: [s'] is [s] with some pieces replaced by ["***"]. *)
Inductive Masked : string -> string -> Prop :=
| Masked_nil : Masked "" ""
| Masked_keep c s s' : Masked s s' -> Masked (String c s) (String c s')
| Masked_hide m s s' : Masked s s' -> Masked (m ++ s) ("***" ++ s').

(** [Rewrites p s s']: [s'] is [s] scanned from the left, where each match
    of [p] found is replaced by its group 1 followed by ["***"] and the scan
    goes on behind the match; what no match covers is copied. *)
Inductive Rewrites (p : Regex.pattern) : string -> string -> Prop :=
| Rewrites_nil : Rewrites p "" ""
| Rewrites_copy c s s' :
    Regex.match_pattern p (String c s) = None ->
    Rewrites p s s' ->
    Rewrites p (String c s) (String c s')
| Rewrites_hit s g n s' :
    Regex.match_pattern p s = Some (g, n) ->
    0 < n ->
    Rewrites p (drop n s) s' ->
    Rewrites p s (take g s ++ "***" ++ s').

(* ===================================================================== *)
(** * Configuration files and the [/config] endpoint *)
(* ===================================================================== *)

(** [get_config_path]; [local_exists] is [os.path.exists('./config.json')]
    and [env_config_file] the variable [CONFIG_FILE]. *)
Definition get_config_path (local_exists : bool)
    (env_config_file : option string) : string :=
  if local_exists then "./config.json"
  else get_default env_config_file "/app/config.json".

(** The module constant [CONFIG_FILE]. *)
Definition CONFIG_FILE (local_exists : bool) (env_config_file : option string)
  : string :=
  match env_config_file with
  | Some s =>
      if truthy s then s else get_config_path local_exists env_config_file
  | None => get_config_path local_exists env_config_file
  end.

(** The dictionary [load_config] returns when the file cannot be read. *)
Definition fallback_config : Config :=
  [("docker-compose",
    {| dc_command := "docker-compose up -d"; dc_working_dir := Some "/app";
       dc_env_var := Some "NGC_API_KEY"; dc_pre_commands := [];
       dc_log_sources := []; dc_namespace := None;
       dc_default_version := None |});
   ("helm",
    {| dc_command := "helm install myrelease ./chart";
       dc_working_dir := Some "/app"; dc_env_var := Some "NGC_API_KEY";
       dc_pre_commands := []; dc_log_sources := []; dc_namespace := None;
       dc_default_version := None |})].

(** [load_config]; [file] is the parsed file, [None] when opening or
    parsing it raises. *)
Definition load_config (file : option Config) : Config :=
  match file with
  | Some config => config
  | None => fallback_config
  end.

(** The keys of an entry of config.json that [get_config] reads. *)
Record DeploymentMeta := {
  dm_versions : option (list string);
  dm_default_version : option string;
  dm_description : option string;
  dm_heading : option string
}.

(** The object [get_config] answers with. *)
Record Metadata := {
  md_active_deployment : string;
  md_versions : list string;
  md_default_version : string;
  md_description : string;
  md_show_version_selector : bool;
  md_heading : string
}.

Fixpoint lookup_meta (k : string) (c : list (string * DeploymentMeta))
  : option DeploymentMeta :=
  match c with
  | [] => None
  | (k', m) :: c' => if (k =? k')%string then Some m else lookup_meta k c'
  end.

(** [get_config]: the metadata and 200, or the error and 500. *)
Definition get_config (env_deploy_type env_heading : option string)
    (config : list (string * DeploymentMeta)) : (Metadata + string) * nat :=
  let first := match config with [] => None | (k, _) :: _ => Some k end in
  let active_deploy_type :=
    match env_deploy_type with
    | Some t => if truthy t then Some t else first
    | None => first
    end in
  match active_deploy_type with
  | Some t =>
      if truthy t
      then match lookup_meta t config with
           | Some deploy_config =>
               (inl {| md_active_deployment := t;
                       md_versions := get_default (dm_versions deploy_config) [];
                       md_default_version :=
                         get_default (dm_default_version deploy_config) "";
                       md_description :=
                         get_default (dm_description deploy_config) "";
                       md_show_version_selector :=
                         (0 <? List.length
                                 (get_default (dm_versions deploy_config) []))%nat;
                       md_heading :=
                         or_else env_heading
                           (get_default (dm_heading deploy_config) "Deploy") |},
                200)
           | None => (inr "No deployment configured", 500)
           end
      else (inr "No deployment configured", 500)
  | None => (inr "No deployment configured", 500)
  end.

(* ===================================================================== *)
(** * Vocabulary of the further properties *)
(* ===================================================================== *)

(** The output text of the k-th captured run of [deploy]. *)
Definition sync_out (w : World) (k : nat) : string :=
  match sync_proc w k with
  | Completed _ out _ => out
  | _ => ""
  end.

(** The messages of the ['output'] events of a trace, and of the
    ['output'] entries of a queue. *)
Definition trace_outputs (tr : list Action) : list string :=
  flat_map (fun a =>
              match a with
              | Yield (Data {| ev_type := EvOutput; ev_message := Some m |}) => [m]
              | _ => []
              end) tr.

Definition queue_outputs (q : list (EventType * string)) : list string :=
  flat_map (fun x => match x with (EvOutput, m) => [m] | _ => [] end) q.

(** The lines a process puts on the queue. *)
Definition proc_outputs (b : ProcBehaviour) : list string :=
  map rstrip (read_lines b).

(** The lines of the first [n] pre-command runs. *)
Definition pre_outputs (w : World) (n : nat) : list string :=
  flat_map (fun k => proc_outputs (pre_proc w k)) (seq 0 n).

Definition is_start_thread (a : Action) : bool :=
  match a with StartThread _ => true | _ => false end.

(** Has the handler started the runner thread? *)
Definition started (st : GenState) : bool :=
  existsb is_start_thread (g_trace st).

(** The lines sent so far followed by those still to come out of the queue,
    and the lines the commands run so far print. *)
Definition relayed (st : GenState) : list string :=
  (trace_outputs (g_trace st) ++
   queue_outputs (pending (g_shared st) (g_thread st)))%list.

Definition produced (w : World) (st : GenState) : list string :=
  (pre_outputs w (g_pres st) ++
   if started st then proc_outputs (main_proc w) else [])%list.

Definition Relay (w : World) (st : GenState) : Prop :=
  relayed st = produced w st.

(** Before the thread is started, and after. *)
Definition Relay0 (w : World) (st : GenState) : Prop :=
  started st = false /\ g_thread st = [] /\ Relay w st.

Definition running (w : World) (st : GenState) : Prop :=
  exists n,
    run_holder n (run_command_async (main_proc w)) initial_holder =
    (g_thread st, holder (g_shared st)).

Definition Relay1 (w : World) (st : GenState) : Prop :=
  started st = true /\ running w st /\ Relay w st.

Definition timeout_action : Action :=
  Yield (Data (event EvInfo
                 "Monitoring timeout reached, deployment may still be in progress")).

(** How the monitoring loop can be left: [done] was seen, or the deadline
    passed and the timeout was announced. *)
Definition settled (st : GenState) : Prop :=
  done (holder (g_shared st)) = true \/ In timeout_action (g_trace st).

Definition drained (st : GenState) : Prop :=
  (done (holder (g_shared st)) = true /\ log_queue (g_shared st) = []) \/
  In timeout_action (g_trace st).

(** [relays st st']: from [st] to [st'] no command was run or started, and
    the only ['output'] events sent are entries that were pending. *)
Definition relays (st st' : GenState) : Prop :=
  g_pres st' = g_pres st /\ advanced st st' /\
  exists tr,
    g_trace st' = (g_trace st ++ tr)%list /\
    existsb is_start_thread tr = false /\
    queue_outputs (pending (g_shared st) (g_thread st)) =
    (trace_outputs tr ++
     queue_outputs (pending (g_shared st') (g_thread st')))%list /\
    executed tr = [].

(** The main command was started, once, after every pre-command had run
    and exited with 0; [pre_done] holds just before. *)
Definition pre_done (w : World) (dc : DeploymentConfig) (st : GenState) : Prop :=
  executed (g_trace st) = dc_pre_commands dc /\
  Forall no_main (g_trace st) /\
  g_pres st = List.length (dc_pre_commands dc) /\
  forall j, j < List.length (dc_pre_commands dc) ->
            p_end (pre_proc w j) = Exit 0.

Definition main_started (w : World) (dc : DeploymentConfig) (st : GenState)
  : Prop :=
  exists before after,
    g_trace st = (before ++ StartThread (dc_command dc) :: after)%list /\
    executed before = dc_pre_commands dc /\
    Forall no_main before /\
    existsb is_start_thread after = false /\
    executed after = [] /\
    g_pres st = List.length (dc_pre_commands dc) /\
    forall j, j < List.length (dc_pre_commands dc) ->
              p_end (pre_proc w j) = Exit 0.

Definition quiet {A} (m : M A) : Prop :=
  forall st, relays st (snd (m st)).

(** [triple P m Q E]: from a state in [P] the computation ends normally with
    a value and a state in [Q], or otherwise in a state in [E]. *)
Definition triple {A} (P : GenState -> Prop) (m : M A)
    (Q : A -> GenState -> Prop) (E : GenState -> Prop) : Prop :=
  forall st, P st ->
    match m st with
    | (Normal a, st') => Q a st'
    | (_, st') => E st'
    end.


(** A world in which the first pre-command cannot be spawned. *)
Definition broken_pre_world : World :=
  {| pre_proc := fun _ => {| p_lines := ["partial" ++ String nl ""];
                             p_end := Fails "No such file or directory" |};
     main_proc := quiet_proc;
     sched := fun _ => 100;
     poll_proc := fun _ => PollOut "";
     log_proc := fun _ => LogOut 0 "";
     clock := fun _ => 0%Z;
     sync_proc := fun k => if Nat.eqb k 1 then TimeoutExpired
                           else Completed 0 "fetched" "" |}.

(** A world with a clock that advances by the sleep of each turn. *)
Definition ticking_world (lines : list string) (rc : Z) (n : nat) : World :=
  {| pre_proc := fun _ => {| p_lines := ["ok" ++ String nl ""]; p_end := Exit 0 |};
     main_proc := {| p_lines := lines; p_end := Exit rc |};
     sched := fun _ => n;
     poll_proc := fun _ => PollOut "web-0 1/1 Running";
     log_proc := fun _ => LogOut 0 "ok";
     clock := fun k => (5 * Z.of_nat k)%Z;
     sync_proc := fun _ => Completed 0 "" "" |}.

(** The name both handlers and [get_config] select, from the keys of the
    file alone. *)
Definition select_name (env_deploy_type : option string) (keys : list string)
  : option string :=
  let first := match keys with [] => None | k :: _ => Some k end in
  let t :=
    match env_deploy_type with
    | Some t => if truthy t then Some t else first
    | None => first
    end in
  match t with
  | Some t => if truthy t && existsb (String.eqb t) keys then Some t else None
  | None => None
  end.

(** The computation ends normally or is cut by the fuel: it has no [return]
    and raises nothing. *)
Definition falls_through {A} (m : M A) : Prop :=
  forall st,
    match fst (m st) with
    | Returned | Raised _ => False
    | _ => True
    end.


(** A world whose main command succeeds and whose log commands exit with
    code 1 and print nothing on standard output. *)
Definition nonzero_log_world : World :=
  {| pre_proc := fun _ => quiet_proc;
     main_proc := quiet_proc;
     sched := fun _ => 100;
     poll_proc := fun _ => PollOut "";
     log_proc := fun _ => LogOut 1 "";
     clock := fun _ => 0%Z;
     sync_proc := fun _ => Completed 0 "" "" |}.

(* ===================================================================== *)
(** * Properties of the string operations *)
(* ===================================================================== *)

Example strip_ex : strip "  a b  " = "a b". Proof. reflexivity. Qed.
Example split_ex : split_nl ("a" ++ String nl "b" ++ String nl "") = ["a"; "b"; ""].
Proof. reflexivity. Qed.
Example replace_ex : replace "aa" "***" "aaa-aa" = "***a-***". Proof. reflexivity. Qed.
Example str_of_Z_ex : str_of_Z 0 = "0" /\ str_of_Z (-15) = "-15" /\ str_of_Z 127 = "127".
Proof. repeat split; reflexivity. Qed.

(* ===================================================================== *)
(** * The runner thread reaches [done] *)
(* ===================================================================== *)

Section Runner.

Lemma run_command_async_split b :
  run_command_async b = (puts_of b ++ epilogue b)%list.
Proof. reflexivity. Qed.

Lemma thread_step_put_holder op sh :
  is_put op -> holder (thread_step op sh) = holder sh.
Proof. destruct op; simpl; intros H; try contradiction; reflexivity. Qed.

(** While the runner is still in a run of [put]s the cell is untouched. *)
Lemma run_thread_puts n : forall puts rest sh,
  Forall is_put puts ->
  n <= List.length puts ->
  fst (run_thread n (puts ++ rest) sh) = (skipn n puts ++ rest)%list /\
  holder (snd (run_thread n (puts ++ rest) sh)) = holder sh.
Proof.
  induction n as [|n IH]; intros puts rest sh Hp Hn.
  - simpl. split; reflexivity.
  - destruct puts as [|op puts]; simpl in Hn; [lia|].
    inversion Hp as [|? ? Hop Hps]; subst.
    simpl. destruct (IH puts rest (thread_step op sh) Hps) as [H1 H2]; [lia|].
    split; [exact H1|]. rewrite H2. now apply thread_step_put_holder.
Qed.

Lemma run_thread_add n : forall m ops sh,
  run_thread (n + m) ops sh =
  run_thread m (fst (run_thread n ops sh)) (snd (run_thread n ops sh)).
Proof.
  induction n as [|n IH]; intros m ops sh.
  - reflexivity.
  - destruct ops as [|op ops].
    + simpl. destruct m; reflexivity.
    + simpl. apply IH.
Qed.

Lemma run_thread_nil n sh : run_thread n [] sh = ([], sh).
Proof. destruct n; reflexivity. Qed.

Lemma puts_of_are_puts b : Forall is_put (puts_of b).
Proof.
  unfold puts_of. induction (read_lines b); simpl; constructor; simpl; auto.
Qed.

(** The cell after [n] steps, by the phase the runner is in. *)
Lemma runner_phases b q n :
  let ops := fst (runner_after b q n) in
  let h := holder (snd (runner_after b q n)) in
  let k := List.length (puts_of b) in
  (n <= k /\ h = initial_holder /\ ops <> []) \/
  (n = k + 1 /\ ops <> [] /\
   h = {| done := false; returncode := Some (exit_code b); stdout := "" |}) \/
  (n = k + 2 /\ ops <> [] /\
   h = {| done := false; returncode := Some (exit_code b);
          stdout := captured b |}) \/
  (k + 3 <= n /\
   h = {| done := true; returncode := Some (exit_code b);
          stdout := captured b |}).
Proof.
  cbv zeta. unfold runner_after. rewrite run_command_async_split.
  set (sh0 := {| holder := initial_holder; log_queue := q |}).
  destruct (Nat.le_gt_cases n (List.length (puts_of b))) as [Hle|Hgt].
  - left. destruct (@run_thread_puts n (puts_of b) (epilogue b) sh0
                      (puts_of_are_puts b) Hle) as [H1 H2].
    split; [exact Hle|]. split; [exact H2|].
    rewrite H1. unfold epilogue. destruct (p_end b);
      destruct (skipn n (puts_of b)); discriminate.
  - right.
    replace n with (List.length (puts_of b) + (n - List.length (puts_of b)))
      by lia.
    rewrite run_thread_add.
    destruct (@run_thread_puts _ (puts_of b) (epilogue b) sh0
                (puts_of_are_puts b) (Nat.le_refl _)) as [H1 H2].
    rewrite H1, skipn_all. simpl app.
    remember (snd (run_thread (List.length (puts_of b))
                     (puts_of b ++ epilogue b) sh0)) as sh1 eqn:E.
    assert (Hh : holder sh1 = initial_holder) by exact H2.
    clear E H1 H2.
    remember (n - List.length (puts_of b)) as m eqn:Em.
    destruct m as [|[|[|m]]]; [lia| | |].
    + left. split; [lia|]. unfold epilogue, exit_code.
      destruct (p_end b); simpl; try rewrite Hh; simpl;
        (split; [discriminate|reflexivity]).
    + right; left. split; [lia|]. unfold epilogue, exit_code, captured.
      destruct (p_end b); simpl; try rewrite Hh; simpl;
        (split; [discriminate|reflexivity]).
    + right; right. split; [lia|]. unfold epilogue, exit_code, captured.
      destruct (p_end b); simpl.
      * rewrite run_thread_nil. simpl. try rewrite Hh. reflexivity.
      * destruct m; simpl; [|rewrite run_thread_nil; simpl];
          try rewrite Hh; reflexivity.
Qed.

Lemma runner_final b q :
  let final := runner_after b q (List.length (run_command_async b)) in
  fst final = [] /\
  (forall e, p_end b = Fails e ->
     In (EvError, "Command error: " ++ e) (log_queue (snd final))).
Proof.
  cbv zeta. unfold runner_after. rewrite run_command_async_split.
  rewrite length_app, run_thread_add.
  destruct (@run_thread_puts _ (puts_of b) (epilogue b)
              {| holder := initial_holder; log_queue := q |}
              (puts_of_are_puts b) (Nat.le_refl _)) as [H1 _].
  rewrite H1, skipn_all. cbn [app].
  unfold epilogue. destruct (p_end b) as [rc|e]; cbn.
  - split; [reflexivity|]. intros e' He. discriminate.
  - split; [reflexivity|]. intros e' He. injection He as <-.
    apply in_or_app. right. left. reflexivity.
Qed.

End Runner.

(** C10. On every path of [run_command_async], also when the process cannot
    be spawned or read, the runner ends with [done] set and an integer exit
    code in the shared cell: the exit code of the process, or 1 after an
    exception, whose text is then also put on the queue as an ['error']
    entry.  At every moment before, a set [done] flag comes with an exit
    code, and an exit code still [None] means the runner has steps left. *)
Theorem C10_runner_always_sets_done :
  forall (b : ProcBehaviour) (q : list (EventType * string)),
    let ops := run_command_async b in
    let final := runner_after b q (List.length ops) in
    fst final = [] /\
    done (holder (snd final)) = true /\
    returncode (holder (snd final)) =
      Some (match p_end b with Exit rc => rc | Fails _ => 1%Z end) /\
    (forall e, p_end b = Fails e ->
       stdout (holder (snd final)) = e /\
       In (EvError, "Command error: " ++ e) (log_queue (snd final))) /\
    (forall n,
       let now := runner_after b q n in
       (returncode (holder (snd now)) = None -> fst now <> []) /\
       (done (holder (snd now)) = true ->
        returncode (holder (snd now)) <> None)).
Proof.
  intros b q ops final.
  assert (Hlen : List.length ops = List.length (puts_of b) + List.length (epilogue b)).
  { unfold ops. rewrite run_command_async_split. apply length_app. }
  assert (Hfin := runner_final b q). fold ops in Hfin. fold final in Hfin.
  destruct Hfin as [Hnil Herr].
  assert (Hph := runner_phases b q (List.length ops)).
  cbv zeta in Hph. fold final in Hph.
  assert (Hk : List.length (puts_of b) + 3 <= List.length ops).
  { rewrite Hlen. unfold epilogue. destruct (p_end b); simpl; lia. }
  destruct Hph as [[Hle _]|[[He _]|[[He _]|[_ Hh]]]]; try lia.
  split; [exact Hnil|]. rewrite Hh. simpl.
  split; [reflexivity|]. split; [reflexivity|]. split.
  - intros e He. split; [|now apply Herr].
    unfold captured. rewrite He. reflexivity.
  - intros n. cbv zeta.
    destruct (runner_phases b q n) as [[_ [Hi Hne]]|[[_ [Hne Hi]]|[[_ [Hne Hi]]|[_ Hi]]]];
      rewrite Hi; simpl; split; intros; try assumption; try discriminate.
Qed.

(* ===================================================================== *)
(** * Reasoning about generator code *)
(* ===================================================================== *)

Lemma bind_normal {A B} (m : M A) (k : A -> M B) st a st1 :
  m st = (Normal a, st1) -> bind m k st = k a st1.
Proof. intros H. unfold bind. rewrite H. reflexivity. Qed.

Arguments bind_normal {A B} [m] k [st a st1] _.

Lemma bind_cases {A B} (m : M A) (k : A -> M B) st r st' :
  bind m k st = (r, st') ->
  (exists a st1, m st = (Normal a, st1) /\ k a st1 = (r, st')) \/
  (snd (m st) = st' /\
   ((fst (m st) = Returned /\ r = Returned) \/
    (exists e, fst (m st) = Raised e /\ r = Raised e) \/
    (fst (m st) = OutOfFuel /\ r = OutOfFuel))).
Proof.
  unfold bind. destruct (m st) as [[a| |e|] st1]; intros H.
  - left. eauto.
  - right. injection H as <- <-. simpl. auto.
  - right. injection H as <- <-. simpl. split; [reflexivity|]. right; left. eauto.
  - right. injection H as <- <-. simpl. auto.
Qed.

Lemma keeps_ret I {A} (a : A) : keeps I (ret a).
Proof. intros st H. exact H. Qed.

Lemma keeps_bind I {A B} (m : M A) (k : A -> M B) :
  keeps I m -> (forall a, keeps I (k a)) -> keeps I (bind m k).
Proof.
  intros Hm Hk st H. unfold bind. specialize (Hm st H).
  destruct (m st) as [[a| |e|] st1]; simpl in *; try exact Hm.
  apply Hk. exact Hm.
Qed.

Lemma keeps_return I {A} : keeps I (@return_ A).
Proof. intros st H. exact H. Qed.

Lemma keeps_raise I {A} e : keeps I (@raise A e).
Proof. intros st H. exact H. Qed.

Lemma keeps_out_of_fuel I {A} : keeps I (@out_of_fuel A).
Proof. intros st H. exact H. Qed.

Lemma keeps_for_each I {A} (l : list A) (body : A -> M unit) :
  (forall x, keeps I (body x)) -> keeps I (for_each l body).
Proof.
  intros Hb. induction l as [|x l IH]; simpl.
  - apply keeps_ret.
  - apply keeps_bind; [apply Hb|intros _; exact IH].
Qed.

Lemma keeps_if I {A} (c : bool) (m1 m2 : M A) :
  keeps I m1 -> keeps I m2 -> keeps I (if c then m1 else m2).
Proof. destruct c; auto. Qed.

(** ** The entries still to come out of the queue *)

Lemma run_thread_pending n : forall ops sh,
  pending (snd (run_thread n ops sh)) (fst (run_thread n ops sh)) =
  pending sh ops.
Proof.
  induction n as [|n IH]; intros ops sh; [reflexivity|].
  destruct ops as [|op ops]; [reflexivity|].
  simpl run_thread. rewrite IH. unfold pending.
  destruct op; simpl; try reflexivity.
  rewrite <- app_assoc. reflexivity.
Qed.

(** ** The cell, apart from the queue *)

Lemma run_thread_holder n : forall ops sh,
  fst (run_thread n ops sh) = fst (run_holder n ops (holder sh)) /\
  holder (snd (run_thread n ops sh)) = snd (run_holder n ops (holder sh)).
Proof.
  induction n as [|n IH]; intros ops sh; [split; reflexivity|].
  destruct ops as [|op ops]; [split; reflexivity|].
  simpl. destruct (IH ops (thread_step op sh)) as [H1 H2].
  rewrite H1, H2. destruct op; split; reflexivity.
Qed.

Lemma run_holder_add n : forall m ops h,
  run_holder (n + m) ops h =
  run_holder m (fst (run_holder n ops h)) (snd (run_holder n ops h)).
Proof.
  induction n as [|n IH]; intros m ops h; [reflexivity|].
  destruct ops as [|op ops].
  - simpl. destruct m; reflexivity.
  - simpl. apply IH.
Qed.

Lemma run_holder_nil n h : run_holder n [] h = ([], h).
Proof. destruct n; reflexivity. Qed.

Lemma advanced_refl st : advanced st st.
Proof. exists 0. reflexivity. Qed.

Lemma advanced_trans st1 st2 st3 :
  advanced st1 st2 -> advanced st2 st3 -> advanced st1 st3.
Proof.
  intros [n Hn] [m Hm]. exists (n + m).
  rewrite run_holder_add, Hn. exact Hm.
Qed.

(** A set [done] flag stays set, and a recorded exit code stays recorded. *)
Lemma run_holder_done n : forall ops h,
  done h = true -> done (snd (run_holder n ops h)) = true.
Proof.
  induction n as [|n IH]; intros ops h H; [exact H|].
  destruct ops as [|op ops]; [exact H|].
  simpl. apply IH. destruct op; simpl; auto.
Qed.

Lemma advanced_done st st' :
  advanced st st' ->
  done (holder (g_shared st)) = true -> done (holder (g_shared st')) = true.
Proof.
  intros [n Hn] H.
  apply (run_holder_done n (g_thread st)) in H. rewrite Hn in H. exact H.
Qed.

Lemma same_counters_refl st : same_counters st st.
Proof. repeat split. Qed.

Lemma same_counters_trans st1 st2 st3 :
  same_counters st1 st2 -> same_counters st2 st3 -> same_counters st1 st3.
Proof.
  unfold same_counters. intros (a & b & c & d & e) (a' & b' & c' & d' & e').
  repeat split; congruence.
Qed.

Section GenFacts.

Variable w : World.

Lemma tick_spec st :
  exists st',
    tick w st = (Normal tt, st') /\
    g_trace st' = g_trace st /\
    pending (g_shared st') (g_thread st') = pending (g_shared st) (g_thread st) /\
    same_counters st st' /\ advanced st st'.
Proof.
  unfold tick.
  pose proof (run_thread_pending (sched w (g_ticks st)) (g_thread st) (g_shared st)) as Hp.
  pose proof (run_thread_holder (sched w (g_ticks st)) (g_thread st) (g_shared st)) as [Hh1 Hh2].
  destruct (run_thread (sched w (g_ticks st)) (g_thread st) (g_shared st))
    as [ops sh] eqn:E.
  eexists. split; [reflexivity|]. simpl in *.
  split; [reflexivity|]. split; [exact Hp|]. split; [repeat split|].
  exists (sched w (g_ticks st)). simpl.
  destruct (run_holder (sched w (g_ticks st)) (g_thread st) (holder (g_shared st))).
  simpl in *. congruence.
Qed.

Lemma read_holder_spec st :
  exists st',
    read_holder w st = (Normal (holder (g_shared st')), st') /\
    g_trace st' = g_trace st /\
    pending (g_shared st') (g_thread st') = pending (g_shared st) (g_thread st) /\
    same_counters st st' /\ advanced st st'.
Proof.
  destruct (tick_spec st) as (st' & Ht & H).
  exists st'. split; [|exact H].
  unfold read_holder. rewrite (bind_normal _ Ht). reflexivity.
Qed.

(** One turn of a draining loop: the queue is empty, or its head is
    taken. *)
Lemma queue_get_spec st :
  exists st',
    same_counters st st' /\ advanced st st' /\ g_trace st' = g_trace st /\
    ((queue_get w st = (Normal None, st') /\
      pending (g_shared st') (g_thread st') = pending (g_shared st) (g_thread st) /\
      log_queue (g_shared st') = []) \/
     (exists x,
        queue_get w st = (Normal (Some x), st') /\
        pending (g_shared st) (g_thread st) =
        x :: pending (g_shared st') (g_thread st'))).
Proof.
  destruct (tick_spec st) as (st1 & Ht & Htr & Hp & Hc & Ha).
  unfold queue_get. rewrite (bind_normal _ Ht).
  destruct (log_queue (g_shared st1)) as [|x q] eqn:Eq.
  - exists st1. repeat split; try apply Hc; auto.
  - eexists. split; [|split; [|split]]; cycle 3.
    + right. exists x. split; [reflexivity|].
      rewrite <- Hp. unfold pending. rewrite Eq. reflexivity.
    + exact Hc.
    + destruct Ha as [n Hn]. exists n. rewrite Hn. reflexivity.
    + exact Htr.
Qed.

(** The draining loop ends, having yielded a prefix of the pending
    entries. *)
Lemma drain_loop_spec f : forall st,
  List.length (pending (g_shared st) (g_thread st)) < f ->
  exists evs st',
    drain_loop w f st = (Normal tt, st') /\
    g_trace st' = (g_trace st ++ map yield_of evs)%list /\
    pending (g_shared st) (g_thread st) =
      (evs ++ pending (g_shared st') (g_thread st'))%list /\
    same_counters st st' /\ advanced st st'.
Proof.
  induction f as [|f IH]; intros st Hf; [lia|].
  simpl drain_loop.
  destruct (queue_get_spec st) as (st1 & Hc & Ha & Htr & [(Hq & Hp & _)|(x & Hq & Hp)]).
  - exists [], st1. rewrite (bind_normal _ Hq). simpl.
    rewrite app_nil_r. repeat split; try apply Hc; auto.
  - rewrite (bind_normal _ Hq). destruct x as [t m].
    unfold yield_event at 1.
    set (st2 := snd (emit (Yield (Data (event t m))) st1)).
    assert (He : emit (Yield (Data (event t m))) st1 = (Normal tt, st2))
      by reflexivity.
    rewrite (bind_normal _ He).
    destruct (IH st2) as (evs & st' & Hd & Htr' & Hp' & Hc' & Ha').
    { rewrite Hp in Hf. simpl in Hf. simpl. lia. }
    exists ((t, m) :: evs), st'. split; [exact Hd|].
    split.
    { rewrite Htr'. simpl. rewrite Htr, <- app_assoc. reflexivity. }
    split.
    { rewrite Hp. simpl. f_equal. exact Hp'. }
    split.
    { eapply same_counters_trans; [exact Hc|]. exact Hc'. }
    eapply advanced_trans; [exact Ha|]. exact Ha'.
Qed.

Lemma put_pairs_length ops : List.length (put_pairs ops) <= List.length ops.
Proof.
  unfold put_pairs. induction ops as [|op ops IH]; simpl; [lia|].
  rewrite length_app. destruct op; simpl; lia.
Qed.

Lemma drain_spec st :
  exists evs st',
    drain w st = (Normal tt, st') /\
    g_trace st' = (g_trace st ++ map yield_of evs)%list /\
    pending (g_shared st) (g_thread st) =
      (evs ++ pending (g_shared st') (g_thread st'))%list /\
    same_counters st st' /\ advanced st st'.
Proof.
  unfold drain. apply drain_loop_spec.
  unfold pending. rewrite length_app.
  pose proof (put_pairs_length (g_thread st)). lia.
Qed.

End GenFacts.

(* ===================================================================== *)
(** * What holds until the final status is reported *)
(* ===================================================================== *)

Lemma benign_calm x : benign x -> calm (yield_of x).
Proof. intros [H|H]; simpl; rewrite H; discriminate. Qed.

Section Invariant.

Variable w : World.

Lemma reach_advanced st st' : reach w st -> advanced st st' -> reach w st'.
Proof.
  intros [[H1 H2]|[n Hn]] [m Hm].
  - left. rewrite H1, run_holder_nil in Hm.
    injection Hm as <- <-. split; [reflexivity|exact H2].
  - right. exists (n + m). rewrite run_holder_add, Hn. exact Hm.
Qed.

Lemma Inv_step st st' tr :
  Inv w st ->
  same_counters st st' -> advanced st st' ->
  g_trace st' = (g_trace st ++ tr)%list -> Forall calm tr ->
  Forall benign (pending (g_shared st') (g_thread st')) ->
  Inv w st'.
Proof.
  intros (H1 & H2 & H3 & H4 & H5) (_ & _ & Hl & _ & Hc) Ha Ht Hcalm Hb.
  repeat split.
  - congruence.
  - congruence.
  - rewrite Ht. apply Forall_app. split; assumption.
  - exact Hb.
  - eapply reach_advanced; eassumption.
Qed.

Lemma keeps_emit a : calm a -> keeps (Inv w) (emit a).
Proof.
  intros Ha st H. simpl.
  apply Inv_step with (st := st) (tr := [a]); try exact H; simpl.
  - repeat split.
  - exists 0. reflexivity.
  - reflexivity.
  - constructor; [exact Ha|constructor].
  - apply H.
Qed.

Lemma keeps_yield_event t m : t <> EvComplete -> keeps (Inv w) (yield_event t m).
Proof. intros H. apply keeps_emit. exact H. Qed.

Lemma keeps_read_holder : keeps (Inv w) (read_holder w).
Proof.
  intros st H.
  destruct (read_holder_spec w st) as (st' & E & Ht & Hp & Hc & Ha).
  rewrite E. simpl.
  apply Inv_step with (st := st) (tr := []); try assumption.
  - rewrite app_nil_r. exact Ht.
  - constructor.
  - rewrite Hp. apply H.
Qed.

Lemma keeps_drain : keeps (Inv w) (drain w).
Proof.
  intros st H.
  destruct (drain_spec w st) as (evs & st' & E & Ht & Hp & Hc & Ha).
  rewrite E. simpl.
  assert (Hb : Forall benign (pending (g_shared st) (g_thread st))) by apply H.
  rewrite Hp in Hb. apply Forall_app in Hb. destruct Hb as [Hb1 Hb2].
  apply Inv_step with (st := st) (tr := map yield_of evs); try assumption.
  apply Forall_forall. intros a Hin. apply in_map_iff in Hin.
  destruct Hin as (x & <- & Hx). apply benign_calm.
  eapply Forall_forall in Hb1; eassumption.
Qed.

Lemma keeps_time_time : keeps (Inv w) (time_time w).
Proof. intros st H. exact H. Qed.

Lemma keeps_next_poll : keeps (Inv w) (next_poll w).
Proof. intros st H. exact H. Qed.

Lemma put_pairs_app a b : put_pairs (a ++ b) = (put_pairs a ++ put_pairs b)%list.
Proof. unfold put_pairs. apply flat_map_app. Qed.

Lemma run_command_async_benign b :
  Forall benign (put_pairs (run_command_async b)).
Proof.
  unfold run_command_async. rewrite put_pairs_app. apply Forall_app. split.
  - induction (read_lines b); simpl; constructor; auto. left. reflexivity.
  - destruct (p_end b); simpl;
      [constructor|constructor; [right; reflexivity|constructor]].
Qed.

Lemma keeps_start_thread cmd : keeps (Inv w) (start_thread w cmd).
Proof.
  intros st (H1 & H2 & H3 & H4 & H5). unfold start_thread, bind. simpl.
  repeat split; simpl; auto.
  - apply Forall_app. split; [exact H3|]. repeat constructor.
  - unfold pending in *. simpl. apply Forall_app in H4. destruct H4 as [H4 _].
    apply Forall_app. split; [exact H4|apply run_command_async_benign].
  - right. exists 0. reflexivity.
Qed.

Lemma keeps_execute_command_stream cmd :
  keeps (Inv w) (execute_command_stream w cmd).
Proof.
  intros st (H1 & H2 & H3 & H4 & H5).
  unfold execute_command_stream, bind. simpl.
  assert (I' : forall r, Inv w (snd (r : Res Result,
    {| g_trace := (g_trace st ++ [Exec cmd])%list;
       g_shared :=
         {| holder := holder (g_shared st);
            log_queue :=
              (log_queue (g_shared st) ++
               map (fun line => (EvOutput, rstrip line))
                 (read_lines (pre_proc w (g_pres st))))%list |};
       g_thread := g_thread st; g_ticks := g_ticks st;
       g_pres := S (g_pres st); g_polls := g_polls st;
       g_logs := g_logs st; g_clocks := g_clocks st;
       g_checked := g_checked st |}))).
  { intros r. simpl. repeat split; simpl; auto.
    - apply Forall_app. split; [exact H3|]. repeat constructor.
    - unfold pending in *. simpl. apply Forall_app in H4.
      destruct H4 as [H4 H4'].
      apply Forall_app. split; [|exact H4'].
      apply Forall_app. split; [exact H4|].
      apply Forall_forall. intros x Hx. apply in_map_iff in Hx.
      destruct Hx as (l & <- & _). left. reflexivity. }
  destruct (p_end (pre_proc w (g_pres st))); apply I'.
Qed.

Lemma keeps_poll_pod_status ns last : keeps (Inv w) (poll_pod_status w ns last).
Proof.
  unfold poll_pod_status.
  apply keeps_bind; [apply keeps_emit; exact I|intros _].
  apply keeps_bind; [apply keeps_next_poll|intros r].
  destruct r; [|apply keeps_ret].
  apply keeps_if; [|apply keeps_ret].
  apply keeps_bind; [apply keeps_yield_event; discriminate|intros _].
  apply keeps_bind; [|intros _; apply keeps_ret].
  apply keeps_for_each. intros line.
  apply keeps_if; [apply keeps_yield_event; discriminate|apply keeps_ret].
Qed.

Lemma keeps_monitor_loop fuel : forall ns start last polls iter,
  keeps (Inv w) (monitor_loop w fuel ns start last polls iter).
Proof.
  induction fuel as [|f IH]; intros ns start last polls iter; simpl.
  - apply keeps_out_of_fuel.
  - apply keeps_bind; [apply keeps_read_holder|intros h].
    apply keeps_if; [|apply keeps_ret].
    apply keeps_bind; [apply keeps_emit; exact I|intros _].
    apply keeps_bind; [apply keeps_drain|intros _].
    apply keeps_bind; [apply keeps_read_holder|intros h'].
    apply keeps_if; [apply keeps_ret|].
    apply keeps_bind; [apply keeps_poll_pod_status|intros last'].
    apply keeps_bind; [apply keeps_time_time|intros now].
    apply keeps_if.
    + apply keeps_bind; [apply keeps_yield_event; discriminate|intros _].
      apply keeps_ret.
    + apply keeps_bind; [apply keeps_emit; exact I|intros _]. apply IH.
Qed.

Lemma keeps_run_pre_commands cmds : keeps (Inv w) (run_pre_commands w cmds).
Proof.
  unfold run_pre_commands. apply keeps_for_each. intros [idx c].
  unfold pre_command_step.
  apply keeps_bind; [apply keeps_yield_event; discriminate|intros _].
  apply keeps_bind; [apply keeps_yield_event; discriminate|intros _].
  apply keeps_bind; [apply keeps_execute_command_stream|intros r].
  apply keeps_bind; [apply keeps_drain|intros _].
  apply keeps_if; [|apply keeps_ret].
  apply keeps_bind; [apply keeps_yield_event; discriminate|intros _].
  apply keeps_bind; [apply keeps_yield_event; discriminate|intros _].
  apply keeps_return.
Qed.

Lemma keeps_run_deployment fuel dt dc : keeps (Inv w) (run_deployment w fuel dt dc).
Proof.
  unfold run_deployment.
  apply keeps_bind; [apply keeps_yield_event; discriminate|intros _].
  apply keeps_bind; [apply keeps_run_pre_commands|intros _].
  apply keeps_bind; [apply keeps_yield_event; discriminate|intros _].
  apply keeps_bind; [apply keeps_yield_event; discriminate|intros _].
  apply keeps_bind; [apply keeps_start_thread|intros _].
  apply keeps_bind.
  { unfold monitor. apply keeps_bind; [apply keeps_time_time|intros t].
    apply keeps_monitor_loop. }
  intros _.
  apply keeps_bind; [apply keeps_emit; exact I|intros _].
  apply keeps_drain.
Qed.

Lemma Inv_initial : Inv w initial_state.
Proof.
  repeat split; simpl; try constructor. split; reflexivity.
Qed.

End Invariant.

(* ===================================================================== *)
(** * The final status report *)
(* ===================================================================== *)

Lemma emit_eq a st : emit a st = (Normal tt, add_trace [a] st).
Proof. reflexivity. Qed.

Lemma yield_event_eq t m st :
  yield_event t m st = (Normal tt, add_trace [Yield (Data (event t m))] st).
Proof. reflexivity. Qed.

Lemma after_logs_after_logs t1 n1 t2 n2 st :
  after_logs t2 n2 (after_logs t1 n1 st) = after_logs (t1 ++ t2) (n2 + n1) st.
Proof.
  unfold after_logs. simpl. f_equal.
  - symmetry. apply app_assoc.
  - lia.
Qed.

Lemma after_logs_nil st : after_logs [] 0 st = st.
Proof. destruct st. unfold after_logs. simpl. rewrite app_nil_r. reflexivity. Qed.

(** [for line in l: if line.strip(): yield ...] *)
Lemma for_each_yield_lines t l : forall st,
  for_each l
    (fun line => if truthy (strip line) then yield_event t line else ret tt) st =
  (Normal tt, add_trace (map (yield_line t) (filter nonblank l)) st).
Proof.
  induction l as [|x l IH]; intros st; simpl.
  - unfold add_trace. rewrite after_logs_nil. reflexivity.
  - unfold nonblank at 1. destruct (truthy (strip x)).
    + rewrite (bind_normal _ (yield_event_eq t x st)).
      rewrite IH. unfold add_trace. rewrite after_logs_after_logs. reflexivity.
    + unfold bind, ret. apply IH.
Qed.

Section Report.

Variable w : World.

Lemma report_log_source_spec v ls st :
  report_log_source w v ls st =
  (Normal tt, after_logs (log_source_trace v ls (log_proc w (g_logs st))) 1 st).
Proof.
  unfold report_log_source. fold (log_label ls). fold (log_command v ls).
  rewrite (bind_normal _ (yield_event_eq _ _ st)).
  rewrite (bind_normal _ (emit_eq _ _)).
  unfold next_log at 1. unfold bind at 1. cbn [g_logs add_trace after_logs].
  unfold log_source_trace.
  destruct (log_proc w (0 + (0 + g_logs st))) eqn:E;
    simpl in E; rewrite E.
  - rewrite for_each_yield_lines. unfold add_trace, after_logs. simpl.
    repeat rewrite <- app_assoc. reflexivity.
  - rewrite yield_event_eq. unfold add_trace, after_logs, log_failure. simpl.
    repeat rewrite <- app_assoc. reflexivity.
Qed.

(** Every source is reported, whatever the outcome of the others. *)
Lemma report_log_sources_spec v sources : forall st,
  for_each sources (report_log_source w v) st =
  (Normal tt,
   after_logs (logs_trace w v sources (g_logs st)) (List.length sources) st).
Proof.
  induction sources as [|ls rest IH]; intros st; simpl.
  - rewrite after_logs_nil. reflexivity.
  - rewrite (bind_normal _ (report_log_source_spec v ls st)).
    rewrite IH. rewrite after_logs_after_logs. simpl.
    f_equal. f_equal. lia.
Qed.

(** The report: the cell is read, then either the success part with every
    log source and ['complete'], or the failure part. *)
Lemma report_final_status_spec v sources st1 :
  exists st2 st,
    report_final_status w v sources st1 = (Normal tt, st) /\
    advanced st1 st2 /\
    g_checked st = Some (returncode (holder (g_shared st2))) /\
    ((returncode (holder (g_shared st2)) = Some 0%Z /\
      g_trace st =
        (g_trace st1 ++ success_header ++
         logs_trace w v sources (g_logs st1) ++
         [Yield (Data complete_event)])%list) \/
     (returncode (holder (g_shared st2)) <> Some 0%Z /\
      exists st3 st4,
        advanced st2 st3 /\ advanced st3 st4 /\
        g_trace st =
          (g_trace st1 ++
           failure_event (returncode (holder (g_shared st4))) ::
           map (yield_line EvError)
             (shown_lines (stdout (holder (g_shared st3)))))%list)).
Proof.
  destruct (read_holder_spec w st1) as (st2 & E2 & Ht2 & _ & Hc2 & Ha2).
  exists st2. unfold report_final_status.
  rewrite (bind_normal _ E2).
  unfold record_check at 1. unfold bind at 1.
  set (st2' := {| g_trace := g_trace st2; g_shared := g_shared st2;
                  g_thread := g_thread st2; g_ticks := g_ticks st2;
                  g_pres := g_pres st2; g_polls := g_polls st2;
                  g_logs := g_logs st2; g_clocks := g_clocks st2;
                  g_checked := Some (returncode (holder (g_shared st2))) |}).
  destruct (is_zero (returncode (holder (g_shared st2)))) eqn:Ez.
  - assert (Hrc : returncode (holder (g_shared st2)) = Some 0%Z).
    { destruct (returncode (holder (g_shared st2))) as [z|]; simpl in Ez;
        [|discriminate]. apply Z.eqb_eq in Ez. congruence. }
    rewrite (bind_normal _ (yield_event_eq _ _ _)).
    rewrite (bind_normal _ (yield_event_eq _ _ _)).
    rewrite (bind_normal _ (report_log_sources_spec v sources _)).
    rewrite emit_eq. eexists. split; [reflexivity|].
    split; [exact Ha2|]. split; [reflexivity|]. left.
    split; [exact Hrc|]. simpl. rewrite Ht2.
    destruct Hc2 as (_ & _ & Hl & _). rewrite Hl.
    repeat rewrite <- app_assoc. reflexivity.
  - assert (Hrc : returncode (holder (g_shared st2)) <> Some 0%Z).
    { intros H. rewrite H in Ez. discriminate. }
    destruct (read_holder_spec w st2') as (st3 & E3 & Ht3 & _ & Hc3 & Ha3).
    rewrite (bind_normal _ E3).
    destruct (read_holder_spec w st3) as (st4 & E4 & Ht4 & _ & Hc4 & Ha4).
    rewrite (bind_normal _ E4).
    rewrite (bind_normal _ (yield_event_eq _ _ _)).
    assert (Hshow :
      (if truthy (stdout (holder (g_shared st3)))
       then for_each (lastn 20 (split_nl (stdout (holder (g_shared st3)))))
              (fun line => if truthy (strip line)
                           then yield_event EvError line else ret tt)
       else ret tt)
        (add_trace [failure_event (returncode (holder (g_shared st4)))] st4) =
      (Normal tt,
       add_trace (map (yield_line EvError)
                    (shown_lines (stdout (holder (g_shared st3)))))
         (add_trace [failure_event (returncode (holder (g_shared st4)))] st4))).
    { destruct (stdout (holder (g_shared st3))) eqn:Es.
      - change (shown_lines "") with (@nil string).
        cbn [truthy is_empty negb map].
        unfold add_trace. rewrite (after_logs_nil (after_logs _ 0 st4)).
        reflexivity.
      - cbn [truthy is_empty negb]. rewrite for_each_yield_lines. reflexivity. }
    unfold failure_event in Hshow. rewrite Hshow.
    eexists. split; [reflexivity|].
    split; [exact Ha2|]. split.
    { simpl. destruct Hc4 as (_ & _ & _ & _ & H4).
      destruct Hc3 as (_ & _ & _ & _ & H3). rewrite H4, H3. reflexivity. }
    right. split; [exact Hrc|]. exists st3, st4.
    split; [exact Ha3|]. split; [exact Ha4|].
    simpl. rewrite Ht4, Ht3. simpl. rewrite Ht2.
    rewrite <- app_assoc. reflexivity.
Qed.

End Report.

(* ===================================================================== *)
(** * The shape of every run of [deploy_stream] *)
(* ===================================================================== *)

Lemma calm_not_complete a : calm a -> not_complete a.
Proof. destruct a as [[e|]| | | | | |]; simpl; auto. Qed.

Lemma events_app a b : events (a ++ b) = (events a ++ events b)%list.
Proof. apply flat_map_app. Qed.

Lemma frames_app a b : frames (a ++ b) = (frames a ++ frames b)%list.
Proof. apply flat_map_app. Qed.

Lemma no_complete_events tr :
  Forall not_complete tr -> ~ Exists is_complete (events tr).
Proof.
  induction 1 as [|a tr Ha _ IH]; simpl.
  - intros H. inversion H.
  - destruct a as [[e|]| | | | | |]; simpl; try exact IH.
    intros H. inversion H; subst; [contradiction|]. apply IH. assumption.
Qed.

Lemma yield_lines_not_complete t l :
  t <> EvComplete -> Forall not_complete (map (yield_line t) l).
Proof. intros Ht. induction l; simpl; constructor; auto. Qed.

Lemma logs_trace_not_complete w v sources : forall k,
  Forall not_complete (logs_trace w v sources k).
Proof.
  induction sources as [|ls rest IH]; intros k; simpl; [constructor|].
  constructor; [simpl; discriminate|].
  constructor; [exact I|].
  apply Forall_app. split; [|apply IH].
  destruct (log_proc w k).
  - apply yield_lines_not_complete. discriminate.
  - constructor; [simpl; discriminate|constructor].
Qed.





Section StreamCases.

Variable w : World.

(** The cell of a started or not yet started runner. *)
Lemma reach_holder st :
  reach w st ->
  let h := holder (g_shared st) in
  returncode h = None \/
  (returncode h = Some (exit_code (main_proc w)) /\
   (stdout h = "" \/ stdout h = captured (main_proc w))).
Proof.
  intros [[_ H]|[n Hn]]; cbv zeta.
  - rewrite H. left. reflexivity.
  - pose proof (runner_phases (main_proc w) [] n) as Hp. cbv zeta in Hp.
    unfold runner_after in Hp.
    destruct (run_thread_holder n (run_command_async (main_proc w))
                {| holder := initial_holder; log_queue := [] |}) as [_ H2].
    simpl in H2. rewrite Hn in H2. simpl in H2. rewrite H2 in Hp.
    destruct Hp as [(_ & Hh & _)|[(_ & _ & Hh)|[(_ & _ & Hh)|(_ & Hh)]]];
      rewrite Hh; simpl; auto.
Qed.



Lemma generate_body_cases fuel e c req :
  let r := generate_body w fuel e c req initial_state in
  (Inv w (snd r) /\ fst r <> Normal tt) \/
  (exists dt dc st1,
     active_deployment e c = Some (dt, dc) /\ Inv w st1 /\
     report_final_status w (version_env req dc) (dc_log_sources dc) st1 = r).
Proof.
  cbv zeta. unfold generate_body.
  destruct (negb (truthy (get_default (apiKey req) ""))).
  - left. split; [|simpl; discriminate].
    apply keeps_bind; [apply keeps_yield_event; discriminate| |apply Inv_initial].
    intros _. apply keeps_return.
  - destruct (active_deployment e c) as [[dt dc]|].
    + pose proof (keeps_run_deployment w fuel dt dc initial_state
                    (Inv_initial w)) as HI.
      unfold bind.
      destruct (run_deployment w fuel dt dc initial_state) as [[[]| |x|] st1];
        simpl in HI.
      * right. exists dt, dc, st1. auto.
      * left. split; [exact HI|discriminate].
      * left. split; [exact HI|discriminate].
      * left. split; [exact HI|discriminate].
    + left. split; [|simpl; discriminate].
      apply keeps_bind; [apply keeps_yield_event; discriminate| |apply Inv_initial].
      intros _. apply keeps_return.
Qed.

(** A run ends before the final status test, with nothing of the report
    in its trace, or it goes through the report from a state [st1]. *)
Lemma stream_cases fuel e c req :
  let r := deploy_stream w fuel e c req in
  Inv w (snd r) \/
  (exists dt dc st1,
     active_deployment e c = Some (dt, dc) /\ Inv w st1 /\
     report_final_status w (version_env req dc) (dc_log_sources dc) st1 = r).
Proof.
  cbv zeta. unfold deploy_stream, generate.
  destruct (generate_body_cases fuel e c req) as [[HI Hn]|(dt & dc & st1 & Ha & HI & Hr)];
    cbv zeta in *.
  - destruct (generate_body w fuel e c req initial_state) as [[[]| |x|] st0];
      simpl in *; auto.
    left. apply (keeps_yield_event w EvError ("Error: " ++ x));
      [discriminate|exact HI].
  - right. exists dt, dc, st1. split; [exact Ha|]. split; [exact HI|].
    rewrite <- Hr.
    destruct (report_final_status_spec w (version_env req dc)
                (dc_log_sources dc) st1) as (st2 & st & E & _).
    rewrite E. reflexivity.
Qed.

End StreamCases.

(* ===================================================================== *)
(** * Terminal events of the stream *)
(* ===================================================================== *)

(** A ['complete'] event is emitted if and only if the final status test
    has read the exit code 0; it is then the last frame, the only
    ['complete'] event, and the ['success'] event comes before it. *)
Lemma complete_iff_checked :
  forall (w : World) (fuel : nat) (env_deploy_type : option string)
         (config : Config) (req : DeploymentRequest),
    let st := snd (deploy_stream w fuel env_deploy_type config req) in
    (Exists is_complete (events (g_trace st)) <->
     g_checked st = Some (Some 0%Z)) /\
    (Exists is_complete (events (g_trace st)) ->
     (exists fs, frames (g_trace st) = (fs ++ [Data complete_event])%list) /\
     (exists before between,
        events (g_trace st) =
          (before ++ success_event :: between ++ [complete_event])%list /\
        ~ Exists is_complete (before ++ success_event :: between))).
Proof.
  intros w fuel e c req st.
  assert (Hno : forall st0, Inv w st0 -> ~ Exists is_complete (events (g_trace st0))).
  { intros st0 (_ & _ & Hc & _). apply no_complete_events.
    eapply Forall_impl; [|exact Hc]. apply calm_not_complete. }
  destruct (stream_cases w fuel e c req) as [HI|(dt & dc & st1 & Ha & HI & Hr)];
    cbv zeta in *; fold st in HI || fold st in Hr.
  - pose proof (Hno st HI) as Hn.
    assert (Hc : g_checked st = None) by apply HI.
    split.
    + split; [intros H; contradiction|intros H; congruence].
    + intros H; contradiction.
  - destruct (report_final_status_spec w (version_env req dc)
                (dc_log_sources dc) st1)
      as (st2 & st' & E & _ & Hchk & [[Hrc Htr]|[Hrc (st3 & st4 & _ & _ & Htr)]]).
    + assert (Est : st = st').
      { unfold st. rewrite <- Hr, E. reflexivity. }
      rewrite Est. clear Est.
      assert (Hl0 : g_logs st1 = 0) by apply HI. rewrite Hl0 in Htr.
      assert (Hev : events (g_trace st') =
                    (events (g_trace st1) ++ success_event ::
                     (event EvSection "Final Status" ::
                      events (logs_trace w (version_env req dc)
                                (dc_log_sources dc) 0)) ++ [complete_event])%list).
      { rewrite Htr. repeat rewrite events_app. reflexivity. }
      assert (Hex : Exists is_complete (events (g_trace st'))).
      { rewrite Hev. apply Exists_app. right. apply Exists_cons_tl.
        apply Exists_app. right. constructor. reflexivity. }
      split.
      * split; [intros _; rewrite Hchk, Hrc; reflexivity|intros _; exact Hex].
      * intros _. split.
        -- exists (frames (g_trace st1 ++ success_header ++
                     logs_trace w (version_env req dc) (dc_log_sources dc) 0)).
           rewrite Htr. repeat rewrite app_assoc. rewrite frames_app.
           repeat rewrite <- app_assoc. reflexivity.
        -- exists (events (g_trace st1)).
           eexists. split; [exact Hev|].
           intros H. apply Exists_app in H. destruct H as [H|H].
           ++ exact (Hno st1 HI H).
           ++ inversion H as [? ? H0|? ? H0]; subst; [discriminate H0|].
              inversion H0 as [? ? H1|? ? H1]; subst; [discriminate H1|].
              revert H1. apply no_complete_events. apply logs_trace_not_complete.
    + assert (Est : st = st').
      { unfold st. rewrite <- Hr, E. reflexivity. }
      rewrite Est. clear Est.
      assert (Hn : ~ Exists is_complete (events (g_trace st'))).
      { rewrite Htr. apply no_complete_events. apply Forall_app. split.
        - destruct HI as (_ & _ & Hc & _).
          eapply Forall_impl; [|exact Hc]. apply calm_not_complete.
        - constructor; [simpl; discriminate|].
          apply yield_lines_not_complete. discriminate. }
      split.
      * split; [intros H; contradiction|].
        intros H. rewrite Hchk in H. injection H as H. contradiction.
      * intros H; contradiction.
Qed.

Lemma logs_run_app a b : logs_run (a ++ b) = (logs_run a ++ logs_run b)%list.
Proof. apply flat_map_app. Qed.

Lemma logs_run_calm tr : Forall calm tr -> logs_run tr = [].
Proof.
  induction 1 as [|a tr Ha _ IH]; [reflexivity|].
  destruct a; simpl in *; try exact IH. contradiction.
Qed.

Lemma logs_run_yield_lines t l : logs_run (map (yield_line t) l) = [].
Proof. induction l; simpl; auto. Qed.

Lemma logs_run_logs_trace w v sources : forall k,
  logs_run (logs_trace w v sources k) = map (log_command v) sources.
Proof.
  induction sources as [|ls rest IH]; intros k; [reflexivity|].
  simpl. f_equal. rewrite logs_run_app, IH.
  destruct (log_proc w k); simpl; [rewrite logs_run_yield_lines|]; reflexivity.
Qed.

Lemma logs_trace_split w v sources : forall k i ls,
  nth_error sources i = Some ls ->
  logs_trace w v sources k =
  (logs_trace w v (firstn i sources) k ++
   log_source_trace v ls (log_proc w (k + i)) ++
   logs_trace w v (skipn (S i) sources) (S (k + i)))%list.
Proof.
  induction sources as [|x rest IH]; intros k i ls Hn.
  - destruct i; discriminate.
  - destruct i as [|i]; simpl in Hn.
    + injection Hn as ->. rewrite Nat.add_0_r. reflexivity.
    + simpl. rewrite (IH (S k) i ls Hn). rewrite <- app_assoc.
      replace (S k + i) with (k + S i) by lia. reflexivity.
Qed.

(** C8 (amended). After a successful main command, every configured log
    source is reported in order, whatever happens to the others: all their
    commands are run and the ['complete'] event comes last.  A source is
    reported as failed exactly when running its command raises (it cannot
    be spawned, or its 30 seconds pass): it then gets an ['error'] event
    naming its label right after its header, with the reports of the other
    sources before and after it.  The exit code of a log command is never
    looked at: a command that ends, with whatever code, gets its header
    followed by one ['log'] event for each non-blank line of its standard
    output, and no ['error'] event. *)
Theorem C8_log_source_failure_is_local :
  forall (w : World) (fuel : nat) (env_deploy_type : option string)
         (config : Config) (req : DeploymentRequest),
    let st := snd (deploy_stream w fuel env_deploy_type config req) in
    g_checked st = Some (Some 0%Z) ->
    exists deploy_type dc before,
      active_deployment env_deploy_type config = Some (deploy_type, dc) /\
      let v := version_env req dc in
      let sources := dc_log_sources dc in
      g_trace st =
        (before ++ logs_trace w v sources 0 ++
         [Yield (Data complete_event)])%list /\
      logs_run (g_trace st) = map (log_command v) sources /\
      (forall i ls e,
         nth_error sources i = Some ls ->
         log_proc w i = LogFails e ->
         exists l1 l2,
           g_trace st =
           (l1 ++ [Yield (Data (event EvInfo ("--- " ++ log_label ls ++ " ---")));
                   RunLog (log_command v ls); log_failure ls e] ++ l2 ++
            [Yield (Data complete_event)])%list /\
           logs_run l1 = map (log_command v) (firstn i sources) /\
           logs_run l2 = map (log_command v) (skipn (S i) sources)) /\
      (forall i ls rc out,
         nth_error sources i = Some ls ->
         log_proc w i = LogOut rc out ->
         exists l1 l2,
           g_trace st =
           (l1 ++ ([Yield (Data (event EvInfo ("--- " ++ log_label ls ++ " ---")));
                    RunLog (log_command v ls)] ++
                   map (yield_line EvLog)
                     (filter nonblank (split_nl (strip out)))) ++ l2 ++
            [Yield (Data complete_event)])%list /\
           logs_run l1 = map (log_command v) (firstn i sources) /\
           logs_run l2 = map (log_command v) (skipn (S i) sources)).
Proof.
  intros w fuel e c req st Hchk.
  destruct (stream_cases w fuel e c req) as [HI|(dt & dc & st1 & Ha & HI & Hr)];
    cbv zeta in *; fold st in HI || fold st in Hr.
  - destruct HI as (H & _). rewrite H in Hchk. discriminate.
  - destruct (report_final_status_spec w (version_env req dc)
                (dc_log_sources dc) st1)
      as (st2 & st' & E & Ha2 & Hchk' & Hcases).
    assert (Est : st = st') by (unfold st; rewrite <- Hr, E; reflexivity).
    rewrite Est in *. clear Est.
    destruct Hcases as [[Hz Htr]|[Hnz _]];
      [|rewrite Hchk' in Hchk; injection Hchk as Hz; contradiction].
    assert (Hl0 : g_logs st1 = 0) by apply HI. rewrite Hl0 in Htr.
    assert (Hb : logs_run (g_trace st1 ++ success_header) = []).
    { rewrite logs_run_app, (logs_run_calm (g_trace st1)); [reflexivity|apply HI]. }
    rewrite app_assoc in Htr.
    exists dt, dc, (g_trace st1 ++ success_header)%list.
    split; [exact Ha|]. split; [exact Htr|]. split.
    { rewrite Htr. rewrite logs_run_app, Hb, logs_run_app.
      rewrite logs_run_logs_trace. simpl. apply app_nil_r. }
    split.
    + intros i ls err Hn Hf.
      rewrite (logs_trace_split w (version_env req dc) (dc_log_sources dc) 0 i ls Hn)
        in Htr.
      simpl plus in Htr. rewrite Hf in Htr.
      exists ((g_trace st1 ++ success_header) ++
              logs_trace w (version_env req dc) (firstn i (dc_log_sources dc)) 0)%list,
             (logs_trace w (version_env req dc) (skipn (S i) (dc_log_sources dc)) (S i)).
      split.
      { rewrite Htr. unfold log_source_trace.
        repeat rewrite <- app_assoc. reflexivity. }
      split.
      { rewrite logs_run_app, Hb, logs_run_logs_trace. reflexivity. }
      apply logs_run_logs_trace.
    + intros i ls rc out Hn Hf.
      rewrite (logs_trace_split w (version_env req dc) (dc_log_sources dc) 0 i ls Hn)
        in Htr.
      simpl plus in Htr. rewrite Hf in Htr.
      exists ((g_trace st1 ++ success_header) ++
              logs_trace w (version_env req dc) (firstn i (dc_log_sources dc)) 0)%list,
             (logs_trace w (version_env req dc) (skipn (S i) (dc_log_sources dc)) (S i)).
      split.
      { rewrite Htr. unfold log_source_trace.
        repeat rewrite <- app_assoc. reflexivity. }
      split.
      { rewrite logs_run_app, Hb, logs_run_logs_trace. reflexivity. }
      apply logs_run_logs_trace.
Qed.

Lemma C8_log_source_failure_witness :
  let w := finishing_world [] 0 (fun k => Nat.eqb k 1) in
  let sources :=
    [ {| ls_command := Some "kubectl get pods"; ls_label := Some "Pods" |};
      {| ls_command := Some "helm status x"; ls_label := Some "Release" |};
      {| ls_command := Some "kubectl get svc"; ls_label := None |} ] in
  let config := sample_config [] "helm install" sources in
  let st := snd (deploy_stream w 5 None config (sample_request "k")) in
  g_checked st = Some (Some 0%Z) /\
  exists deploy_type dc before,
    active_deployment None config = Some (deploy_type, dc) /\
    let v := version_env (sample_request "k") dc in
    let sources := dc_log_sources dc in
    g_trace st =
      (before ++ logs_trace w v sources 0 ++
       [Yield (Data complete_event)])%list /\
    logs_run (g_trace st) = map (log_command v) sources /\
    (forall i ls e,
       nth_error sources i = Some ls ->
       log_proc w i = LogFails e ->
       exists l1 l2,
         g_trace st =
         (l1 ++ [Yield (Data (event EvInfo ("--- " ++ log_label ls ++ " ---")));
                 RunLog (log_command v ls); log_failure ls e] ++ l2 ++
          [Yield (Data complete_event)])%list /\
         logs_run l1 = map (log_command v) (firstn i sources) /\
         logs_run l2 = map (log_command v) (skipn (S i) sources)) /\
    (forall i ls rc out,
       nth_error sources i = Some ls ->
       log_proc w i = LogOut rc out ->
       exists l1 l2,
         g_trace st =
         (l1 ++ ([Yield (Data (event EvInfo ("--- " ++ log_label ls ++ " ---")));
                  RunLog (log_command v ls)] ++
                 map (yield_line EvLog)
                   (filter nonblank (split_nl (strip out)))) ++ l2 ++
          [Yield (Data complete_event)])%list /\
         logs_run l1 = map (log_command v) (firstn i sources) /\
         logs_run l2 = map (log_command v) (skipn (S i) sources)).
Proof.
  intros w sources config st.
  assert (H : g_checked st = Some (Some 0%Z)) by (vm_compute; reflexivity).
  split; [exact H|].
  exact (C8_log_source_failure_is_local w 5 None config (sample_request "k") H).
Defined.

(** C8, as stated, fails: a log command that exits with a nonzero code has
    failed, and the stream has no ['error'] event for it; its header is
    followed by the ['complete'] event. *)
Lemma C8_counterexample_nonzero_exit :
  let sources :=
    [ {| ls_command := Some "kubectl get pods"; ls_label := Some "Pods" |} ] in
  let st := snd (deploy_stream nonzero_log_world 5 None
                   (sample_config [] "helm install" sources)
                   (sample_request "k")) in
  log_proc nonzero_log_world 0 = LogOut 1 "" /\
  logs_run (g_trace st) = ["kubectl get pods"] /\
  filter (has_type EvError) (events (g_trace st)) = [] /\
  events (g_trace st) =
    [ event EvStart "Starting helm deployment...";
      event EvSection "Main Deployment";
      event EvCommand "helm install";
      event EvSuccess "Helm install command completed successfully!";
      event EvSection "Final Status";
      event EvInfo "--- Pods ---";
      complete_event ].
Proof.
  intros sources st. repeat split; vm_compute; reflexivity.
Qed.

(* ===================================================================== *)
(** * Input validation *)
(* ===================================================================== *)

(** C7. A request whose credential is missing or empty is rejected before
    any process is spawned: the streaming endpoint yields the single frame
    ['error', 'API key is required'] and returns, the other endpoint answers
    400 with that error, and neither runs a command. *)
Theorem C7_missing_credential_rejected :
  forall (w : World) (fuel : nat) (env_deploy_type env_dry_run : option string)
         (config : Config) (req : DeploymentRequest),
    apiKey req = None \/ apiKey req = Some "" ->
    let r := deploy_stream w fuel env_deploy_type config req in
    fst r = Returned /\
    g_trace (snd r) = [Yield (Data (event EvError "API key is required"))] /\
    existsb spawns (g_trace (snd r)) = false /\
    deploy w env_deploy_type env_dry_run config req =
      ({| body := ErrorBody "API key is required" None; status := 400 |}, []).
Proof.
  intros w fuel e de c req H r. unfold r, deploy_stream, generate, generate_body, deploy.
  destruct H as [H|H]; rewrite H; simpl; repeat split; reflexivity.
Qed.

Lemma C7_missing_credential_witness :
  let req := {| apiKey := Some ""; version := None; dryRun := true |} in
  let config := sample_config ["helm fetch"] "helm install" [] in
  (apiKey req = None \/ apiKey req = Some "") /\
  let r := deploy_stream idle_world 3 None config req in
  fst r = Returned /\
  g_trace (snd r) = [Yield (Data (event EvError "API key is required"))] /\
  existsb spawns (g_trace (snd r)) = false /\
  deploy idle_world None None config req =
    ({| body := ErrorBody "API key is required" None; status := 400 |}, []).
Proof.
  intros req config.
  assert (H : apiKey req = None \/ apiKey req = Some "") by (right; reflexivity).
  split; [exact H|].
  exact (C7_missing_credential_rejected idle_world 3 None None config req H).
Defined.

(* ===================================================================== *)
(** * Pre-commands *)
(* ===================================================================== *)

Lemma executed_app a b : executed (a ++ b) = (executed a ++ executed b)%list.
Proof. apply flat_map_app. Qed.

Lemma executed_yields evs : executed (map yield_of evs) = [].
Proof. induction evs; simpl; auto. Qed.

Lemma no_main_yields evs : Forall no_main (map yield_of evs).
Proof. induction evs; simpl; constructor; simpl; auto. Qed.

Section PreCommands.

Variable w : World.

Lemma execute_command_stream_exit cmd st rc :
  p_end (pre_proc w (g_pres st)) = Exit rc ->
  execute_command_stream w cmd st =
  (Normal {| r_returncode := rc;
             r_stdout := join (read_lines (pre_proc w (g_pres st)));
             r_stderr := "" |}, after_exec w cmd st).
Proof.
  intros H. unfold execute_command_stream, bind. simpl. rewrite H. reflexivity.
Qed.

(** One pre-command: the command is run and its queued output is sent;
    with a nonzero exit code the two error frames follow and the
    generator returns. *)
Lemma pre_command_step_spec n idx cmd st rc :
  p_end (pre_proc w (g_pres st)) = Exit rc ->
  exists tr st',
    executed tr = [cmd] /\ Forall no_main tr /\
    g_pres st' = S (g_pres st) /\
    if (rc =? 0)%Z
    then pre_command_step w n (idx, cmd) st = (Normal tt, st') /\
         g_trace st' = (g_trace st ++ tr)%list
    else pre_command_step w n (idx, cmd) st = (Returned, st') /\
         g_trace st' =
           (g_trace st ++ tr ++
            [pre_failed_event rc;
             Yield (Data (event EvError
                            (join (read_lines (pre_proc w (g_pres st))))))])%list.
Proof.
  intros Hend. unfold pre_command_step.
  rewrite (bind_normal _ (yield_event_eq _ _ _)).
  rewrite (bind_normal _ (yield_event_eq _ _ _)).
  assert (Hend' : p_end (pre_proc w (g_pres
            (add_trace [Yield (Data (event EvCommand cmd))]
               (add_trace [Yield (Data (event EvSection
                  ("Pre-command " ++ str_of_Z (Z.of_nat idx) ++ "/" ++
                   str_of_Z (Z.of_nat n))))] st)))) = Exit rc) by exact Hend.
  rewrite (bind_normal _ (execute_command_stream_exit cmd _ rc Hend')).
  match goal with
  | |- context [bind (drain w) ?k ?s] => set (st1 := s)
  end.
  destruct (drain_spec w st1) as (evs & st2 & Ed & Ht & _ & Hc & _).
  rewrite (bind_normal _ Ed). cbn [r_returncode r_stdout].
  exists ([Yield (Data (event EvSection
               ("Pre-command " ++ str_of_Z (Z.of_nat idx) ++ "/" ++
                str_of_Z (Z.of_nat n))));
           Yield (Data (event EvCommand cmd)); Exec cmd] ++ map yield_of evs)%list.
  assert (Hex : executed
            ([Yield (Data (event EvSection
                 ("Pre-command " ++ str_of_Z (Z.of_nat idx) ++ "/" ++
                  str_of_Z (Z.of_nat n))));
              Yield (Data (event EvCommand cmd)); Exec cmd] ++ map yield_of evs)
            = [cmd]).
  { rewrite executed_app, executed_yields. reflexivity. }
  assert (Hnm : Forall no_main
            ([Yield (Data (event EvSection
                 ("Pre-command " ++ str_of_Z (Z.of_nat idx) ++ "/" ++
                  str_of_Z (Z.of_nat n))));
              Yield (Data (event EvCommand cmd)); Exec cmd] ++ map yield_of evs)).
  { apply Forall_app. split; [repeat constructor|apply no_main_yields]. }
  assert (Hp : g_pres st2 = S (g_pres st)) by (destruct Hc as (H & _); exact H).
  assert (Ht2 : g_trace st2 =
            (g_trace st ++
             [Yield (Data (event EvSection
                 ("Pre-command " ++ str_of_Z (Z.of_nat idx) ++ "/" ++
                  str_of_Z (Z.of_nat n))));
              Yield (Data (event EvCommand cmd)); Exec cmd] ++ map yield_of evs)%list).
  { rewrite Ht. unfold st1. simpl. repeat rewrite <- app_assoc. reflexivity. }
  destruct (rc =? 0)%Z; cbn [negb].
  - exists st2. repeat split; assumption.
  - rewrite (bind_normal _ (yield_event_eq _ _ _)).
    rewrite (bind_normal _ (yield_event_eq _ _ _)).
    eexists. split; [exact Hex|]. split; [exact Hnm|].
    split; [|split; [reflexivity|]].
    + simpl. exact Hp.
    + simpl. rewrite Ht2. unfold pre_failed_event.
      repeat rewrite <- app_assoc. reflexivity.
Qed.

(** The loop stops at the first pre-command that fails. *)
Lemma pre_commands_abort n rc : forall i cmds idxs st,
  List.length idxs = List.length cmds ->
  i < List.length cmds ->
  (forall j, j < i -> p_end (pre_proc w (g_pres st + j)) = Exit 0) ->
  p_end (pre_proc w (g_pres st + i)) = Exit rc ->
  rc <> 0%Z ->
  exists tr st',
    for_each (combine idxs cmds) (pre_command_step w n) st = (Returned, st') /\
    executed tr = firstn (S i) cmds /\ Forall no_main tr /\
    g_trace st' =
      (g_trace st ++ tr ++
       [pre_failed_event rc;
        Yield (Data (event EvError
                       (join (read_lines (pre_proc w (g_pres st + i))))))])%list.
Proof.
  induction i as [|i IH]; intros cmds idxs st Hlen Hi Hok Hbad Hrc.
  - destruct cmds as [|cmd rest]; [simpl in Hi; lia|].
    destruct idxs as [|idx idxs]; [discriminate|].
    rewrite Nat.add_0_r in *.
    destruct (pre_command_step_spec n idx cmd st rc Hbad)
      as (tr & st' & Hex & Hnm & _ & H).
    apply Z.eqb_neq in Hrc. rewrite Hrc in H. destruct H as [E Ht].
    exists tr, st'. cbn [combine for_each]. unfold bind at 1. rewrite E.
    repeat split; assumption.
  - destruct cmds as [|cmd rest]; [simpl in Hi; lia|].
    destruct idxs as [|idx idxs]; [discriminate|].
    assert (H0 : p_end (pre_proc w (g_pres st)) = Exit 0).
    { rewrite <- (Nat.add_0_r (g_pres st)). apply Hok. lia. }
    destruct (pre_command_step_spec n idx cmd st 0%Z H0)
      as (tr & st1 & Hex & Hnm & Hp & H).
    simpl in H. destruct H as [E Ht].
    destruct (IH rest idxs st1) as (tr' & st' & E' & Hex' & Hnm' & Ht').
    + simpl in Hlen. lia.
    + simpl in Hi. lia.
    + intros j Hj. rewrite Hp. replace (S (g_pres st) + j) with (g_pres st + S j) by lia.
      apply Hok. lia.
    + rewrite Hp. replace (S (g_pres st) + i) with (g_pres st + S i) by lia.
      exact Hbad.
    + exact Hrc.
    + exists (tr ++ tr')%list, st'. cbn [combine for_each].
      rewrite (bind_normal _ E). split; [exact E'|].
      split; [rewrite executed_app, Hex, Hex'; reflexivity|].
      split; [apply Forall_app; split; assumption|].
      rewrite Ht', Ht, Hp.
      replace (S (g_pres st) + i) with (g_pres st + S i) by lia.
      repeat rewrite <- app_assoc. reflexivity.
Qed.

Lemma deploy_pre_commands_abort rc out err : forall i cmds k outputs tr,
  i < List.length cmds ->
  (forall j, j < i -> exists o e, sync_proc w (k + j) = Completed 0 o e) ->
  sync_proc w (k + i) = Completed rc out err ->
  rc <> 0%Z ->
  exists resp,
    deploy_pre_commands w k cmds outputs tr =
      (inl resp, (tr ++ map Exec (firstn (S i) cmds))%list) /\
    status resp = 500 /\
    exists o, body resp = ErrorBody ("Pre-command failed: " ++ err) (Some o).
Proof.
  induction i as [|i IH]; intros cmds k outputs tr Hi Hok Hbad Hrc.
  - destruct cmds as [|cmd rest]; [simpl in Hi; lia|].
    rewrite Nat.add_0_r in Hbad. simpl. rewrite Hbad.
    apply Z.eqb_neq in Hrc. rewrite Hrc. simpl.
    eexists. split; [reflexivity|]. split; [reflexivity|]. eexists. reflexivity.
  - destruct cmds as [|cmd rest]; [simpl in Hi; lia|].
    destruct (Hok 0) as (o & e & H0); [lia|].
    rewrite Nat.add_0_r in H0.
    simpl deploy_pre_commands. rewrite H0. simpl negb. cbv iota.
    destruct (IH rest (S k) (app outputs [("Pre-command output: " ++ o)%string])
                (tr ++ [Exec cmd])%list) as (resp & E & Hs & Hb).
    + simpl in Hi. lia.
    + intros j Hj. replace (S k + j) with (k + S j) by lia. apply Hok. lia.
    + replace (S k + i) with (k + S i) by lia. exact Hbad.
    + exact Hrc.
    + exists resp. split; [|split; assumption].
      refine (eq_trans E _). rewrite <- app_assoc. reflexivity.
Qed.

End PreCommands.

(** C1. When a pre-command exits with a nonzero code (those before it
    having exited with 0), the streaming endpoint yields an ['error'] event
    carrying the exit code, then an ['error'] event carrying the captured
    output, and returns: the commands executed are exactly the pre-commands
    up to the failing one, and the main command is never started.  The
    non-streaming endpoint answers 500 after executing the same commands
    and no other. *)
Theorem C1_failed_pre_command_aborts :
  forall (w : World) (fuel : nat) (env_deploy_type env_dry_run : option string)
         (config : Config) (req : DeploymentRequest)
         (deploy_type : string) (dc : DeploymentConfig)
         (i : nat) (rc : Z) (out err : string),
    truthy (get_default (apiKey req) "") = true ->
    active_deployment env_deploy_type config = Some (deploy_type, dc) ->
    i < List.length (dc_pre_commands dc) ->
    rc <> 0%Z ->
    (forall j, j < i -> p_end (pre_proc w j) = Exit 0) ->
    p_end (pre_proc w i) = Exit rc ->
    dryRun req || (lower (get_default env_dry_run "") =? "true")%string = false ->
    (forall j, j < i -> exists o e, sync_proc w j = Completed 0 o e) ->
    sync_proc w i = Completed rc out err ->
    let r := deploy_stream w fuel env_deploy_type config req in
    let d := deploy w env_deploy_type env_dry_run config req in
    fst r = Returned /\
    (exists before,
       g_trace (snd r) =
       (before ++
        [pre_failed_event rc;
         Yield (Data (event EvError (join (read_lines (pre_proc w i)))))])%list) /\
    executed (g_trace (snd r)) = firstn (S i) (dc_pre_commands dc) /\
    Forall no_main (g_trace (snd r)) /\
    status (fst d) = 500 /\
    snd d = map Exec (firstn (S i) (dc_pre_commands dc)).
Proof.
  intros w fuel e de c req dt dc i rc out err Hkey Hact Hi Hrc Hok Hbad
         Hdry Hsok Hsbad r d.
  set (st0 := add_trace
                [Yield (Data (event EvStart ("Starting " ++ dt ++ " deployment...")))]
                initial_state).
  destruct (pre_commands_abort w (List.length (dc_pre_commands dc)) rc i
              (dc_pre_commands dc) (seq 1 (List.length (dc_pre_commands dc))) st0)
    as (tr & st' & E & Hex & Hnm & Ht); auto.
  { apply length_seq. }
  assert (Ed : run_deployment w fuel dt dc initial_state = (Returned, st')).
  { unfold run_deployment. cbv zeta.
    rewrite (bind_normal _ (yield_event_eq _ _ _)).
    fold st0. unfold run_pre_commands.
    unfold bind at 1. rewrite E. reflexivity. }
  assert (Er : r = (Returned, st')).
  { unfold r, deploy_stream, generate, generate_body.
    rewrite Hkey, Hact. cbn [negb].
    unfold bind at 1. rewrite Ed. reflexivity. }
  clear Ed.
  rewrite Er. cbn [fst snd]. rewrite Ht.
  split; [reflexivity|]. split.
  { eexists. rewrite app_assoc. reflexivity. }
  split.
  { repeat rewrite executed_app. rewrite Hex. simpl. apply app_nil_r. }
  split.
  { apply Forall_app. split; [repeat constructor|].
    apply Forall_app. split; [exact Hnm|repeat constructor]. }
  destruct (deploy_pre_commands_abort w rc out err i (dc_pre_commands dc) 0 [] []
              Hi Hsok Hsbad Hrc) as (resp & Ed & Hs & _).
  unfold d, deploy. rewrite Hkey, Hact, Hdry. cbn [negb]. rewrite Ed.
  split; [exact Hs|reflexivity].
Qed.

Lemma C1_failed_pre_command_witness :
  let w := failing_pre_world in
  let pre := ["helm repo add x"; "helm fetch x"; "helm lint"] in
  let config := sample_config pre "helm install" [] in
  let req := sample_request "k" in
  let r := deploy_stream w 5 None config req in
  let d := deploy w None None config req in
  fst r = Returned /\
  (exists before,
     g_trace (snd r) =
     (before ++
      [pre_failed_event 2;
       Yield (Data (event EvError (join (read_lines (pre_proc w 1)))))])%list) /\
  executed (g_trace (snd r)) = ["helm repo add x"; "helm fetch x"] /\
  Forall no_main (g_trace (snd r)) /\
  status (fst d) = 500 /\
  snd d = [Exec "helm repo add x"; Exec "helm fetch x"].
Proof.
  intros w pre config req.
  refine (C1_failed_pre_command_aborts w 5 None None config req
            "helm"
            {| dc_command := "helm install"; dc_working_dir := None;
               dc_env_var := None; dc_pre_commands := pre;
               dc_log_sources := []; dc_namespace := None;
               dc_default_version := None |}
            1 2%Z "" "chart not found"
            _ _ _ _ _ _ _ _ _).
  - reflexivity.
  - reflexivity.
  - simpl. lia.
  - discriminate.
  - intros j Hj. assert (j = 0) by lia. subst. reflexivity.
  - reflexivity.
  - reflexivity.
  - intros j Hj. assert (j = 0) by lia. subst. exists "", "". reflexivity.
  - reflexivity.
Defined.

(* ===================================================================== *)
(** * Status polling *)
(* ===================================================================== *)


Lemma isspace_nl : isspace nl = true.
Proof. reflexivity. Qed.





Lemma poll_pod_status_eq w ns last st :
  poll_pod_status w ns last st =
  (Normal (fst (poll_result (poll_proc w (g_polls st)) last)),
   after_poll (PollPods (pod_command ns) ::
               snd (poll_result (poll_proc w (g_polls st)) last)) st).
Proof.
  unfold poll_pod_status.
  rewrite (bind_normal _ (emit_eq _ _)).
  unfold next_poll at 1. unfold bind at 1. cbn [g_polls add_trace after_logs].
  unfold poll_result.
  destruct (poll_proc w (g_polls st)) as [out|].
  - fold (polled_text out). fold (changed (polled_text out) last).
    destruct (changed (polled_text out) last).
    + rewrite (bind_normal _ (yield_event_eq _ _ _)).
      rewrite (bind_normal _ (for_each_yield_lines _ _ _)).
      unfold ret, after_poll, add_trace, after_logs, pod_group, pod_lines. simpl.
      repeat rewrite <- app_assoc. reflexivity.
    + unfold ret, after_poll. reflexivity.
  - unfold ret, after_poll. reflexivity.
Qed.








(* ===================================================================== *)
(** * The monitoring loop *)
(* ===================================================================== *)

Section Monitor.

Variable w : World.

Lemma time_time_eq st :
  time_time w st = (Normal (clock w (g_clocks st)), after_clock st).
Proof. reflexivity. Qed.

Lemma monitor_loop_unfold f ns start last polls iter :
  monitor_loop w (S f) ns start last polls iter =
  (h <- read_holder w ;;
   if negb (done h) || (polls <? 2)%nat
   then
     emit (Yield Keepalive) ;;
     drain w ;;
     h <- read_holder w ;;
     let polls' := if done h then S polls else polls in
     if done h && (2 <=? polls')%nat
     then ret {| iterations := S iter; reason := Settled |}
     else
       last' <- poll_pod_status w ns last ;;
       now <- time_time w ;;
       if (now - start >? max_monitor_time)%Z
       then
         yield_event EvInfo timeout_message ;;
         ret {| iterations := S iter; reason := TimedOut (now - start) |}
       else
         emit (Sleep poll_interval) ;;
         monitor_loop w f ns start last' polls' (S iter)
   else ret {| iterations := iter; reason := ConditionFalse |}).
Proof. reflexivity. Qed.

(** One turn of the loop: it is left by one of its two [break]s, or goes
    on after one poll, one reading of the clock and one sleep. *)
Lemma monitor_step f ns start last polls iter st :
  polls < 2 ->
  let elapsed := (clock w (g_clocks st) - start)%Z in
  (exists st',
     monitor_loop w (S f) ns start last polls iter st =
       (Normal {| iterations := S iter; reason := Settled |}, st') /\
     g_polls st' = g_polls st) \/
  (exists st',
     monitor_loop w (S f) ns start last polls iter st =
       (Normal {| iterations := S iter; reason := TimedOut elapsed |}, st') /\
     (elapsed > max_monitor_time)%Z /\
     g_polls st' = S (g_polls st) /\
     exists tr, g_trace st' =
                (g_trace st ++ tr ++ [Yield (Data (event EvInfo timeout_message))])%list) \/
  (exists st1 last' polls',
     monitor_loop w (S f) ns start last polls iter st =
       monitor_loop w f ns start last' polls' (S iter) st1 /\
     (elapsed <= max_monitor_time)%Z /\
     g_clocks st1 = S (g_clocks st) /\
     g_polls st1 = S (g_polls st) /\
     advanced st st1 /\
     polls' < 2 /\
     (done (holder (g_shared st)) = true -> polls = 0 /\ polls' = 1)).
Proof.
  intros Hp elapsed. rewrite monitor_loop_unfold.
  destruct (read_holder_spec w st) as (sa & Ea & Hta & _ & Hca & Haa).
  rewrite (bind_normal _ Ea).
  replace (negb (done (holder (g_shared sa))) || (polls <? 2)%nat) with true
    by (apply Nat.ltb_lt in Hp; rewrite Hp; symmetry; apply orb_true_r).
  rewrite (bind_normal _ (emit_eq _ _)).
  destruct (drain_spec w (add_trace [Yield Keepalive] sa))
    as (evs & sb & Eb & Htb & _ & Hcb & Hab).
  rewrite (bind_normal _ Eb).
  destruct (read_holder_spec w sb) as (sc & Ec & Htc & _ & Hcc & Hac).
  rewrite (bind_normal _ Ec). cbv zeta.
  assert (Hadv : advanced st sc).
  { eapply advanced_trans; [exact Haa|].
    eapply advanced_trans; [|exact Hac]. exact Hab. }
  assert (Hcnt : g_polls sc = g_polls st /\ g_clocks sc = g_clocks st).
  { destruct Hca as (_ & a1 & _ & a2 & _). destruct Hcb as (_ & b1 & _ & b2 & _).
    destruct Hcc as (_ & c1 & _ & c2 & _). simpl in b1, b2.
    split; congruence. }
  destruct Hcnt as [Hpolls Hclocks].
  destruct (done (holder (g_shared sc)) &&
            (2 <=? (if done (holder (g_shared sc)) then S polls else polls))%nat)
    eqn:Hsettled.
  - left. exists sc. split; [reflexivity|exact Hpolls].
  - right.
    rewrite (bind_normal _ (poll_pod_status_eq w ns last sc)).
    rewrite (bind_normal _ (time_time_eq _)).
    cbn [g_clocks after_poll]. rewrite Hclocks. fold elapsed.
    destruct (elapsed >? max_monitor_time)%Z eqn:Hto.
    + left. rewrite (bind_normal _ (yield_event_eq _ _ _)).
      eexists. split; [reflexivity|].
      split; [apply Z.gtb_lt in Hto; lia|].
      split; [cbn [g_polls add_trace after_logs after_clock after_poll];
              rewrite Hpolls; reflexivity|].
      cbn [g_trace add_trace after_logs after_clock after_poll].
      rewrite Htc, Htb. cbn [g_trace add_trace after_logs]. rewrite Hta.
      exists ([Yield Keepalive] ++ map yield_of evs ++
              PollPods (pod_command ns) ::
              snd (poll_result (poll_proc w (g_polls sc)) last))%list.
      repeat rewrite <- app_assoc. reflexivity.
    + right. rewrite (bind_normal _ (emit_eq _ _)).
      eexists. eexists. eexists. split; [reflexivity|].
      split.
      { destruct (Z.gtb_spec elapsed max_monitor_time); [discriminate|lia]. }
      split; [cbn [g_clocks add_trace after_logs after_clock after_poll];
              rewrite Hclocks; reflexivity|].
      split; [cbn [g_polls add_trace after_logs after_clock after_poll];
              rewrite Hpolls; reflexivity|].
      split.
      { destruct Hadv as [n Hn]. exists n. rewrite Hn. reflexivity. }
      split.
      { destruct (done (holder (g_shared sc))); simpl in Hsettled; [|exact Hp].
        destruct polls as [|[|polls]]; simpl in Hsettled; try discriminate; lia. }
      intros Hd. apply (advanced_done _ _ Hadv) in Hd. rewrite Hd in *.
      simpl in Hsettled.
      destruct polls as [|[|polls]]; simpl in Hsettled; try discriminate.
      split; reflexivity.
Qed.

(** With sleeps of at least [poll_interval] the loop ends within the
    number of turns that the time left to the deadline asks for. *)
Lemma monitor_loop_terminates ns start D : forall m fuel last polls iter st,
  m < fuel ->
  polls < 2 ->
  (max_monitor_time - (clock w (g_clocks st) - start) < 5 * Z.of_nat m)%Z ->
  (clock w (g_clocks st) - start <= max_monitor_time + poll_interval + D)%Z ->
  (forall j, g_clocks st <= j ->
     (clock w j + poll_interval <= clock w (S j) <=
      clock w j + poll_interval + D)%Z) ->
  exists ex st',
    monitor_loop w fuel ns start last polls iter st = (Normal ex, st') /\
    iterations ex <= iter + S m /\
    reason ex <> ConditionFalse /\
    (forall el, reason ex = TimedOut el ->
       (max_monitor_time < el <= max_monitor_time + poll_interval + D)%Z).
Proof.
  induction m as [|m IH]; intros fuel last polls iter st Hfuel Hp Hf Hb Hclk;
    (destruct fuel as [|f]; [lia|]).
  - destruct (monitor_step f ns start last polls iter st Hp)
      as [(st' & E & _)|[(st' & E & Hto & _)|(st1 & l & p & _ & Hle & _)]].
    + eexists; exists st'. split; [exact E|]. cbn [iterations reason].
      split; [lia|]. split; [discriminate|]. intros el H. discriminate.
    + eexists; exists st'. split; [exact E|]. cbn [iterations reason].
      split; [lia|]. split; [discriminate|].
      intros el H. injection H as <-.
      unfold max_monitor_time, poll_interval in *. lia.
    + unfold max_monitor_time in *. lia.
  - destruct (monitor_step f ns start last polls iter st Hp)
      as [(st' & E & _)|[(st' & E & Hto & _)|
          (st1 & l & p & E & Hle & Hc1 & _ & _ & Hp' & _)]].
    + eexists; exists st'. split; [exact E|]. cbn [iterations reason].
      split; [lia|]. split; [discriminate|]. intros el H. discriminate.
    + eexists; exists st'. split; [exact E|]. cbn [iterations reason].
      split; [lia|]. split; [discriminate|].
      intros el H. injection H as <-.
      unfold max_monitor_time, poll_interval in *. lia.
    + pose proof (Hclk (g_clocks st) (Nat.le_refl _)) as Hs.
      destruct (IH f l p (S iter) st1) as (ex & st' & E' & Hi & Hr & Ht).
      * lia.
      * exact Hp'.
      * rewrite Hc1. unfold max_monitor_time, poll_interval in *. lia.
      * rewrite Hc1. unfold max_monitor_time, poll_interval in *. lia.
      * intros j Hj. apply Hclk. lia.
      * exists ex, st'. split; [rewrite E; exact E'|].
        split; [lia|]. split; assumption.
Qed.

(** Once [done] is set the loop is left within two turns, after at most
    one more poll. *)
Lemma monitor_loop_settles ns start f last polls iter st :
  polls < 2 ->
  done (holder (g_shared st)) = true ->
  exists ex st',
    monitor_loop w (S (S f)) ns start last polls iter st = (Normal ex, st') /\
    iterations ex <= iter + 2 /\
    g_polls st' <= S (g_polls st) /\
    reason ex <> ConditionFalse.
Proof.
  intros Hp Hd.
  destruct (monitor_step (S f) ns start last polls iter st Hp)
    as [(st' & E & Hpl)|[(st' & E & _ & Hpl & _)|
        (st1 & l & p & E & _ & _ & Hpl & Ha & Hp' & Hpp)]].
  - eexists; exists st'. split; [exact E|]. cbn [iterations reason].
    split; [lia|]. split; [lia|discriminate].
  - eexists; exists st'. split; [exact E|]. cbn [iterations reason].
    split; [lia|]. split; [lia|discriminate].
  - destruct (Hpp Hd) as [-> ->].
    pose proof (advanced_done _ _ Ha Hd) as Hd1.
    destruct (monitor_step f ns start l 1 (S iter) st1 Hp')
      as [(st' & E' & Hpl')|[(st' & E' & _ & Hpl' & _)|
          (st2 & l2 & p2 & _ & _ & _ & _ & _ & _ & Hpp')]].
    + eexists; exists st'. split; [rewrite E; exact E'|]. cbn [iterations reason].
      split; [lia|]. split; [lia|discriminate].
    + exfalso.
      (* with [done] seen and the counter at 1 the turn ends by Settled *)
      revert E'. rewrite monitor_loop_unfold.
      destruct (read_holder_spec w st1) as (sa & Ea & _ & _ & _ & Haa).
      rewrite (bind_normal _ Ea). cbn [Nat.ltb Nat.leb orb].
      rewrite orb_true_r.
      rewrite (bind_normal _ (emit_eq _ _)).
      destruct (drain_spec w (add_trace [Yield Keepalive] sa))
        as (evs & sb & Eb & _ & _ & _ & Hab).
      rewrite (bind_normal _ Eb).
      destruct (read_holder_spec w sb) as (sc & Ec & _ & _ & _ & Hac).
      rewrite (bind_normal _ Ec). cbv zeta.
      assert (Hdc : done (holder (g_shared sc)) = true).
      { apply (advanced_done _ _ Hac). apply (advanced_done _ _ Hab).
        simpl. apply (advanced_done _ _ Haa). exact Hd1. }
      rewrite Hdc. simpl. unfold ret. intros H. discriminate.
    + destruct (Hpp' Hd1) as [H _]. discriminate.
Qed.

End Monitor.

(** C9, as stated, fails: with polls that take 3 seconds the deadline test
    first sees more than 300 seconds at 307 seconds, after the bound of
    300 + 5. *)
Lemma C9_counterexample_slow_polls :
  fst (monitor slow_poll_world 62 "nemo" initial_state) =
    Normal {| iterations := 39; reason := TimedOut 307 |} /\
  ~ (307 <= max_monitor_time + poll_interval)%Z.
Proof.
  split; [vm_compute; reflexivity|].
  unfold max_monitor_time, poll_interval. lia.
Qed.

(** C9 (amended). The monitoring loop always ends: when every sleep lasts at
    least [poll_interval], it is left by one of its two [break]s after at
    most 62 turns, whatever the main command does.  When a turn takes at
    most [D] seconds besides its sleep, a loop left by the deadline test is
    left between [max_monitor_time] and [max_monitor_time + poll_interval +
    D] seconds after its start (the bound 300 + 5 holds for [D = 0] only).
    Once the runner has set [done], the loop is left within two more turns,
    after at most one more poll. *)
Theorem C9_monitoring_loop_terminates :
  forall (w : World) (ns : string) (st : GenState) (fuel : nat) (D : Z),
    62 <= fuel ->
    (clock w (g_clocks st) <= clock w (S (g_clocks st)) <=
     clock w (g_clocks st) + D)%Z ->
    (forall j, g_clocks st < j ->
       (clock w j + poll_interval <= clock w (S j) <=
        clock w j + poll_interval + D)%Z) ->
    (exists ex st',
       monitor w fuel ns st = (Normal ex, st') /\
       iterations ex <= 62 /\
       reason ex <> ConditionFalse /\
       (forall el, reason ex = TimedOut el ->
          (max_monitor_time < el <= max_monitor_time + poll_interval + D)%Z)) /\
    (forall f start last polls iter st1,
       polls < 2 ->
       done (holder (g_shared st1)) = true ->
       exists ex st2,
         monitor_loop w (S (S f)) ns start last polls iter st1 = (Normal ex, st2) /\
         iterations ex <= iter + 2 /\
         g_polls st2 <= S (g_polls st1) /\
         reason ex <> ConditionFalse).
Proof.
  intros w ns st fuel D Hfuel H0 Hclk. split.
  - unfold monitor. rewrite (bind_normal _ (time_time_eq w st)).
    destruct (monitor_loop_terminates w ns (clock w (g_clocks st)) D
                61 fuel "" 0 0 (after_clock st)) as (ex & st' & E & Hi & Hr & Ht).
    + lia.
    + lia.
    + cbn [g_clocks after_clock]. unfold max_monitor_time. lia.
    + cbn [g_clocks after_clock]. unfold max_monitor_time, poll_interval. lia.
    + cbn [g_clocks after_clock]. intros j Hj. apply Hclk. lia.
    + exists ex, st'. split; [exact E|]. split; [lia|]. split; assumption.
  - intros f start last polls iter st1 Hp Hd.
    apply monitor_loop_settles; assumption.
Qed.

Lemma C9_monitoring_loop_witness :
  exists ex st',
    monitor slow_poll_world 62 "nemo" initial_state = (Normal ex, st') /\
    iterations ex <= 62 /\
    reason ex <> ConditionFalse /\
    (forall el, reason ex = TimedOut el ->
       (max_monitor_time < el <= max_monitor_time + poll_interval + 3)%Z).
Proof.
  refine (proj1 (C9_monitoring_loop_terminates slow_poll_world "nemo"
                   initial_state 62 3 _ _ _)).
  - lia.
  - simpl. lia.
  - intros j Hj. destruct j as [|j]; [lia|].
    unfold poll_interval. cbn [clock slow_poll_world]. lia.
Defined.

(** C4 (the code at a main command that outlives the monitoring): the
    stream ends with the informational timeout event followed by an
    ['error'] event "Deployment failed with exit code None", the exit code
    read by the final status test being [None]; no ['complete'] event. *)
Theorem C4_timeout_reported_as_failure :
  let st := snd (deploy_stream stalled_world 62 None
                   (sample_config [] "sleep 400" []) (sample_request "k")) in
  lastn 2 (events (g_trace st)) =
    [event EvInfo timeout_message;
     event EvError "Deployment failed with exit code None"] /\
  g_checked st = Some None /\
  existsb (has_type EvComplete) (events (g_trace st)) = false.
Proof. vm_compute. repeat split; reflexivity. Qed.

(* ===================================================================== *)
(** * Masking of secrets in dry-run mode *)
(* ===================================================================== *)

Section Masking.

Lemma append_assoc a b c : (a ++ b) ++ c = a ++ (b ++ c).
Proof. induction a as [|x a IH]; simpl; congruence. Qed.

Lemma drop_nil n : drop n "" = "".
Proof. destruct n; reflexivity. Qed.

Lemma take_drop n : forall s, take n s ++ drop n s = s.
Proof. induction n as [|n IH]; intros [|c s]; simpl; try rewrite IH; reflexivity. Qed.

Lemma drop_drop a : forall b s, drop a (drop b s) = drop (b + a) s.
Proof.
  induction b as [|b IH]; intros s; [reflexivity|].
  destruct s as [|c s]; simpl; [apply drop_nil|apply IH].
Qed.

Lemma length_drop_le n : forall s, String.length (drop n s) <= String.length s.
Proof.
  induction n as [|n IH]; intros [|c s]; simpl; try lia.
  specialize (IH s). lia.
Qed.

Lemma Masked_refl s : Masked s s.
Proof. induction s; constructor; assumption. Qed.

Lemma Masked_keep_prefix x : forall a b, Masked a b -> Masked (x ++ a) (x ++ b).
Proof. induction x as [|c x IH]; intros a b H; simpl; [exact H|constructor; auto]. Qed.

Lemma star_free_tail a k : star_free (String a k) = true -> star_free k = true.
Proof.
  unfold star_free. simpl. intros H. apply negb_true_iff in H.
  apply orb_false_iff in H. destruct H as [_ H]. rewrite H. reflexivity.
Qed.

Lemma star_free_head a k : star_free (String a k) = true -> a <> "*"%char.
Proof.
  unfold star_free. simpl. intros H Ea. subst a. discriminate.
Qed.

Lemma prefix_star a k x :
  a <> "*"%char -> String.prefix (String a k) (String "*" x) = false.
Proof. intros H. simpl. destruct (ascii_dec a "*"); [contradiction|reflexivity]. Qed.

Lemma prefix_nil s : String.prefix "" s = true.
Proof. destruct s; reflexivity. Qed.

(** A text without ['*'] that starts the masked text starts the original. *)
Lemma prefix_masked s s' :
  Masked s s' ->
  forall k, star_free k = true ->
    String.prefix k s' = true -> String.prefix k s = true.
Proof.
  induction 1 as [|c s s' H IH|m s s' H IH]; intros k Hk Hp.
  - exact Hp.
  - destruct k as [|a k]; [reflexivity|]. simpl in *.
    destruct (ascii_dec a c); [|discriminate].
    apply IH; [eapply star_free_tail; exact Hk|exact Hp].
  - destruct k as [|a k]; [apply prefix_nil|].
    change ("***" ++ s') with (String "*" ("**" ++ s')) in Hp.
    rewrite prefix_star in Hp; [discriminate|].
    eapply star_free_head; exact Hk.
Qed.

Lemma occurs_app_r k m : forall s, occurs k s = true -> occurs k (m ++ s) = true.
Proof.
  induction m as [|c m IH]; intros s H; simpl; [exact H|].
  rewrite (IH s H). apply orb_true_r.
Qed.

Lemma occurs_star k x :
  star_free k = true -> k <> "" ->
  occurs k (String "*" x) = occurs k x.
Proof.
  intros Hk Hne. destruct k as [|a k]; [contradiction|].
  cbn [occurs]. rewrite prefix_star; [reflexivity|].
  eapply star_free_head; exact Hk.
Qed.

Lemma occurs_stars k x :
  star_free k = true -> k <> "" -> occurs k ("***" ++ x) = occurs k x.
Proof.
  intros Hk Hne. change ("***" ++ x) with (String "*" (String "*" (String "*" x))).
  repeat rewrite occurs_star by assumption. reflexivity.
Qed.

(** Masking never makes a text without ['*'] appear. *)
Lemma occurs_masked s s' :
  Masked s s' ->
  forall k, star_free k = true -> k <> "" ->
    occurs k s' = true -> occurs k s = true.
Proof.
  induction 1 as [|c s s' H IH|m s s' H IH]; intros k Hk Hne Ho.
  - exact Ho.
  - cbn [occurs] in *. apply orb_true_iff in Ho. apply orb_true_iff.
    destruct Ho as [Hp|Ho].
    + left. apply (prefix_masked _ _ (Masked_keep c _ _ H) k Hk Hp).
    + right. apply IH; assumption.
  - rewrite occurs_stars in Ho by assumption.
    apply occurs_app_r. apply IH; assumption.
Qed.

Lemma replace_go_skip old new : forall s k,
  replace_go old new k s = replace_go old new 0 (drop k s).
Proof.
  induction s as [|c s IH]; intros k.
  - rewrite drop_nil. destruct k; reflexivity.
  - destruct k as [|k]; [reflexivity|]. simpl. apply IH.
Qed.

Lemma replace_go_masked old : forall n s,
  String.length s <= n -> Masked s (replace_go old "***" 0 s).
Proof.
  induction n as [|n IH]; intros s Hn.
  - destruct s; [constructor|simpl in Hn; lia].
  - destruct s as [|c s]; [constructor|]. cbn [replace_go].
    destruct (String.prefix old (String c s)).
    + rewrite replace_go_skip.
      rewrite <- (take_drop (String.length old - 1) s) at 1.
      change (String c (take (String.length old - 1) s ++
                        drop (String.length old - 1) s))
        with (String c (take (String.length old - 1) s) ++
              drop (String.length old - 1) s).
      apply Masked_hide. apply IH.
      pose proof (length_drop_le (String.length old - 1) s).
      simpl in Hn. lia.
    + constructor. apply IH. simpl in Hn. lia.
Qed.

(** After [cmd.replace(api_key, '***')] the key is gone, when it has no
    ['*'] in it. *)
Lemma replace_go_no_occurrence k :
  star_free k = true -> k <> "" ->
  forall n s, String.length s <= n ->
    occurs k (replace_go k "***" 0 s) = false.
Proof.
  intros Hk Hne. induction n as [|n IH]; intros s Hn.
  - destruct s; [|simpl in Hn; lia]. destruct k; [contradiction|reflexivity].
  - destruct s as [|c s]; [destruct k; [contradiction|reflexivity]|].
    cbn [replace_go].
    destruct (String.prefix k (String c s)) eqn:Hp.
    + rewrite occurs_stars by assumption. rewrite replace_go_skip.
      apply IH. pose proof (length_drop_le (String.length k - 1) s).
      simpl in Hn. lia.
    + cbn [occurs]. apply orb_false_iff. split.
      * destruct (String.prefix k (String c (replace_go k "***" 0 s))) eqn:Hp';
          [|reflexivity].
        rewrite <- Hp. symmetry.
        apply (prefix_masked _ _
                 (Masked_keep c _ _ (replace_go_masked k (String.length s) s
                                       (Nat.le_refl _))) k Hk Hp').
      * apply IH. simpl in Hn. lia.
Qed.

Lemma sub_go_skip p : forall s k,
  Regex.sub_go p k s = Regex.sub_go p 0 (drop k s).
Proof.
  induction s as [|c s IH]; intros k.
  - rewrite drop_nil. destruct k; reflexivity.
  - destruct k as [|k]; [reflexivity|]. simpl. apply IH.
Qed.

(** [re.sub] as modelled replaces the matches a left-to-right scan
    finds, when the pattern has no empty match. *)
Lemma sub_rewrites p :
  (forall s g n, Regex.match_pattern p s = Some (g, n) -> 0 < n) ->
  forall n s, String.length s <= n -> Rewrites p s (Regex.sub p s).
Proof.
  intros Hpos. unfold Regex.sub. induction n as [|n IH]; intros s Hn.
  - destruct s; [constructor|simpl in Hn; lia].
  - destruct s as [|c s]; [constructor|]. cbn [Regex.sub_go].
    destruct (Regex.match_pattern p (String c s)) as [[g m]|] eqn:Em.
    + pose proof (Hpos _ _ _ Em) as Hm.
      rewrite sub_go_skip.
      apply Rewrites_hit with (n := m); [exact Em|exact Hm|].
      destruct m as [|m]; [lia|]. simpl. rewrite Nat.sub_0_r.
      apply IH. pose proof (length_drop_le m s). simpl in Hn. lia.
    + constructor; [exact Em|]. apply IH. simpl in Hn. lia.
Qed.

Lemma total_firstn_le k : forall l, Regex.total (firstn k l) <= Regex.total l.
Proof.
  induction k as [|k IH]; intros [|x l]; simpl; try lia.
  specialize (IH l). unfold Regex.total in *. lia.
Qed.

Lemma match_pattern_group_le p s g n :
  Regex.match_pattern p s = Some (g, n) -> g <= n.
Proof.
  unfold Regex.match_pattern.
  destruct (Regex.match_atoms (Regex.p_group p ++ Regex.p_rest p) s);
    [|discriminate].
  intros H. injection H as <- <-. apply total_firstn_le.
Qed.

Lemma rewrites_masked p s s' : Rewrites p s s' -> Masked s s'.
Proof.
  induction 1 as [|c s s' _ _ IH|s g n s' Em Hn _ IH].
  - constructor.
  - constructor. exact IH.
  - pose proof (match_pattern_group_le _ _ _ _ Em) as Hg.
    rewrite <- (take_drop g s) at 1. apply Masked_keep_prefix.
    rewrite <- (take_drop (n - g) (drop g s)).
    rewrite drop_drop. replace (g + (n - g)) with n by lia.
    apply Masked_hide. exact IH.
Qed.

(** Both patterns start with a word: their matches are not empty. *)
Lemma match_literal_positive l group rest s g n :
  l <> "" ->
  Regex.match_pattern
    {| Regex.p_group := Regex.Lit l :: group; Regex.p_rest := rest |} s =
    Some (g, n) ->
  0 < n.
Proof.
  intros Hl. unfold Regex.match_pattern. cbn [Regex.p_group Regex.p_rest app].
  cbn [Regex.match_atoms].
  destruct (String.prefix l s); [|discriminate].
  destruct (Regex.match_atoms (group ++ rest) (drop (String.length l) s));
    [|discriminate].
  cbn [option_map]. intros H. injection H as _ <-.
  destruct l; [contradiction|]. simpl. lia.
Qed.

Lemma password_flag_positive s g n :
  Regex.match_pattern Regex.password_flag s = Some (g, n) -> 0 < n.
Proof. apply match_literal_positive. discriminate. Qed.

Lemma password_assign_positive s g n :
  Regex.match_pattern Regex.password_assign s = Some (g, n) -> 0 < n.
Proof. apply match_literal_positive. discriminate. Qed.

(** [mask_secrets] leaves no occurrence of a key without ['*']. *)
Lemma mask_secrets_no_occurrence k cmd :
  star_free k = true -> k <> "" -> occurs k (mask_secrets k cmd) = false.
Proof.
  intros Hk Hne. unfold mask_secrets, replace.
  destruct k as [|a k]; [contradiction|]. cbn [is_empty].
  set (key := String a k) in *.
  set (m1 := replace_go key "***" 0 cmd).
  set (m2 := Regex.sub Regex.password_flag m1).
  assert (H1 : occurs key m1 = false).
  { apply (replace_go_no_occurrence key Hk Hne (String.length cmd)). lia. }
  assert (M2 : Masked m1 m2).
  { eapply rewrites_masked.
    apply (sub_rewrites Regex.password_flag password_flag_positive
             (String.length m1)). lia. }
  assert (M3 : Masked m2 (Regex.sub Regex.password_assign m2)).
  { eapply rewrites_masked.
    apply (sub_rewrites Regex.password_assign password_assign_positive
             (String.length m2)). lia. }
  destruct (occurs key (Regex.sub Regex.password_assign m2)) eqn:E3;
    [|reflexivity].
  apply (occurs_masked _ _ M3 key Hk Hne) in E3.
  apply (occurs_masked _ _ M2 key Hk Hne) in E3. congruence.
Qed.

End Masking.

Example mask_secrets_ex :
  mask_secrets "SECRET123"
    "helm registry login nvcr.io --username x --password=SECRET123 && curl -u password:hunter2 url"
  = "helm registry login nvcr.io --username x --password=*** && curl -u password:*** url".
Proof. vm_compute. reflexivity. Qed.

Example mask_quoted_ex :
  mask_secrets "k" ("password=" ++ String "034" "hunter2" ++ String "034" " x")
  = "password=" ++ String "034" "***" ++ String "034" " x".
Proof. vm_compute. reflexivity. Qed.

(** C6, as stated, fails for a credential with a ['*'] in it: the mask
    itself is made of that character, and the echoed command can contain the
    credential again. *)
Lemma C6_counterexample_key_with_star :
  let req := {| apiKey := Some "a*"; version := None; dryRun := true |} in
  let r := deploy idle_world None None (sample_config [] "echo aa*" []) req in
  snd r = [] /\
  echoed (fst r) = ["echo a***"] /\
  existsb (occurs "a*") (echoed (fst r)) = true.
Proof. vm_compute. repeat split; reflexivity. Qed.

(** C6 (amended). In dry-run mode no command is executed, and the answer
    echoes every pre-command and the main command through [mask_secrets].
    For a non-empty credential that has no ['*'] in it, the credential does
    not occur in any echoed command.  The password fragments are masked as
    the two patterns find them: the echoed command is the command after the
    credential replacement, scanned from the left by each pattern in turn,
    every match found being echoed as its keyword part followed by
    ["***"]. *)
Theorem C6_dry_run_masks_credential :
  forall (w : World) (env_deploy_type env_dry_run : option string)
         (config : Config) (req : DeploymentRequest) (key : string)
         (deploy_type : string) (dc : DeploymentConfig),
    apiKey req = Some key ->
    key <> "" ->
    star_free key = true ->
    active_deployment env_deploy_type config = Some (deploy_type, dc) ->
    dryRun req || (lower (get_default env_dry_run "") =? "true")%string = true ->
    let r := deploy w env_deploy_type env_dry_run config req in
    let commands := (dc_pre_commands dc ++ [dc_command dc])%list in
    snd r = [] /\
    status (fst r) = 200 /\
    echoed (fst r) = map (mask_secrets key) commands /\
    (forall x, In x (echoed (fst r)) -> occurs key x = false) /\
    (forall cmd,
       let m1 := replace key "***" cmd in
       let m2 := Regex.sub Regex.password_flag m1 in
       Rewrites Regex.password_flag m1 m2 /\
       Rewrites Regex.password_assign m2 (mask_secrets key cmd)).
Proof.
  intros w e de c req key dt dc Hkey Hne Hstar Hact Hdry r commands.
  assert (Er : r = ({| body :=
                         DryRunBody
                           {| deployment_type := dt;
                              we_version := version_env req dc;
                              working_directory :=
                                get_default (dc_working_dir dc) "/app";
                              environment :=
                                [(get_default (dc_env_var dc) "NGC_API_KEY",
                                  "***hidden***");
                                 ("VERSION", version_env req dc)];
                              pre_commands :=
                                map (mask_secrets key) (dc_pre_commands dc);
                              main_command := mask_secrets key (dc_command dc) |}
                           "Dry run complete - no commands were executed";
                       status := 200 |}, [])).
  { unfold r, deploy. rewrite Hkey. cbn [get_default].
    destruct key as [|a k]; [contradiction|]. cbn [truthy is_empty negb].
    rewrite Hact, Hdry. reflexivity. }
  rewrite Er. cbn [fst snd status].
  assert (Eech : echoed
            {| body :=
                 DryRunBody
                   {| deployment_type := dt;
                      we_version := version_env req dc;
                      working_directory := get_default (dc_working_dir dc) "/app";
                      environment :=
                        [(get_default (dc_env_var dc) "NGC_API_KEY", "***hidden***");
                         ("VERSION", version_env req dc)];
                      pre_commands := map (mask_secrets key) (dc_pre_commands dc);
                      main_command := mask_secrets key (dc_command dc) |}
                   "Dry run complete - no commands were executed";
               status := 200 |} = map (mask_secrets key) commands).
  { unfold echoed, commands. cbn [body pre_commands main_command].
    rewrite map_app. reflexivity. }
  rewrite Eech.
  split; [reflexivity|]. split; [reflexivity|]. split; [reflexivity|]. split.
  - intros x Hx. apply in_map_iff in Hx. destruct Hx as (cmd & <- & _).
    apply mask_secrets_no_occurrence; assumption.
  - intros cmd. cbv zeta. split.
    + apply (sub_rewrites Regex.password_flag password_flag_positive _ _
               (Nat.le_refl _)).
    + apply (sub_rewrites Regex.password_assign password_assign_positive _ _
               (Nat.le_refl _)).
Qed.

Lemma C6_dry_run_witness :
  let req := {| apiKey := Some "SECRET123"; version := None; dryRun := true |} in
  let config :=
    sample_config ["helm registry login nvcr.io --password=SECRET123"]
      "helm install x --set key=SECRET123" [] in
  let r := deploy idle_world None None config req in
  snd r = [] /\
  echoed (fst r) =
    ["helm registry login nvcr.io --password=***";
     "helm install x --set key=***"] /\
  (forall x, In x (echoed (fst r)) -> occurs "SECRET123" x = false).
Proof.
  intros req config r.
  pose proof (C6_dry_run_masks_credential idle_world None None config req
                "SECRET123" "helm"
                {| dc_command := "helm install x --set key=SECRET123";
                   dc_working_dir := None; dc_env_var := None;
                   dc_pre_commands :=
                     ["helm registry login nvcr.io --password=SECRET123"];
                   dc_log_sources := []; dc_namespace := None;
                   dc_default_version := None |}
                eq_refl ltac:(discriminate) eq_refl eq_refl eq_refl) as H.
  cbv zeta in H. fold r in H. destruct H as (H1 & _ & H3 & H4 & _).
  split; [exact H1|]. split; [|exact H4].
  rewrite H3. vm_compute. reflexivity.
Defined.


(* ===================================================================== *)
(** * The non-streaming handler, command by command *)
(* ===================================================================== *)

Section DeployFacts.

Variable w : World.

Lemma deploy_pre_commands_cons cmd rest k outputs tr :
  deploy_pre_commands w k (cmd :: rest) outputs tr =
  match sync_proc w k with
  | Completed rc out err =>
      if negb (rc =? 0)%Z
      then
        (inl {| body := ErrorBody ("Pre-command failed: " ++ err)
                          (Some (join_nl
                                   (app outputs
                                      [("Pre-command output: " ++ out)%string])));
                status := 500 |}, (tr ++ [Exec cmd])%list)
      else deploy_pre_commands w (S k) rest
             (app outputs [("Pre-command output: " ++ out)%string])
             (tr ++ [Exec cmd])%list
  | TimeoutExpired =>
      (inl {| body := ErrorBody "Deployment timed out after 10 minutes" None;
              status := 500 |}, (tr ++ [Exec cmd])%list)
  | SyncFails e =>
      (inl {| body := ErrorBody ("Deployment error: " ++ e) None;
              status := 500 |}, (tr ++ [Exec cmd])%list)
  end.
Proof. reflexivity. Qed.

(** The loop over the pre-commands runs them in order and stops at the
    first that does not exit with 0. *)
Lemma deploy_pre_commands_prefix : forall cmds k outputs tr,
  exists n,
    n <= List.length cmds /\
    snd (deploy_pre_commands w k cmds outputs tr) =
      (tr ++ map Exec (firstn n cmds))%list /\
    (forall j, j + 1 < n -> exists o e, sync_proc w (k + j) = Completed 0 o e) /\
    match fst (deploy_pre_commands w k cmds outputs tr) with
    | inl resp => status resp = 500 /\ 0 < n
    | inr (k', outs) =>
        n = List.length cmds /\ k' = k + List.length cmds /\
        outs = (outputs ++
                map (fun j => ("Pre-command output: " ++ sync_out w (k + j))%string)
                  (seq 0 (List.length cmds)))%list /\
        forall j, j < n -> exists o e, sync_proc w (k + j) = Completed 0 o e
    end.
Proof.
  induction cmds as [|cmd rest IH]; intros k outputs tr.
  - exists 0. simpl. rewrite !app_nil_r. repeat split; intros; lia.
  - rewrite deploy_pre_commands_cons.
    destruct (sync_proc w k) as [rc out err| |e] eqn:Ek.
    + destruct (Z.eqb_spec rc 0) as [->|Hrc]; cbn [negb].
      * destruct (IH (S k) (app outputs [("Pre-command output: " ++ out)%string])
                    (tr ++ [Exec cmd])%list) as (n & Hn & Htr & Hok & Hres).
        exists (S n). split; [simpl; lia|]. split.
        { rewrite Htr. rewrite <- app_assoc. reflexivity. }
        split.
        { intros j Hj. destruct j as [|j].
          - rewrite Nat.add_0_r. eauto.
          - replace (k + S j) with (S k + j) by lia. apply Hok. lia. }
        destruct (fst (deploy_pre_commands w (S k) rest
                         (app outputs [("Pre-command output: " ++ out)%string])
                         (tr ++ [Exec cmd]))) as [resp|[k' outs]].
        { destruct Hres. split; [assumption|lia]. }
        destruct Hres as (-> & -> & -> & Hall).
        split; [reflexivity|]. split; [simpl; lia|]. split.
        { rewrite <- app_assoc. cbn [List.length seq map app].
          rewrite Nat.add_0_r. unfold sync_out at 2. rewrite Ek.
          f_equal. f_equal. rewrite <- seq_shift, map_map.
          apply map_ext. intros j. f_equal. f_equal. lia. }
        intros j Hj. destruct j as [|j].
        { rewrite Nat.add_0_r. eauto. }
        replace (k + S j) with (S k + j) by lia. apply Hall. lia.
      * exists 1. split; [simpl; lia|]. split; [reflexivity|].
        split; [intros j Hj; lia|]. simpl. split; [reflexivity|lia].
    + exists 1. split; [simpl; lia|]. split; [reflexivity|].
      split; [intros j Hj; lia|]. simpl. split; [reflexivity|lia].
    + exists 1. split; [simpl; lia|]. split; [reflexivity|].
      split; [intros j Hj; lia|]. simpl. split; [reflexivity|lia].
Qed.

Lemma deploy_pre_commands_all_ok : forall cmds k outputs tr,
  (forall j, j < List.length cmds ->
     exists o e, sync_proc w (k + j) = Completed 0 o e) ->
  deploy_pre_commands w k cmds outputs tr =
  (inr (k + List.length cmds,
        (outputs ++
         map (fun j => ("Pre-command output: " ++ sync_out w (k + j))%string)
           (seq 0 (List.length cmds)))%list),
   (tr ++ map Exec cmds)%list).
Proof.
  induction cmds as [|cmd rest IH]; intros k outputs tr Hok.
  - simpl. rewrite Nat.add_0_r, !app_nil_r. reflexivity.
  - rewrite deploy_pre_commands_cons.
    destruct (Hok 0) as (o & e & E0); [simpl; lia|].
    rewrite Nat.add_0_r in E0. rewrite E0. cbn [Z.eqb negb].
    rewrite IH.
    + cbn [List.length seq map]. rewrite Nat.add_0_r.
      unfold sync_out at 2. rewrite E0.
      rewrite <- !app_assoc. cbn [app].
      replace (S k + List.length rest) with (k + S (List.length rest)) by lia.
      rewrite <- seq_shift, map_map.
      assert (Em : map (fun j => ("Pre-command output: " ++ sync_out w (S k + j))%string)
                     (seq 0 (List.length rest)) =
                   map (fun j => ("Pre-command output: " ++ sync_out w (k + S j))%string)
                     (seq 0 (List.length rest))).
      { apply map_ext. intros j. f_equal. f_equal. lia. }
      rewrite Em. reflexivity.
    + intros j Hj. replace (S k + j) with (k + S j) by lia.
      apply Hok. simpl. lia.
Qed.

Lemma deploy_pre_commands_raise o : forall i cmds k outputs tr,
  i < List.length cmds ->
  (forall j, j < i -> exists out e, sync_proc w (k + j) = Completed 0 out e) ->
  sync_proc w (k + i) = o ->
  (o = TimeoutExpired \/ exists e, o = SyncFails e) ->
  deploy_pre_commands w k cmds outputs tr =
  (inl {| body :=
            match o with
            | TimeoutExpired =>
                ErrorBody "Deployment timed out after 10 minutes" None
            | SyncFails e => ErrorBody ("Deployment error: " ++ e) None
            | Completed _ _ _ => ErrorBody "" None
            end;
          status := 500 |},
   (tr ++ map Exec (firstn (S i) cmds))%list).
Proof.
  induction i as [|i IH]; intros cmds k outputs tr Hi Hok Ho Hkind;
    (destruct cmds as [|cmd rest]; [simpl in Hi; lia|]);
    rewrite deploy_pre_commands_cons.
  - rewrite Nat.add_0_r in Ho. rewrite Ho.
    destruct Hkind as [->|[e ->]]; reflexivity.
  - destruct (Hok 0) as (out & e & E0); [lia|].
    rewrite Nat.add_0_r in E0. rewrite E0. cbn [Z.eqb negb].
    rewrite (IH rest (S k)).
    + rewrite <- app_assoc. reflexivity.
    + simpl in Hi. lia.
    + intros j Hj. replace (S k + j) with (k + S j) by lia. apply Hok. lia.
    + replace (S k + i) with (k + S i) by lia. exact Ho.
    + exact Hkind.
Qed.

End DeployFacts.

(** X1. When every pre-command and the main command exit with 0, [deploy]
    runs all of them in the configured order and answers 200 with the
    title-cased deployment type in the message and, as output, the outputs
    of the pre-commands (each behind "Pre-command output: ") and of the
    main command, joined by newlines. *)
Theorem X1_deploy_success :
  forall (w : World) (env_deploy_type env_dry_run : option string)
         (config : Config) (req : DeploymentRequest)
         (deploy_type : string) (dc : DeploymentConfig),
    truthy (get_default (apiKey req) "") = true ->
    active_deployment env_deploy_type config = Some (deploy_type, dc) ->
    dryRun req || (lower (get_default env_dry_run "") =? "true")%string = false ->
    (forall j, j <= List.length (dc_pre_commands dc) ->
       exists o e, sync_proc w j = Completed 0 o e) ->
    deploy w env_deploy_type env_dry_run config req =
    ({| body :=
          MessageBody
            (title deploy_type ++ " deployment initiated successfully!")
            (join_nl
               (map (fun j => ("Pre-command output: " ++ sync_out w j)%string)
                  (seq 0 (List.length (dc_pre_commands dc))) ++
                [sync_out w (List.length (dc_pre_commands dc))]));
        status := 200 |},
     map Exec (dc_pre_commands dc ++ [dc_command dc])).
Proof.
  intros w e de c req dt dc Hkey Hact Hdry Hok.
  unfold deploy. rewrite Hkey, Hact, Hdry. cbn [negb].
  rewrite deploy_pre_commands_all_ok.
  - destruct (Hok (List.length (dc_pre_commands dc)) (Nat.le_refl _))
      as (o & er & E).
    cbn [Nat.add app]. rewrite E. cbn [Z.eqb].
    unfold sync_out. rewrite E. rewrite map_app. reflexivity.
  - intros j Hj. apply Hok. simpl. lia.
Qed.

Lemma X1_deploy_success_witness :
  let config := sample_config ["helm repo add x"; "helm fetch x"] "helm install" [] in
  exists out,
    deploy idle_world None (Some "FALSE") config (sample_request "k") =
    ({| body := MessageBody "Helm deployment initiated successfully!" out;
        status := 200 |},
     [Exec "helm repo add x"; Exec "helm fetch x"; Exec "helm install"]).
Proof.
  intros config. eexists.
  refine (X1_deploy_success idle_world None (Some "FALSE") config
            (sample_request "k") "helm"
            {| dc_command := "helm install"; dc_working_dir := None;
               dc_env_var := None;
               dc_pre_commands := ["helm repo add x"; "helm fetch x"];
               dc_log_sources := []; dc_namespace := None;
               dc_default_version := None |} _ _ _ _).
  - reflexivity.
  - reflexivity.
  - reflexivity.
  - intros j Hj. exists "", "". reflexivity.
Defined.

(** X2. [deploy] never runs a command out of order or after a failure: the
    commands it runs are the first [n] of the pre-commands followed by the
    main command, all but the last of them exited with 0, and it answers
    200, 400 or 500; outside dry-run mode it answers 200 only after running
    every command, the main command included, each exiting with 0. *)
Theorem X2_deploy_runs_a_prefix :
  forall (w : World) (env_deploy_type env_dry_run : option string)
         (config : Config) (req : DeploymentRequest)
         (deploy_type : string) (dc : DeploymentConfig),
    active_deployment env_deploy_type config = Some (deploy_type, dc) ->
    let r := deploy w env_deploy_type env_dry_run config req in
    let commands := (dc_pre_commands dc ++ [dc_command dc])%list in
    let dry_run :=
      dryRun req || (lower (get_default env_dry_run "") =? "true")%string in
    (status (fst r) = 200 \/ status (fst r) = 400 \/ status (fst r) = 500) /\
    exists n,
      n <= List.length commands /\
      snd r = map Exec (firstn n commands) /\
      (forall j, j + 1 < n -> exists o e, sync_proc w j = Completed 0 o e) /\
      (status (fst r) = 200 -> dry_run = false ->
       n = List.length commands /\
       forall j, j < n -> exists o e, sync_proc w j = Completed 0 o e).
Proof.
  intros w e de c req dt dc Hact r commands dry_run.
  unfold r, deploy. rewrite Hact. fold dry_run.
  destruct (negb (truthy (get_default (apiKey req) ""))).
  { split; [auto|]. exists 0. cbn [fst snd status].
    split; [lia|]. split; [reflexivity|]. split; [intros j Hj; lia|].
    intros H. discriminate H. }
  destruct dry_run eqn:Edry.
  { split; [auto|]. exists 0. cbn [fst snd status].
    split; [lia|]. split; [reflexivity|]. split; [intros j Hj; lia|].
    intros _ H. discriminate H. }
  destruct (deploy_pre_commands_prefix w (dc_pre_commands dc) 0 [] [])
    as (n & Hn & Htr & Hok & Hres).
  destruct (deploy_pre_commands w 0 (dc_pre_commands dc) [] [])
    as [[resp|[k outs]] tr]; cbn [fst snd] in *.
  - destruct Hres as [Hs Hpos]. split; [auto|].
    exists n. split; [unfold commands; rewrite length_app; simpl; lia|].
    split.
    { rewrite Htr. unfold commands. rewrite firstn_app.
      replace (n - List.length (dc_pre_commands dc)) with 0 by lia.
      simpl. rewrite app_nil_r. reflexivity. }
    split; [exact Hok|]. intros H200. rewrite Hs in H200. discriminate.
  - destruct Hres as (-> & -> & _ & Hall). cbn [Nat.add] in *.
    assert (Hrun : (tr ++ [Exec (dc_command dc)])%list = map Exec commands).
    { rewrite Htr. unfold commands. rewrite firstn_all, map_app. reflexivity. }
    assert (Hlen : List.length commands = S (List.length (dc_pre_commands dc))).
    { unfold commands. rewrite length_app. simpl. lia. }
    assert (Hfull : firstn (S (List.length (dc_pre_commands dc))) commands = commands).
    { rewrite <- Hlen. apply firstn_all. }
    destruct (sync_proc w (List.length (dc_pre_commands dc)))
      as [rc out err| |e0] eqn:Em.
    + destruct (Z.eqb_spec rc 0) as [->|Hrc]; cbn [fst snd status].
      * split; [auto|]. exists (S (List.length (dc_pre_commands dc))).
        split; [lia|]. split; [rewrite Hfull; exact Hrun|].
        split.
        { intros j Hj. apply Hall. lia. }
        intros _ _. split; [lia|]. intros j Hj.
        destruct (Nat.eq_dec j (List.length (dc_pre_commands dc))) as [->|Hne].
        -- eauto.
        -- apply Hall. lia.
      * split; [auto|]. exists (S (List.length (dc_pre_commands dc))).
        split; [lia|]. split; [rewrite Hfull; exact Hrun|].
        split; [intros j Hj; apply Hall; lia|]. discriminate.
    + cbn [fst snd status]. split; [auto|].
      exists (S (List.length (dc_pre_commands dc))).
      split; [lia|]. split; [rewrite Hfull; exact Hrun|].
      split; [intros j Hj; apply Hall; lia|]. discriminate.
    + cbn [fst snd status]. split; [auto|].
      exists (S (List.length (dc_pre_commands dc))).
      split; [lia|]. split; [rewrite Hfull; exact Hrun|].
      split; [intros j Hj; apply Hall; lia|]. discriminate.
Qed.

Lemma X2_deploy_prefix_witness :
  let config := sample_config ["helm repo add x"; "helm fetch x"; "helm lint"]
                  "helm install" [] in
  let r := deploy failing_pre_world None None config (sample_request "k") in
  status (fst r) = 500 /\
  exists n,
    n <= 4 /\
    snd r = map Exec (firstn n ["helm repo add x"; "helm fetch x"; "helm lint";
                                "helm install"]).
Proof.
  intros config r.
  destruct (X2_deploy_runs_a_prefix failing_pre_world None None config
              (sample_request "k") "helm"
              {| dc_command := "helm install"; dc_working_dir := None;
                 dc_env_var := None;
                 dc_pre_commands := ["helm repo add x"; "helm fetch x"; "helm lint"];
                 dc_log_sources := []; dc_namespace := None;
                 dc_default_version := None |} eq_refl)
    as (_ & n & Hn & Hrun & _).
  split; [reflexivity|]. exists n. split; [exact Hn|exact Hrun].
Defined.

(** X3. When a captured run of [deploy] times out or cannot be made (those
    before it having exited with 0), the answer is 500 with "Deployment
    timed out after 10 minutes", respectively "Deployment error: ..."; the
    outputs collected so far are not returned, and no later command is
    run.  This holds for the pre-commands and for the main command. *)
Theorem X3_deploy_timeout_discards_output :
  forall (w : World) (env_deploy_type env_dry_run : option string)
         (config : Config) (req : DeploymentRequest)
         (deploy_type : string) (dc : DeploymentConfig)
         (i : nat) (o : SyncOutcome),
    truthy (get_default (apiKey req) "") = true ->
    active_deployment env_deploy_type config = Some (deploy_type, dc) ->
    dryRun req || (lower (get_default env_dry_run "") =? "true")%string = false ->
    i <= List.length (dc_pre_commands dc) ->
    (forall j, j < i -> exists out e, sync_proc w j = Completed 0 out e) ->
    sync_proc w i = o ->
    (o = TimeoutExpired \/ exists e, o = SyncFails e) ->
    deploy w env_deploy_type env_dry_run config req =
    ({| body :=
          match o with
          | TimeoutExpired => ErrorBody "Deployment timed out after 10 minutes" None
          | SyncFails e => ErrorBody ("Deployment error: " ++ e) None
          | Completed _ _ _ => ErrorBody "" None
          end;
        status := 500 |},
     map Exec (firstn (S i) (dc_pre_commands dc ++ [dc_command dc]))).
Proof.
  intros w e de c req dt dc i o Hkey Hact Hdry Hi Hok Ho Hkind.
  unfold deploy. rewrite Hkey, Hact, Hdry. cbn [negb].
  destruct (Nat.eq_dec i (List.length (dc_pre_commands dc))) as [->|Hne].
  - rewrite deploy_pre_commands_all_ok by (intros j Hj; apply Hok; exact Hj).
    cbn [Nat.add app]. rewrite Ho.
    rewrite firstn_all2 by (rewrite length_app; simpl; lia).
    rewrite map_app.
    destruct Hkind as [->|[e0 ->]]; reflexivity.
  - rewrite (deploy_pre_commands_raise w o i); auto; [|lia].
    rewrite firstn_app.
    replace (S i - List.length (dc_pre_commands dc)) with 0 by lia.
    cbn [firstn]. rewrite app_nil_r. reflexivity.
Qed.

Lemma X3_deploy_timeout_witness :
  deploy broken_pre_world None None
    (sample_config ["helm fetch x"] "helm install" []) (sample_request "k") =
  ({| body := ErrorBody "Deployment timed out after 10 minutes" None;
      status := 500 |},
   [Exec "helm fetch x"; Exec "helm install"]).
Proof.
  refine (X3_deploy_timeout_discards_output broken_pre_world None None
            (sample_config ["helm fetch x"] "helm install" []) (sample_request "k")
            "helm"
            {| dc_command := "helm install"; dc_working_dir := None;
               dc_env_var := None; dc_pre_commands := ["helm fetch x"];
               dc_log_sources := []; dc_namespace := None;
               dc_default_version := None |}
            1 TimeoutExpired _ _ _ _ _ _ _).
  - reflexivity.
  - reflexivity.
  - reflexivity.
  - simpl. lia.
  - intros j Hj. assert (j = 0) by lia. subst. exists "fetched", "". reflexivity.
  - reflexivity.
  - left. reflexivity.
Defined.

(* ===================================================================== *)
(** * Selection of the deployment *)
(* ===================================================================== *)

Lemma lookup_keys t : forall c : Config,
  existsb (String.eqb t) (map fst c) =
  match lookup t c with Some _ => true | None => false end.
Proof.
  induction c as [|[k dc] c IH]; [reflexivity|].
  simpl. destruct (t =? k)%string; [reflexivity|exact IH].
Qed.

Lemma lookup_meta_keys t : forall c : list (string * DeploymentMeta),
  existsb (String.eqb t) (map fst c) =
  match lookup_meta t c with Some _ => true | None => false end.
Proof.
  induction c as [|[k m] c IH]; [reflexivity|].
  simpl. destruct (t =? k)%string; [reflexivity|exact IH].
Qed.

Lemma active_deployment_name e (c : Config) :
  option_map fst (active_deployment e c) = select_name e (map fst c).
Proof.
  unfold active_deployment, select_name.
  assert (Hf : first_key c = match map fst c with [] => None | k :: _ => Some k end).
  { destruct c as [|[k dc] c]; reflexivity. }
  rewrite <- Hf.
  destruct (match e with
            | Some t => if truthy t then Some t else first_key c
            | None => first_key c
            end) as [t|]; [|reflexivity].
  destruct (truthy t); [|reflexivity]. cbn [andb].
  rewrite lookup_keys. destruct (lookup t c); reflexivity.
Qed.

Lemma get_config_name e h (cm : list (string * DeploymentMeta)) :
  match fst (get_config e h cm) with
  | inl md => Some (md_active_deployment md)
  | inr _ => None
  end = select_name e (map fst cm) /\
  (snd (get_config e h cm) = 200 <-> select_name e (map fst cm) <> None) /\
  (snd (get_config e h cm) = 200 \/ snd (get_config e h cm) = 500).
Proof.
  unfold get_config, select_name.
  assert (Hf : match cm with [] => None | (k, _) :: _ => Some k end =
               match map fst cm with [] => None | k :: _ => Some k end).
  { destruct cm as [|[k m] cm]; reflexivity. }
  rewrite <- Hf.
  destruct (match e with
            | Some t => if truthy t then Some t
                        else match cm with [] => None | (k, _) :: _ => Some k end
            | None => match cm with [] => None | (k, _) :: _ => Some k end
            end) as [t|].
  - destruct (truthy t); cbn [andb].
    + rewrite lookup_meta_keys. destruct (lookup_meta t cm); cbn [fst snd].
      * repeat split; auto; discriminate.
      * repeat split; auto; try discriminate. intros H; contradiction.
    + cbn [fst snd]. repeat split; auto; try discriminate. intros H; contradiction.
  - cbn [fst snd]. repeat split; auto; try discriminate. intros H; contradiction.
Qed.

(** X4. When no deployment resolves (the type named by DEPLOY_TYPE is not in
    the file, or the file is empty), a request with a credential is still
    rejected before anything is spawned: the stream is the single frame
    ['error', 'No deployment configured'], [deploy] answers 500 with that
    error, also in dry-run mode. *)
Theorem X4_no_deployment_configured :
  forall (w : World) (fuel : nat) (env_deploy_type env_dry_run : option string)
         (config : Config) (req : DeploymentRequest),
    truthy (get_default (apiKey req) "") = true ->
    active_deployment env_deploy_type config = None ->
    let r := deploy_stream w fuel env_deploy_type config req in
    fst r = Returned /\
    g_trace (snd r) = [Yield (Data (event EvError "No deployment configured"))] /\
    deploy w env_deploy_type env_dry_run config req =
      ({| body := ErrorBody "No deployment configured" None; status := 500 |}, []).
Proof.
  intros w fuel e de c req Hkey Hact r.
  unfold r, deploy_stream, generate, generate_body, deploy.
  rewrite Hkey, Hact. repeat split; reflexivity.
Qed.

Lemma X4_no_deployment_witness :
  let config := sample_config ["helm fetch"] "helm install" [] in
  let req := {| apiKey := Some "k"; version := None; dryRun := true |} in
  let r := deploy_stream idle_world 3 (Some "docker-compose") config req in
  fst r = Returned /\
  g_trace (snd r) = [Yield (Data (event EvError "No deployment configured"))] /\
  deploy idle_world (Some "docker-compose") None config req =
    ({| body := ErrorBody "No deployment configured" None; status := 500 |}, []).
Proof.
  intros config req.
  exact (X4_no_deployment_configured idle_world 3 (Some "docker-compose") None
           config req eq_refl eq_refl).
Defined.

(** X5. [get_config] and the deployment handlers select the same
    deployment: for one file (the same keys in the same order), the
    [/config] endpoint answers 200 with [active_deployment = t] exactly
    when the handlers select the entry [t], and it answers 500 exactly when
    they find no deployment. *)
Theorem X5_config_endpoint_agrees_with_deploy :
  forall (env_deploy_type env_heading : option string)
         (cm : list (string * DeploymentMeta)) (config : Config),
    map fst cm = map fst config ->
    let r := get_config env_deploy_type env_heading cm in
    (forall t,
       (exists md, fst r = inl md /\ md_active_deployment md = t) <->
       (exists dc, active_deployment env_deploy_type config = Some (t, dc))) /\
    (snd r = 500 <-> active_deployment env_deploy_type config = None) /\
    (snd r = 200 <-> exists md, fst r = inl md).
Proof.
  intros e h cm c Hkeys r.
  destruct (get_config_name e h cm) as (Hn & H200 & Hst). fold r in Hn, H200, Hst.
  pose proof (active_deployment_name e c) as Ha. rewrite <- Hkeys in Ha.
  rewrite <- Ha in Hn, H200.
  split; [|split].
  - intros t. split.
    + intros (md & Er & Et). rewrite Er in Hn.
      destruct (active_deployment e c) as [[t' dc]|]; [|discriminate].
      simpl in Hn. injection Hn as Hn. exists dc. congruence.
    + intros (dc & Ea). rewrite Ea in Hn. simpl in Hn.
      destruct (fst r) as [md|]; [|discriminate].
      injection Hn as Hn. exists md. split; [reflexivity|exact Hn].
  - split.
    + intros H5. destruct (active_deployment e c) as [x|]; [|reflexivity].
      exfalso. assert (H2 : snd r = 200) by (apply H200; discriminate).
      rewrite H5 in H2. discriminate.
    + intros Ea. rewrite Ea in H200. simpl in H200.
      destruct Hst as [H|H]; [|exact H].
      exfalso. apply H200 in H. apply H. reflexivity.
  - split.
    + intros H2. apply H200 in H2.
      destruct (fst r) as [md|]; [eauto|].
      exfalso. apply H2. symmetry. exact Hn.
    + intros (md & Er). apply H200. rewrite Er in Hn. rewrite <- Hn. discriminate.
Qed.

Lemma X5_config_endpoint_witness :
  let cm := [("helm", {| dm_versions := Some ["1.0"; "2.0"];
                         dm_default_version := Some "2.0";
                         dm_description := None; dm_heading := None |})] in
  let r := get_config None (Some "") cm in
  (exists md, fst r = inl md /\ md_active_deployment md = "helm") /\
  snd r = 200.
Proof.
  intros cm r.
  destruct (X5_config_endpoint_agrees_with_deploy None (Some "") cm
              (sample_config [] "helm install" []) eq_refl) as (H1 & _ & H3).
  fold r in H1, H3. split.
  - apply H1. eexists. reflexivity.
  - reflexivity.
Defined.

(** X6. The path of the configuration file: a non-empty CONFIG_FILE wins;
    without the variable it is ./config.json when that file exists and
    /app/config.json otherwise; and the path is empty exactly when the
    variable is set to the empty text and there is no local file. *)
Theorem X6_config_file_resolution :
  forall (local_exists : bool) (env_config_file : option string),
    (forall s, env_config_file = Some s -> s <> "" ->
       CONFIG_FILE local_exists env_config_file = s) /\
    (env_config_file = None ->
       CONFIG_FILE local_exists env_config_file =
       if local_exists then "./config.json" else "/app/config.json") /\
    (CONFIG_FILE local_exists env_config_file = "" <->
     env_config_file = Some "" /\ local_exists = false).
Proof.
  intros le env. split; [|split].
  - intros s -> Hs. unfold CONFIG_FILE. destruct s; [contradiction|reflexivity].
  - intros ->. reflexivity.
  - unfold CONFIG_FILE, get_config_path.
    destruct env as [[|a s]|]; destruct le; simpl; split;
      try discriminate; try (intros [H1 H2]; discriminate); auto.
Qed.

(** X7. When the configuration file cannot be read, [load_config] falls
    back to two deployments, and one is selected unless DEPLOY_TYPE names
    something else than them: unset or empty it selects ["docker-compose"],
    which has no pre-commands. *)
Theorem X7_fallback_config_selection :
  forall (env_deploy_type : option string),
    (active_deployment env_deploy_type (load_config None) = None <->
     exists t, env_deploy_type = Some t /\ t <> "" /\
               t <> "docker-compose" /\ t <> "helm") /\
    (env_deploy_type = None \/ env_deploy_type = Some "" ->
     exists dc,
       active_deployment env_deploy_type (load_config None) =
         Some ("docker-compose", dc) /\
       dc_command dc = "docker-compose up -d" /\ dc_pre_commands dc = []).
Proof.
  intros e. split.
  - unfold active_deployment, load_config, fallback_config. split.
    + destruct e as [[|a t]|]; cbn [truthy is_empty negb first_key lookup];
        try (simpl; discriminate).
      destruct (String.eqb_spec (String a t) "docker-compose") as [E1|N1];
        [discriminate|].
      destruct (String.eqb_spec (String a t) "helm") as [E2|N2]; [discriminate|].
      intros _. exists (String a t). repeat split; auto. discriminate.
    + intros (t & -> & Hne & N1 & N2).
      destruct t as [|a t]; [contradiction|].
      cbn [truthy is_empty negb lookup].
      apply String.eqb_neq in N1, N2. rewrite N1, N2. reflexivity.
  - intros [->| ->]; eexists; repeat split.
Qed.

(* ===================================================================== *)
(** * What the runner has published when it reports *)
(* ===================================================================== *)

Lemma run_thread_queue n : forall ops sh,
  log_queue (snd (run_thread n ops sh)) =
  (log_queue sh ++ put_pairs (firstn n ops))%list.
Proof.
  induction n as [|n IH]; intros ops sh.
  - simpl. symmetry. apply app_nil_r.
  - destruct ops as [|op ops]; [simpl; symmetry; apply app_nil_r|].
    cbn [run_thread firstn]. rewrite IH.
    destruct op; cbn [thread_step log_queue put_pairs flat_map app];
      try reflexivity.
    rewrite <- app_assoc. reflexivity.
Qed.

Lemma queue_outputs_app a b :
  queue_outputs (a ++ b) = (queue_outputs a ++ queue_outputs b)%list.
Proof. apply flat_map_app. Qed.

Lemma put_pairs_app_list a b :
  put_pairs (a ++ b) = (put_pairs a ++ put_pairs b)%list.
Proof. apply flat_map_app. Qed.

Lemma outputs_of_puts b n :
  queue_outputs (put_pairs (firstn n (puts_of b))) = firstn n (proc_outputs b).
Proof.
  unfold puts_of, proc_outputs. revert n.
  induction (read_lines b) as [|l ls IH]; intros [|n]; try reflexivity.
  simpl. f_equal. apply IH.
Qed.

Lemma outputs_of_epilogue b m :
  queue_outputs (put_pairs (firstn m (epilogue b))) = [].
Proof.
  unfold epilogue. destruct (p_end b); destruct m as [|[|[|[|[|m]]]]]; reflexivity.
Qed.

Lemma runner_queue_outputs b q n :
  queue_outputs (log_queue (snd (runner_after b q n))) =
  (queue_outputs q ++ firstn n (proc_outputs b))%list.
Proof.
  unfold runner_after. rewrite run_thread_queue, run_command_async_split.
  cbn [log_queue]. rewrite queue_outputs_app. f_equal.
  rewrite firstn_app, put_pairs_app_list, queue_outputs_app.
  rewrite outputs_of_puts, outputs_of_epilogue. apply app_nil_r.
Qed.

(** X8. The runner publishes before it reports: after any number of its
    steps the ['output'] entries it has put on the queue are the first lines
    of the command, in order; once an exit code is in the shared cell every
    line is on the queue, and once [done] is set the captured text is there
    too. *)
Theorem X8_runner_publishes_before_it_reports :
  forall (b : ProcBehaviour) (q : list (EventType * string)) (n : nat),
    let now := runner_after b q n in
    queue_outputs (log_queue (snd now)) =
      (queue_outputs q ++ firstn n (proc_outputs b))%list /\
    (returncode (holder (snd now)) <> None ->
     queue_outputs (log_queue (snd now)) =
       (queue_outputs q ++ proc_outputs b)%list) /\
    (done (holder (snd now)) = true ->
     stdout (holder (snd now)) = captured b /\
     returncode (holder (snd now)) = Some (exit_code b)).
Proof.
  intros b q n now. unfold now.
  split; [apply runner_queue_outputs|]. split.
  - intros Hrc. rewrite runner_queue_outputs. f_equal.
    apply firstn_all2.
    assert (Hk : List.length (puts_of b) = List.length (proc_outputs b)).
    { unfold puts_of, proc_outputs. now rewrite !length_map. }
    destruct (runner_phases b q n) as [[_ [Hi _]]|[[Hn _]|[[Hn _]|[Hn _]]]];
      try lia.
    rewrite Hi in Hrc. exfalso. apply Hrc. reflexivity.
  - intros Hd.
    destruct (runner_phases b q n) as [[_ [Hi _]]|[[_ [_ Hi]]|[[_ [_ Hi]]|[_ Hi]]]];
      rewrite Hi in Hd |- *; try discriminate. split; reflexivity.
Qed.

(* ===================================================================== *)
(** * Commands [mask_secrets] leaves alone *)
(* ===================================================================== *)

Lemma occurs_cons sub c s :
  occurs sub (String c s) = false ->
  String.prefix sub (String c s) = false /\ occurs sub s = false.
Proof. cbn [occurs]. intros H. apply orb_false_elim in H. exact H. Qed.

Lemma occurs_prefix sub s : String.prefix sub s = true -> occurs sub s = true.
Proof. intros H. destruct s; cbn [occurs]; rewrite H; reflexivity. Qed.

Lemma occurs_false_prefix sub s :
  occurs sub s = false -> String.prefix sub s = false.
Proof.
  intros H. destruct (String.prefix sub s) eqn:E; [|reflexivity].
  apply occurs_prefix in E. congruence.
Qed.

Lemma replace_go_absent old new : forall s,
  occurs old s = false -> replace_go old new 0 s = s.
Proof.
  induction s as [|c s IH]; intros H; [reflexivity|].
  apply occurs_cons in H. destruct H as [Hp Ho].
  cbn [replace_go]. rewrite Hp. f_equal. apply IH. exact Ho.
Qed.

Lemma sub_go_no_match p : forall s,
  (forall k, Regex.match_pattern p (drop k s) = None) ->
  Regex.sub_go p 0 s = s.
Proof.
  induction s as [|c s IH]; intros H; [reflexivity|].
  pose proof (H 0) as H0. cbn [drop] in H0.
  cbn [Regex.sub_go]. rewrite H0. f_equal. apply IH.
  intros k. exact (H (S k)).
Qed.

Lemma literal_no_match l group rest s :
  String.prefix l s = false ->
  Regex.match_pattern
    {| Regex.p_group := Regex.Lit l :: group; Regex.p_rest := rest |} s = None.
Proof.
  intros H. unfold Regex.match_pattern.
  cbn [Regex.p_group Regex.p_rest app Regex.match_atoms]. rewrite H. reflexivity.
Qed.

Lemma occurs_drop sub : forall k s,
  occurs sub s = false -> occurs sub (drop k s) = false.
Proof.
  induction k as [|k IH]; intros s H; [exact H|].
  destruct s as [|c s]; [exact H|]. cbn [drop]. apply IH.
  apply occurs_cons in H. apply H.
Qed.

Lemma prefix_skip2 a b l s :
  String.prefix (String a (String b l)) s = true -> occurs l s = true.
Proof.
  destruct s as [|x [|y s]]; cbn [String.prefix].
  - discriminate.
  - destruct (Ascii.ascii_dec a x); discriminate.
  - destruct (Ascii.ascii_dec a x); [|discriminate].
    destruct (Ascii.ascii_dec b y); [|discriminate].
    intros H. apply occurs_prefix in H.
    cbn [occurs]. rewrite H. rewrite !orb_true_r. reflexivity.
Qed.

(** X9. [mask_secrets] changes nothing in a command that contains neither
    the credential nor the word [password]: the dry-run answer then shows
    the command as it would be run. *)
Theorem X9_mask_secrets_leaves_plain_commands :
  forall (key cmd : string),
    key <> "" ->
    occurs key cmd = false ->
    occurs "password" cmd = false ->
    mask_secrets key cmd = cmd.
Proof.
  intros key cmd Hne Hk Hp. unfold mask_secrets, replace.
  destruct key as [|a key]; [contradiction|]. cbn [is_empty].
  rewrite (replace_go_absent _ "***" cmd Hk).
  unfold Regex.sub.
  assert (H1 : Regex.sub_go Regex.password_flag 0 cmd = cmd).
  { apply sub_go_no_match. intros k. apply literal_no_match.
    destruct (String.prefix "--password" (drop k cmd)) eqn:E; [|reflexivity].
    apply prefix_skip2 in E. rewrite (occurs_drop "password" k cmd Hp) in E.
    discriminate. }
  rewrite H1.
  apply sub_go_no_match. intros k. apply literal_no_match.
  apply occurs_false_prefix. apply occurs_drop. exact Hp.
Qed.

Lemma X9_mask_secrets_plain_witness :
  mask_secrets "nvapi-123" "helm install nemo ./chart --set tag=${VERSION}" =
  "helm install nemo ./chart --set tag=${VERSION}".
Proof.
  apply (X9_mask_secrets_leaves_plain_commands "nvapi-123"
           "helm install nemo ./chart --set tag=${VERSION}");
    [discriminate|reflexivity|reflexivity].
Defined.

(* ===================================================================== *)
(** * Log commands and exceptions of the stream *)
(* ===================================================================== *)

(** X10. The streaming endpoint runs no log command unless the final status
    test read the exit code 0: not after a rejected request, a failed or
    raising pre-command, a failed main command, or a main command still
    running when the monitoring ended. *)
Theorem X10_no_log_command_without_success :
  forall (w : World) (fuel : nat) (env_deploy_type : option string)
         (config : Config) (req : DeploymentRequest),
    let st := snd (deploy_stream w fuel env_deploy_type config req) in
    g_checked st <> Some (Some 0%Z) ->
    logs_run (g_trace st) = [].
Proof.
  intros w fuel e c req st Hchk.
  destruct (stream_cases w fuel e c req) as [HI|(dt & dc & st1 & Ha & HI & Hr)];
    cbv zeta in *; fold st in HI || fold st in Hr.
  - apply logs_run_calm. apply HI.
  - destruct (report_final_status_spec w (version_env req dc)
                (dc_log_sources dc) st1)
      as (st2 & st' & E & _ & Hchk' & [[Hz _]|[_ (st3 & st4 & _ & _ & Htr)]]).
    + assert (Est : st = st') by (unfold st; rewrite <- Hr, E; reflexivity).
      exfalso. apply Hchk. rewrite Est, Hchk', Hz. reflexivity.
    + assert (Est : st = st') by (unfold st; rewrite <- Hr, E; reflexivity).
      rewrite Est, Htr, logs_run_app.
      rewrite (logs_run_calm (g_trace st1)) by apply HI.
      cbn [logs_run flat_map failure_event app]. apply logs_run_yield_lines.
Qed.

Lemma X10_no_log_command_witness :
  let w := finishing_world ["boom"] 3 (fun _ => false) in
  let sources := [ {| ls_command := Some "kubectl get pods";
                      ls_label := Some "Pods" |} ] in
  let st := snd (deploy_stream w 5 None (sample_config [] "helm install" sources)
                   (sample_request "k")) in
  g_checked st <> Some (Some 0%Z) /\ logs_run (g_trace st) = [].
Proof.
  intros w sources st.
  assert (H : g_checked st <> Some (Some 0%Z)) by (vm_compute; discriminate).
  split; [exact H|].
  exact (X10_no_log_command_without_success w 5 None
           (sample_config [] "helm install" sources) (sample_request "k") H).
Defined.

Section PreCommandRaises.

Variable w : World.

Lemma pre_command_step_raise n idx cmd st err :
  p_end (pre_proc w (g_pres st)) = Fails err ->
  exists st',
    pre_command_step w n (idx, cmd) st = (Raised err, st') /\
    g_trace st' =
      (g_trace st ++
       [Yield (Data (event EvSection
                       ("Pre-command " ++ str_of_Z (Z.of_nat idx) ++ "/" ++
                        str_of_Z (Z.of_nat n))));
        Yield (Data (event EvCommand cmd)); Exec cmd])%list.
Proof.
  intros Hend. unfold pre_command_step.
  rewrite (bind_normal _ (yield_event_eq _ _ _)).
  rewrite (bind_normal _ (yield_event_eq _ _ _)).
  unfold bind at 1. unfold execute_command_stream, bind, emit. cbn [g_pres add_trace after_logs].
  rewrite Hend. eexists. split; [reflexivity|].
  cbn [g_trace add_trace after_logs]. repeat rewrite <- app_assoc. reflexivity.
Qed.

(** The loop is left by the exception of the first pre-command that
    raises. *)
Lemma pre_commands_raise n err : forall i cmds idxs st,
  List.length idxs = List.length cmds ->
  i < List.length cmds ->
  (forall j, j < i -> p_end (pre_proc w (g_pres st + j)) = Exit 0) ->
  p_end (pre_proc w (g_pres st + i)) = Fails err ->
  exists tr st',
    for_each (combine idxs cmds) (pre_command_step w n) st = (Raised err, st') /\
    executed tr = firstn i cmds /\ Forall no_main tr /\
    g_trace st' = (g_trace st ++ tr ++ [Exec (nth i cmds "")])%list.
Proof.
  induction i as [|i IH]; intros cmds idxs st Hlen Hi Hok Hbad.
  - destruct cmds as [|cmd rest]; [simpl in Hi; lia|].
    destruct idxs as [|idx idxs]; [discriminate|].
    rewrite Nat.add_0_r in *.
    destruct (pre_command_step_raise n idx cmd st err Hbad) as (st' & E & Ht).
    exists [Yield (Data (event EvSection
                          ("Pre-command " ++ str_of_Z (Z.of_nat idx) ++ "/" ++
                           str_of_Z (Z.of_nat n))));
            Yield (Data (event EvCommand cmd))], st'.
    cbn [combine for_each]. unfold bind at 1. rewrite E.
    split; [reflexivity|]. split; [reflexivity|].
    split; [repeat constructor|]. rewrite Ht. reflexivity.
  - destruct cmds as [|cmd rest]; [simpl in Hi; lia|].
    destruct idxs as [|idx idxs]; [discriminate|].
    assert (H0 : p_end (pre_proc w (g_pres st)) = Exit 0).
    { rewrite <- (Nat.add_0_r (g_pres st)). apply Hok. lia. }
    destruct (pre_command_step_spec w n idx cmd st 0%Z H0)
      as (tr & st1 & Hex & Hnm & Hp & H).
    simpl in H. destruct H as [E Ht].
    destruct (IH rest idxs st1) as (tr' & st' & E' & Hex' & Hnm' & Ht').
    + simpl in Hlen. lia.
    + simpl in Hi. lia.
    + intros j Hj. rewrite Hp.
      replace (S (g_pres st) + j) with (g_pres st + S j) by lia.
      apply Hok. lia.
    + rewrite Hp. replace (S (g_pres st) + i) with (g_pres st + S i) by lia.
      exact Hbad.
    + exists (tr ++ tr')%list, st'. cbn [combine for_each].
      rewrite (bind_normal _ E). split; [exact E'|].
      split; [rewrite executed_app, Hex, Hex'; reflexivity|].
      split; [apply Forall_app; split; assumption|].
      rewrite Ht', Ht. cbn [nth]. repeat rewrite <- app_assoc. reflexivity.
Qed.

End PreCommandRaises.

(** X11. When a pre-command raises (it cannot be spawned, or reading it
    fails), the streaming endpoint ends with the event ['error',
    'Error: ' + the exception text] right after the attempt: the commands
    executed are the pre-commands up to that one, what it had printed is
    not sent, and the main command is never started. *)
Theorem X11_stream_pre_command_exception :
  forall (w : World) (fuel : nat) (env_deploy_type : option string)
         (config : Config) (req : DeploymentRequest)
         (deploy_type : string) (dc : DeploymentConfig) (i : nat) (err : string),
    truthy (get_default (apiKey req) "") = true ->
    active_deployment env_deploy_type config = Some (deploy_type, dc) ->
    i < List.length (dc_pre_commands dc) ->
    (forall j, j < i -> p_end (pre_proc w j) = Exit 0) ->
    p_end (pre_proc w i) = Fails err ->
    let r := deploy_stream w fuel env_deploy_type config req in
    fst r = Normal tt /\
    (exists before,
       g_trace (snd r) =
       (before ++
        [Exec (nth i (dc_pre_commands dc) "");
         Yield (Data (event EvError ("Error: " ++ err)))])%list) /\
    executed (g_trace (snd r)) = firstn (S i) (dc_pre_commands dc) /\
    Forall no_main (g_trace (snd r)).
Proof.
  intros w fuel e c req dt dc i err Hkey Hact Hi Hok Hbad r.
  set (st0 := add_trace
                [Yield (Data (event EvStart ("Starting " ++ dt ++ " deployment...")))]
                initial_state).
  destruct (pre_commands_raise w (List.length (dc_pre_commands dc)) err i
              (dc_pre_commands dc) (seq 1 (List.length (dc_pre_commands dc))) st0)
    as (tr & st' & E & Hex & Hnm & Ht); auto.
  { apply length_seq. }
  assert (Ed : run_deployment w fuel dt dc initial_state = (Raised err, st')).
  { unfold run_deployment. cbv zeta.
    rewrite (bind_normal _ (yield_event_eq _ _ _)).
    fold st0. unfold run_pre_commands.
    unfold bind at 1. rewrite E. reflexivity. }
  assert (Er : r = (Normal tt,
                    add_trace [Yield (Data (event EvError ("Error: " ++ err)))] st')).
  { unfold r, deploy_stream, generate, generate_body.
    rewrite Hkey, Hact. cbn [negb].
    unfold bind at 1. rewrite Ed. apply yield_event_eq. }
  clear Ed.
  rewrite Er. cbn [fst snd add_trace after_logs g_trace]. rewrite Ht.
  split; [reflexivity|]. split.
  { exists (g_trace st0 ++ tr)%list. repeat rewrite <- app_assoc. reflexivity. }
  split.
  { repeat rewrite executed_app. rewrite Hex. cbn [executed flat_map app st0
      add_trace after_logs g_trace initial_state].
    rewrite app_nil_r.
    clear - Hi. revert i Hi.
    induction (dc_pre_commands dc) as [|x l IH]; intros i Hi;
      [simpl in Hi; lia|].
    destruct i as [|i]; [reflexivity|].
    cbn [firstn nth app]. f_equal. apply IH. simpl in Hi. lia. }
  apply Forall_app. split; [|repeat constructor].
  apply Forall_app. split; [repeat constructor|].
  apply Forall_app. split; [exact Hnm|repeat constructor].
Qed.

Lemma X11_stream_pre_command_exception_witness :
  let pre := ["helm fetch x"; "helm lint"] in
  let r := deploy_stream broken_pre_world 5 None
             (sample_config pre "helm install" []) (sample_request "k") in
  fst r = Normal tt /\
  (exists before,
     g_trace (snd r) =
     (before ++
      [Exec "helm fetch x";
       Yield (Data (event EvError ("Error: " ++ "No such file or directory")))])%list) /\
  executed (g_trace (snd r)) = ["helm fetch x"] /\
  Forall no_main (g_trace (snd r)).
Proof.
  intros pre.
  refine (X11_stream_pre_command_exception broken_pre_world 5 None
            (sample_config pre "helm install" []) (sample_request "k")
            "helm"
            {| dc_command := "helm install"; dc_working_dir := None;
               dc_env_var := None; dc_pre_commands := pre;
               dc_log_sources := []; dc_namespace := None;
               dc_default_version := None |}
            0 "No such file or directory" _ _ _ _ _).
  - reflexivity.
  - reflexivity.
  - simpl. lia.
  - intros j Hj. lia.
  - reflexivity.
Defined.

(* ===================================================================== *)
(** * The output lines of the commands in the stream *)
(* ===================================================================== *)

Lemma trace_outputs_app a b :
  trace_outputs (a ++ b) = (trace_outputs a ++ trace_outputs b)%list.
Proof. apply flat_map_app. Qed.

Lemma trace_outputs_yields evs :
  trace_outputs (map yield_of evs) = queue_outputs evs.
Proof.
  induction evs as [|[t m] evs IH]; [reflexivity|].
  simpl. rewrite IH. destruct t; reflexivity.
Qed.

Lemma no_start_yields evs : existsb is_start_thread (map yield_of evs) = false.
Proof. induction evs as [|x evs IH]; [reflexivity|exact IH]. Qed.

Lemma outputs_of_lines lines :
  queue_outputs (map (fun line => (EvOutput, rstrip line)) lines) =
  map rstrip lines.
Proof. induction lines as [|l ls IH]; [reflexivity|]. simpl. f_equal. exact IH. Qed.

Lemma outputs_of_runner b :
  queue_outputs (put_pairs (run_command_async b)) = proc_outputs b.
Proof.
  rewrite <- (firstn_all (run_command_async b)).
  rewrite run_command_async_split at 2.
  rewrite firstn_app, put_pairs_app_list, queue_outputs_app.
  rewrite outputs_of_puts, outputs_of_epilogue, app_nil_r.
  apply firstn_all2.
  rewrite run_command_async_split, length_app.
  unfold puts_of, proc_outputs. rewrite !length_map. lia.
Qed.

Lemma pre_outputs_S w n :
  pre_outputs w (S n) = (pre_outputs w n ++ proc_outputs (pre_proc w n))%list.
Proof.
  unfold pre_outputs. rewrite seq_S, flat_map_app. simpl.
  rewrite app_nil_r. reflexivity.
Qed.

Lemma relays_refl st : relays st st.
Proof.
  split; [reflexivity|]. split; [apply advanced_refl|].
  exists []. rewrite app_nil_r. repeat split.
Qed.

Lemma relays_trans st1 st2 st3 :
  relays st1 st2 -> relays st2 st3 -> relays st1 st3.
Proof.
  intros (Hp & Ha & tr & Ht & Hs & Hq & Hx)
         (Hp' & Ha' & tr' & Ht' & Hs' & Hq' & Hx').
  split; [congruence|]. split; [eapply advanced_trans; eassumption|].
  exists (tr ++ tr')%list. split; [rewrite Ht', Ht, app_assoc; reflexivity|].
  split; [rewrite existsb_app, Hs, Hs'; reflexivity|].
  split; [|rewrite executed_app, Hx, Hx'; reflexivity].
  rewrite Hq, Hq', trace_outputs_app, app_assoc. reflexivity.
Qed.

Lemma relays_intro st st' tr evs :
  g_pres st' = g_pres st -> advanced st st' ->
  g_trace st' = (g_trace st ++ tr)%list ->
  existsb is_start_thread tr = false ->
  pending (g_shared st) (g_thread st) =
    (evs ++ pending (g_shared st') (g_thread st'))%list ->
  trace_outputs tr = queue_outputs evs ->
  executed tr = [] ->
  relays st st'.
Proof.
  intros Hp Ha Ht Hs Hq Ho Hx. split; [exact Hp|]. split; [exact Ha|].
  exists tr. split; [exact Ht|]. split; [exact Hs|]. split; [|exact Hx].
  rewrite Hq, queue_outputs_app, Ho. reflexivity.
Qed.

Lemma relays_started st st' : relays st st' -> started st' = started st.
Proof.
  intros (_ & _ & tr & Ht & Hs & _). unfold started.
  rewrite Ht, existsb_app, Hs. apply orb_false_r.
Qed.

Lemma relays_relayed st st' : relays st st' -> relayed st' = relayed st.
Proof.
  intros (_ & _ & tr & Ht & _ & Hq & _). unfold relayed.
  rewrite Ht, Hq, trace_outputs_app, app_assoc. reflexivity.
Qed.

Lemma relays_Relay w st st' : relays st st' -> Relay w st -> Relay w st'.
Proof.
  intros H R. unfold Relay, produced.
  rewrite (relays_relayed _ _ H), (relays_started _ _ H).
  destruct H as (Hp & _). rewrite Hp. exact R.
Qed.

Lemma relays_Relay0 w st st' : relays st st' -> Relay0 w st -> Relay0 w st'.
Proof.
  intros H (Hs & Hth & R). split; [|split].
  - rewrite (relays_started _ _ H). exact Hs.
  - destruct H as (_ & [n Hn] & _). rewrite Hth, run_holder_nil in Hn.
    injection Hn as <- _. reflexivity.
  - eapply relays_Relay; eassumption.
Qed.

Lemma running_advanced w st st' : running w st -> advanced st st' -> running w st'.
Proof.
  intros [n Hn] [m Hm]. exists (n + m). rewrite run_holder_add, Hn. exact Hm.
Qed.

Lemma relays_Relay1 w st st' : relays st st' -> Relay1 w st -> Relay1 w st'.
Proof.
  intros H (Hs & Hr & R). split; [|split].
  - rewrite (relays_started _ _ H). exact Hs.
  - eapply running_advanced; [exact Hr|apply H].
  - eapply relays_Relay; eassumption.
Qed.

Lemma relays_settled st st' : relays st st' -> settled st -> settled st'.
Proof.
  intros (_ & Ha & tr & Ht & _) [Hd|Hi].
  - left. eapply advanced_done; eassumption.
  - right. rewrite Ht. apply in_or_app. left. exact Hi.
Qed.

(** ** Computations that only relay *)

Lemma quiet_ret {A} (a : A) : quiet (ret a).
Proof. intros st. apply relays_refl. Qed.

Lemma quiet_return {A} : quiet (@return_ A).
Proof. intros st. apply relays_refl. Qed.

Lemma quiet_bind {A B} (m : M A) (k : A -> M B) :
  quiet m -> (forall a, quiet (k a)) -> quiet (bind m k).
Proof.
  intros Hm Hk st. unfold bind. specialize (Hm st).
  destruct (m st) as [[a| |e|] st1]; simpl in *; try exact Hm.
  eapply relays_trans; [exact Hm|apply Hk].
Qed.

Lemma quiet_for_each {A} (l : list A) (body : A -> M unit) :
  (forall x, quiet (body x)) -> quiet (for_each l body).
Proof.
  intros Hb. induction l as [|x l IH]; simpl.
  - apply quiet_ret.
  - apply quiet_bind; [apply Hb|intros _; exact IH].
Qed.

Lemma quiet_if {A} (c : bool) (m1 m2 : M A) :
  quiet m1 -> quiet m2 -> quiet (if c then m1 else m2).
Proof. destruct c; auto. Qed.

Lemma quiet_emit a :
  is_start_thread a = false -> trace_outputs [a] = [] -> executed [a] = [] ->
  quiet (emit a).
Proof.
  intros Hs Ho Hx st.
  apply relays_intro with (tr := [a]) (evs := []).
  - reflexivity.
  - exists 0. reflexivity.
  - reflexivity.
  - simpl. rewrite Hs. reflexivity.
  - reflexivity.
  - exact Ho.
  - exact Hx.
Qed.

Lemma quiet_yield_event t m : t <> EvOutput -> quiet (yield_event t m).
Proof.
  intros Ht. apply quiet_emit; [reflexivity| |reflexivity].
  destruct t; try reflexivity. contradiction.
Qed.

Lemma quiet_counter (f : GenState -> GenState) {A} (a : GenState -> A) :
  (forall st, g_trace (f st) = g_trace st /\ g_shared (f st) = g_shared st /\
              g_thread (f st) = g_thread st /\ g_pres (f st) = g_pres st) ->
  quiet (fun st => (Normal (a st), f st)).
Proof.
  intros H st. destruct (H st) as (H1 & H2 & H3 & H4).
  apply relays_intro with (tr := []) (evs := []).
  - exact H4.
  - exists 0. cbn [snd run_holder]. rewrite H2, H3. reflexivity.
  - cbn [snd]. rewrite H1, app_nil_r. reflexivity.
  - reflexivity.
  - cbn [snd app]. rewrite H2, H3. reflexivity.
  - reflexivity.
  - reflexivity.
Qed.

Section Relaying.

Variable w : World.

Lemma quiet_read_holder : quiet (read_holder w).
Proof.
  intros st.
  destruct (read_holder_spec w st) as (st' & E & Ht & Hp & Hc & Ha).
  rewrite E. cbn [snd].
  apply relays_intro with (tr := []) (evs := []).
  - apply Hc.
  - exact Ha.
  - rewrite app_nil_r. exact Ht.
  - reflexivity.
  - cbn [app]. symmetry. exact Hp.
  - reflexivity.
  - reflexivity.
Qed.

Lemma quiet_drain : quiet (drain w).
Proof.
  intros st.
  destruct (drain_spec w st) as (evs & st' & E & Ht & Hp & Hc & Ha).
  rewrite E. cbn [snd].
  apply relays_intro with (tr := map yield_of evs) (evs := evs).
  - apply Hc.
  - exact Ha.
  - exact Ht.
  - apply no_start_yields.
  - exact Hp.
  - apply trace_outputs_yields.
  - apply executed_yields.
Qed.

Lemma quiet_time_time : quiet (time_time w).
Proof.
  apply (quiet_counter
           (fun st =>
              {| g_trace := g_trace st; g_shared := g_shared st;
                 g_thread := g_thread st; g_ticks := g_ticks st;
                 g_pres := g_pres st; g_polls := g_polls st;
                 g_logs := g_logs st; g_clocks := S (g_clocks st);
                 g_checked := g_checked st |})
           (fun st => clock w (g_clocks st))).
  intros st. repeat split.
Qed.

Lemma quiet_next_poll : quiet (next_poll w).
Proof.
  apply (quiet_counter
           (fun st =>
              {| g_trace := g_trace st; g_shared := g_shared st;
                 g_thread := g_thread st; g_ticks := g_ticks st;
                 g_pres := g_pres st; g_polls := S (g_polls st);
                 g_logs := g_logs st; g_clocks := g_clocks st;
                 g_checked := g_checked st |})
           (fun st => poll_proc w (g_polls st))).
  intros st. repeat split.
Qed.

Lemma quiet_next_log : quiet (next_log w).
Proof.
  apply (quiet_counter
           (fun st =>
              {| g_trace := g_trace st; g_shared := g_shared st;
                 g_thread := g_thread st; g_ticks := g_ticks st;
                 g_pres := g_pres st; g_polls := g_polls st;
                 g_logs := S (g_logs st); g_clocks := g_clocks st;
                 g_checked := g_checked st |})
           (fun st => log_proc w (g_logs st))).
  intros st. repeat split.
Qed.

Lemma quiet_record_check rc : quiet (record_check rc).
Proof.
  apply (quiet_counter
           (fun st =>
              {| g_trace := g_trace st; g_shared := g_shared st;
                 g_thread := g_thread st; g_ticks := g_ticks st;
                 g_pres := g_pres st; g_polls := g_polls st;
                 g_logs := g_logs st; g_clocks := g_clocks st;
                 g_checked := Some rc |})
           (fun _ => tt)).
  intros st. repeat split.
Qed.

Lemma quiet_lines t (l : list string) :
  t <> EvOutput ->
  quiet (for_each l
           (fun line => if truthy (strip line) then yield_event t line else ret tt)).
Proof.
  intros Ht. apply quiet_for_each. intros line.
  apply quiet_if; [apply quiet_yield_event; exact Ht|apply quiet_ret].
Qed.

Lemma quiet_poll_pod_status ns last : quiet (poll_pod_status w ns last).
Proof.
  unfold poll_pod_status.
  apply quiet_bind; [apply quiet_emit; reflexivity|intros _].
  apply quiet_bind; [apply quiet_next_poll|intros r].
  destruct r; [|apply quiet_ret].
  apply quiet_if; [|apply quiet_ret].
  apply quiet_bind; [apply quiet_yield_event; discriminate|intros _].
  apply quiet_bind; [|intros _; apply quiet_ret].
  apply quiet_lines. discriminate.
Qed.

Lemma quiet_report_log_source v ls : quiet (report_log_source w v ls).
Proof.
  unfold report_log_source.
  apply quiet_bind; [apply quiet_yield_event; discriminate|intros _].
  apply quiet_bind; [apply quiet_emit; reflexivity|intros _].
  apply quiet_bind; [apply quiet_next_log|intros r].
  destruct r; [apply quiet_lines|apply quiet_yield_event]; discriminate.
Qed.

Lemma quiet_report_final_status v sources :
  quiet (report_final_status w v sources).
Proof.
  unfold report_final_status.
  apply quiet_bind; [apply quiet_read_holder|intros h].
  apply quiet_bind; [apply quiet_record_check|intros _].
  apply quiet_if.
  - apply quiet_bind; [apply quiet_yield_event; discriminate|intros _].
    apply quiet_bind; [apply quiet_yield_event; discriminate|intros _].
    apply quiet_bind; [|intros _; apply quiet_emit; reflexivity].
    apply quiet_for_each. intros ls. apply quiet_report_log_source.
  - apply quiet_bind; [apply quiet_read_holder|intros h1].
    apply quiet_bind; [apply quiet_read_holder|intros h2].
    apply quiet_bind; [apply quiet_yield_event; discriminate|intros _].
    apply quiet_if; [apply quiet_lines; discriminate|apply quiet_ret].
Qed.

Lemma quiet_keeps (I : GenState -> Prop) {A} (m : M A) :
  (forall st st', relays st st' -> I st -> I st') -> quiet m -> keeps I m.
Proof. intros HI Hm st H. eapply HI; [apply Hm|exact H]. Qed.

(** ** The pre-commands *)

Lemma keeps0_execute_command_stream cmd :
  keeps (Relay0 w) (execute_command_stream w cmd).
Proof.
  intros st (Hs & Hth & R).
  unfold execute_command_stream, bind. simpl.
  assert (I' : forall r, Relay0 w (snd (r : Res Result,
    {| g_trace := (g_trace st ++ [Exec cmd])%list;
       g_shared :=
         {| holder := holder (g_shared st);
            log_queue :=
              (log_queue (g_shared st) ++
               map (fun line => (EvOutput, rstrip line))
                 (read_lines (pre_proc w (g_pres st))))%list |};
       g_thread := g_thread st; g_ticks := g_ticks st;
       g_pres := S (g_pres st); g_polls := g_polls st;
       g_logs := g_logs st; g_clocks := g_clocks st;
       g_checked := g_checked st |}))).
  { intros r. cbn [snd].
    assert (Hs' : forall sh th n,
              started {| g_trace := (g_trace st ++ [Exec cmd])%list;
                         g_shared := sh; g_thread := th; g_ticks := g_ticks st;
                         g_pres := n; g_polls := g_polls st;
                         g_logs := g_logs st; g_clocks := g_clocks st;
                         g_checked := g_checked st |} = false).
    { intros. unfold started. cbn [g_trace]. rewrite existsb_app.
      fold (started st). rewrite Hs. reflexivity. }
    split; [apply Hs'|]. split; [exact Hth|].
    unfold Relay, produced. rewrite Hs'.
    unfold Relay, produced, relayed, pending in R. rewrite Hs, Hth in R.
    unfold relayed, pending. cbn [g_trace g_shared g_thread g_pres log_queue].
    rewrite Hth, pre_outputs_S, trace_outputs_app. cbn [trace_outputs flat_map].
    cbn [put_pairs flat_map] in *. rewrite !app_nil_r in *.
    rewrite queue_outputs_app, outputs_of_lines, app_assoc, R.
    reflexivity. }
  destruct (p_end (pre_proc w (g_pres st))); apply I'.
Qed.

Lemma keeps0_quiet {A} (m : M A) : quiet m -> keeps (Relay0 w) m.
Proof. apply quiet_keeps. apply relays_Relay0. Qed.

Lemma keeps1_quiet {A} (m : M A) : quiet m -> keeps (Relay1 w) m.
Proof. apply quiet_keeps. apply relays_Relay1. Qed.

Lemma keeps0_run_pre_commands cmds : keeps (Relay0 w) (run_pre_commands w cmds).
Proof.
  unfold run_pre_commands. apply keeps_for_each. intros [idx c].
  unfold pre_command_step.
  apply keeps_bind; [apply keeps0_quiet, quiet_yield_event; discriminate|intros _].
  apply keeps_bind; [apply keeps0_quiet, quiet_yield_event; discriminate|intros _].
  apply keeps_bind; [apply keeps0_execute_command_stream|intros r].
  apply keeps_bind; [apply keeps0_quiet, quiet_drain|intros _].
  apply keeps_if; [|apply keeps_ret].
  apply keeps_bind; [apply keeps0_quiet, quiet_yield_event; discriminate|intros _].
  apply keeps_bind; [apply keeps0_quiet, quiet_yield_event; discriminate|intros _].
  apply keeps_return.
Qed.

End Relaying.

(** ** Rules for [triple] *)

Lemma triple_bind {A B} P (m : M A) (k : A -> M B) Q R E :
  triple P m Q E -> (forall a, triple (Q a) (k a) R E) ->
  triple P (bind m k) R E.
Proof.
  intros Hm Hk st H. unfold bind. specialize (Hm st H).
  destruct (m st) as [[a| |e|] st1]; try exact Hm.
  apply Hk. exact Hm.
Qed.

Lemma triple_keeps {A} (I E : GenState -> Prop) (m : M A) :
  keeps I m -> (forall st, I st -> E st) -> triple I m (fun _ => I) E.
Proof.
  intros Hk HE st H. specialize (Hk st H).
  destruct (m st) as [[a| |e|] st1]; simpl in Hk; auto.
Qed.

Lemma triple_pre {A} (P P' : GenState -> Prop) (m : M A) Q E :
  (forall st, P' st -> P st) -> triple P m Q E -> triple P' m Q E.
Proof. intros HP Hm st H. apply Hm. apply HP. exact H. Qed.

Lemma triple_post {A} P (m : M A) (Q Q' : A -> GenState -> Prop) E :
  (forall a st, Q a st -> Q' a st) -> triple P m Q E -> triple P m Q' E.
Proof.
  intros HQ Hm st H. specialize (Hm st H).
  destruct (m st) as [[a| |e|] st1]; auto.
Qed.

Lemma triple_ret {A} (P : GenState -> Prop) (a : A) (Q : A -> GenState -> Prop) E :
  (forall st, P st -> Q a st) -> triple P (ret a) Q E.
Proof. intros H st HP. simpl. apply H. exact HP. Qed.

(** An invariant step followed by the rest. *)
Lemma triple_step {A B} (I E : GenState -> Prop) (m : M A) (k : A -> M B) R :
  keeps I m -> (forall st, I st -> E st) ->
  (forall a, triple I (k a) R E) ->
  triple I (bind m k) R E.
Proof.
  intros Hk HE Hr.
  apply triple_bind with (Q := fun _ => I); [|exact Hr].
  apply triple_keeps; assumption.
Qed.

Section RelayStream.

Variable w : World.

Lemma Relay0_Relay st : Relay0 w st -> Relay w st.
Proof. intros (_ & _ & H). exact H. Qed.

Lemma Relay1_Relay st : Relay1 w st -> Relay w st.
Proof. intros (_ & _ & H). exact H. Qed.

Lemma Relay0_initial : Relay0 w initial_state.
Proof. repeat split. Qed.

(** Starting the thread: the lines of the main command become pending. *)
Lemma start_thread_triple cmd :
  triple (Relay0 w) (start_thread w cmd) (fun _ => Relay1 w) (Relay w).
Proof.
  intros st (Hs & Hth & R). unfold start_thread, bind. simpl.
  assert (Hs' : forall sh th,
            started {| g_trace := (g_trace st ++ [StartThread cmd])%list;
                       g_shared := sh; g_thread := th; g_ticks := g_ticks st;
                       g_pres := g_pres st; g_polls := g_polls st;
                       g_logs := g_logs st; g_clocks := g_clocks st;
                       g_checked := g_checked st |} = true).
  { intros. unfold started. cbn [g_trace]. rewrite existsb_app.
    apply orb_true_r. }
  unfold set_shared. cbn [g_trace g_shared g_thread g_ticks g_pres g_polls
                           g_logs g_clocks g_checked log_queue].
  split; [apply Hs'|]. split.
  - exists 0. reflexivity.
  - unfold Relay, produced. rewrite Hs'.
    unfold Relay, produced, relayed, pending in R. rewrite Hs, Hth in R.
    cbn [put_pairs flat_map] in R. rewrite !app_nil_r in R.
    unfold relayed, pending. cbn [g_trace g_shared g_thread g_pres log_queue].
    rewrite trace_outputs_app. cbn [trace_outputs flat_map].
    rewrite app_nil_r, queue_outputs_app, outputs_of_runner, app_assoc, R.
    reflexivity.
Qed.

(** The draining loop leaves the queue empty. *)
Lemma drain_loop_empties f : forall st,
  List.length (pending (g_shared st) (g_thread st)) < f ->
  log_queue (g_shared (snd (drain_loop w f st))) = [].
Proof.
  induction f as [|f IH]; intros st Hf; [lia|].
  simpl drain_loop.
  destruct (queue_get_spec w st)
    as (st1 & Hc & Ha & Htr & [(Hq & Hp & He)|(x & Hq & Hp)]).
  - rewrite (bind_normal _ Hq). exact He.
  - rewrite (bind_normal _ Hq). destruct x as [t m].
    unfold yield_event at 1. rewrite (bind_normal _ (emit_eq _ _)).
    apply IH. rewrite Hp in Hf. simpl in Hf. simpl. lia.
Qed.

Lemma drain_empties st : log_queue (g_shared (snd (drain w st))) = [].
Proof.
  unfold drain. apply drain_loop_empties.
  unfold pending. rewrite length_app.
  pose proof (put_pairs_length (g_thread st)). lia.
Qed.

Lemma read_holder_triple (I : GenState -> Prop) :
  (forall st st', relays st st' -> I st -> I st') ->
  triple I (read_holder w)
    (fun h st => I st /\ h = holder (g_shared st)) (Relay w).
Proof.
  intros HI st H.
  pose proof (quiet_read_holder w st) as Hq.
  destruct (read_holder_spec w st) as (st' & E & _).
  rewrite E in Hq |- *. simpl in Hq. split; [|reflexivity].
  eapply HI; eassumption.
Qed.

(** The monitoring loop is left with [done] seen or the timeout
    announced. *)
Lemma monitor_loop_triple ns start : forall fuel last polls iter,
  polls < 2 ->
  triple (Relay1 w) (monitor_loop w fuel ns start last polls iter)
    (fun _ st => Relay1 w st /\ settled st) (Relay w).
Proof.
  induction fuel as [|f IH]; intros last polls iter Hp.
  - intros st H. simpl. apply Relay1_Relay. exact H.
  - rewrite monitor_loop_unfold.
    apply triple_step; [apply keeps1_quiet, quiet_read_holder
                       |apply Relay1_Relay|intros h].
    assert (Hlt : (polls <? 2)%nat = true) by (apply Nat.ltb_lt; exact Hp).
    rewrite Hlt, orb_true_r.
    apply triple_step; [apply keeps1_quiet, quiet_emit; reflexivity
                       |apply Relay1_Relay|intros _].
    apply triple_step; [apply keeps1_quiet, quiet_drain
                       |apply Relay1_Relay|intros _].
    apply triple_bind
      with (Q := fun h st => Relay1 w st /\ h = holder (g_shared st)).
    { apply read_holder_triple. apply relays_Relay1. }
    intros h'. cbv zeta.
    assert (Hrest : forall polls', polls' < 2 ->
      triple (fun st => Relay1 w st /\ h' = holder (g_shared st))
        (last' <- poll_pod_status w ns last ;;
         now <- time_time w ;;
         if (now - start >? max_monitor_time)%Z
         then
           yield_event EvInfo timeout_message ;;
           ret {| iterations := S iter; reason := TimedOut (now - start) |}
         else
           emit (Sleep poll_interval) ;;
           monitor_loop w f ns start last' polls' (S iter))
        (fun _ st => Relay1 w st /\ settled st) (Relay w)).
    { intros polls' Hp'.
      apply triple_pre with (P := Relay1 w); [intros st [H _]; exact H|].
      apply triple_step; [apply keeps1_quiet, quiet_poll_pod_status
                         |apply Relay1_Relay|intros last'].
      apply triple_step; [apply keeps1_quiet, quiet_time_time
                         |apply Relay1_Relay|intros now].
      destruct (now - start >? max_monitor_time)%Z.
      - apply triple_bind with (Q := fun _ st => Relay1 w st /\ settled st).
        + intros st H. rewrite yield_event_eq. split.
          * pose proof (quiet_yield_event EvInfo timeout_message) as Hq.
            eapply relays_Relay1; [|exact H].
            specialize (Hq ltac:(discriminate) st).
            rewrite yield_event_eq in Hq. exact Hq.
          * right. cbn [add_trace after_logs g_trace].
            apply in_or_app. right. left. reflexivity.
        + intros _. apply triple_ret. auto.
      - apply triple_step; [apply keeps1_quiet, quiet_emit; reflexivity
                           |apply Relay1_Relay|intros _].
        apply IH. exact Hp'. }
    destruct (done h') eqn:Hd.
    + cbn [andb]. destruct (2 <=? S polls)%nat eqn:Hle.
      * apply triple_ret. intros st [H1 H2]. split; [exact H1|].
        left. rewrite <- H2. exact Hd.
      * apply Hrest. apply Nat.leb_gt in Hle. exact Hle.
    + cbn [andb]. apply Hrest. exact Hp.
Qed.

(** From the ['start'] event to the last draining of the queue. *)
Lemma run_deployment_triple fuel dt dc :
  triple (Relay0 w) (run_deployment w fuel dt dc)
    (fun _ st => Relay1 w st /\ drained st) (Relay w).
Proof.
  unfold run_deployment. cbv zeta.
  apply triple_step; [apply keeps0_quiet, quiet_yield_event; discriminate
                     |apply Relay0_Relay|intros _].
  apply triple_step; [apply keeps0_run_pre_commands|apply Relay0_Relay|intros _].
  apply triple_step; [apply keeps0_quiet, quiet_yield_event; discriminate
                     |apply Relay0_Relay|intros _].
  apply triple_step; [apply keeps0_quiet, quiet_yield_event; discriminate
                     |apply Relay0_Relay|intros _].
  apply triple_bind with (Q := fun _ => Relay1 w); [apply start_thread_triple|].
  intros _.
  apply triple_bind with (Q := fun _ st => Relay1 w st /\ settled st).
  { unfold monitor.
    apply triple_step; [apply keeps1_quiet, quiet_time_time
                       |apply Relay1_Relay|intros t].
    apply monitor_loop_triple. lia. }
  intros _.
  assert (HI : forall st st', relays st st' ->
                 Relay1 w st /\ settled st -> Relay1 w st' /\ settled st').
  { intros st st' H [H1 H2]. split.
    - eapply relays_Relay1; eassumption.
    - eapply relays_settled; eassumption. }
  apply triple_step with (I := fun st => Relay1 w st /\ settled st).
  { apply quiet_keeps; [exact HI|]. apply quiet_emit; reflexivity. }
  { intros st [H _]. apply Relay1_Relay. exact H. }
  intros _ st [H1 H2].
  pose proof (quiet_drain w st) as Hq.
  pose proof (drain_empties st) as He.
  destruct (drain_spec w st) as (evs & st' & E & _).
  rewrite E in Hq, He |- *. cbn [snd] in Hq, He.
  split; [eapply relays_Relay1; eassumption|].
  destruct (relays_settled _ _ Hq H2) as [Hd|Hi].
  - left. split; assumption.
  - right. exact Hi.
Qed.

Lemma run_thread_skipn n : forall ops sh,
  fst (run_thread n ops sh) = skipn n ops.
Proof.
  induction n as [|n IH]; intros ops sh; [reflexivity|].
  destruct ops as [|op ops]; [reflexivity|]. simpl. apply IH.
Qed.

(** Once [done] is set the cell holds the exit code and the captured text,
    and the runner has no line left to put. *)
Lemma running_done st :
  running w st -> done (holder (g_shared st)) = true ->
  holder (g_shared st) =
    {| done := true; returncode := Some (exit_code (main_proc w));
       stdout := captured (main_proc w) |} /\
  queue_outputs (put_pairs (g_thread st)) = [].
Proof.
  intros [n Hn] Hd.
  set (b := main_proc w) in *.
  set (sh0 := {| holder := initial_holder; log_queue := [] |}).
  destruct (run_thread_holder n (run_command_async b) sh0) as [H1 H2].
  cbn [holder sh0] in H1, H2. rewrite Hn in H1, H2. cbn [fst snd] in H1, H2.
  pose proof (runner_phases b [] n) as Hph. cbv zeta in Hph.
  unfold runner_after in Hph. fold sh0 in Hph. rewrite H2 in Hph.
  destruct Hph as [(_ & Hh & _)|[(_ & _ & Hh)|[(_ & _ & Hh)|(Hk & Hh)]]];
    try (rewrite Hh in Hd; discriminate).
  split; [exact Hh|].
  rewrite <- H1, run_thread_skipn, run_command_async_split, skipn_app.
  rewrite skipn_all2 by lia. cbn [app].
  remember (n - List.length (puts_of b)) as m eqn:Em.
  destruct m as [|[|[|m]]]; try lia.
  unfold epilogue. destruct (p_end b); cbn [skipn].
  - rewrite skipn_nil. reflexivity.
  - destruct m; cbn [skipn]; [reflexivity|]. rewrite skipn_nil. reflexivity.
Qed.

(** What holds of the output lines at the end of every run. *)
Lemma stream_relay fuel e c req :
  let st := snd (deploy_stream w fuel e c req) in
  Relay w st /\
  (g_checked st <> None -> ~ In timeout_action (g_trace st) ->
   started st = true /\
   queue_outputs (pending (g_shared st) (g_thread st)) = [] /\
   g_checked st = Some (Some (exit_code (main_proc w)))).
Proof.
  cbv zeta. remember (deploy_stream w fuel e c req) as r eqn:Er.
  unfold deploy_stream, generate, generate_body in Er.
  destruct (negb (truthy (get_default (apiKey req) ""))).
  { subst r. split; [reflexivity|]. intros H. exfalso. apply H. reflexivity. }
  destruct (active_deployment e c) as [[dt dc]|];
    [|subst r; split; [reflexivity|]; intros H; exfalso; apply H; reflexivity].
  pose proof (run_deployment_triple fuel dt dc initial_state Relay0_initial) as HT.
  pose proof (keeps_run_deployment w fuel dt dc initial_state (Inv_initial w)) as HI.
  unfold bind in Er.
  destruct (run_deployment w fuel dt dc initial_state) as [[[]| |x|] st1];
    cbn [snd] in HI.
  - destruct HT as [H1 Hdr].
    pose proof (quiet_report_final_status w (version_env req dc)
                  (dc_log_sources dc) st1) as Hq.
    destruct (report_final_status_spec w (version_env req dc)
                (dc_log_sources dc) st1) as (st2 & st & E & Ha2 & Hchk & _).
    rewrite E in Hq, Er. cbn [snd] in Hq. subst r. cbn [snd].
    pose proof (relays_Relay1 w _ _ Hq H1) as (Hs & Hr & R).
    split; [exact R|]. intros _ Hno.
    destruct Hdr as [[Hd He]|Hi].
    + destruct H1 as (_ & Hr1 & _).
      destruct (running_done st1 Hr1 Hd) as [Hh Hth].
      split; [exact Hs|]. split.
      * destruct Hq as (_ & _ & tr & _ & _ & Hp & _).
        unfold pending in Hp at 1. rewrite queue_outputs_app, He, Hth in Hp.
        cbn [queue_outputs flat_map app] in Hp. symmetry in Hp.
        apply app_eq_nil in Hp. apply Hp.
      * rewrite Hchk.
        pose proof (running_advanced w _ _ Hr1 Ha2) as Hr2.
        pose proof (advanced_done _ _ Ha2 Hd) as Hd2.
        destruct (running_done st2 Hr2 Hd2) as [Hh2 _].
        rewrite Hh2. reflexivity.
    + exfalso. apply Hno.
      destruct Hq as (_ & _ & tr & Ht & _). rewrite Ht.
      apply in_or_app. left. exact Hi.
  - subst r. cbn [snd]. split; [exact HT|].
    intros H. exfalso. apply H. apply HI.
  - rewrite yield_event_eq in Er. subst r. cbn [snd]. split.
    + eapply relays_Relay; [|exact HT].
      pose proof (quiet_yield_event EvError ("Error: " ++ x)
                    ltac:(discriminate) st1) as Hq.
      rewrite yield_event_eq in Hq. exact Hq.
    + intros H. exfalso. apply H.
      apply (keeps_yield_event w EvError ("Error: " ++ x)
               ltac:(discriminate) st1 HI).
  - subst r. cbn [snd]. split; [exact HT|].
    intros H. exfalso. apply H. apply HI.
Qed.

End RelayStream.

(** X12. The streaming endpoint relays the output of its commands
    faithfully: at the end of every run, however it ends, the ['output']
    events sent, followed by the lines still in the queue or still to be
    put there by the runner, are exactly the lines the pre-commands run so
    far and, once it is started, the main command print, in order: no line
    is sent twice, invented or reordered. *)
Theorem X12_output_relayed_in_order :
  forall (w : World) (fuel : nat) (env_deploy_type : option string)
         (config : Config) (req : DeploymentRequest),
    let st := snd (deploy_stream w fuel env_deploy_type config req) in
    (trace_outputs (g_trace st) ++
     queue_outputs (pending (g_shared st) (g_thread st)))%list =
    (pre_outputs w (g_pres st) ++
     if started st then proc_outputs (main_proc w) else [])%list.
Proof.
  intros w fuel e c req st.
  exact (proj1 (stream_relay w fuel e c req)).
Qed.

(** X13. When the final status is reported and the monitoring did not time
    out, the runner had finished: every line of the pre-commands and of
    the main command was sent as an ['output'] event, and the exit code the
    final status test read is the exit code of the main command (1 when it
    could not be run). *)
Theorem X13_settled_stream_is_complete :
  forall (w : World) (fuel : nat) (env_deploy_type : option string)
         (config : Config) (req : DeploymentRequest),
    let st := snd (deploy_stream w fuel env_deploy_type config req) in
    g_checked st <> None ->
    ~ In timeout_action (g_trace st) ->
    trace_outputs (g_trace st) =
      (pre_outputs w (g_pres st) ++ proc_outputs (main_proc w))%list /\
    g_checked st = Some (Some (exit_code (main_proc w))).
Proof.
  intros w fuel e c req st Hchk Hno.
  destruct (stream_relay w fuel e c req) as [R H]. fold st in R, H.
  destruct (H Hchk Hno) as (Hs & Hq & Hc).
  split; [|exact Hc].
  unfold Relay, relayed, produced in R. rewrite Hq, Hs, app_nil_r in R.
  exact R.
Qed.

Lemma X13_settled_stream_witness :
  let w := ticking_world ["pulling" ++ String nl ""; "installed" ++ String nl ""]
             0 100 in
  let st := snd (deploy_stream w 5 None
                   (sample_config ["helm fetch x"] "helm install" [])
                   (sample_request "k")) in
  trace_outputs (g_trace st) = ["ok"; "pulling"; "installed"] /\
  g_checked st = Some (Some 0%Z).
Proof.
  intros w st.
  assert (H1 : g_checked st <> None) by (vm_compute; discriminate).
  assert (H2 : ~ In timeout_action (g_trace st)).
  { vm_compute. intros H.
    repeat (destruct H as [H|H]; [discriminate H|]). exact H. }
  exact (X13_settled_stream_is_complete w 5 None
           (sample_config ["helm fetch x"] "helm install" [])
           (sample_request "k") H1 H2).
Defined.

(* ===================================================================== *)
(** * The stream ends *)
(* ===================================================================== *)








Section Finishing.

Variable w : World.









End Finishing.



(* ===================================================================== *)
(** * When the main command is started *)
(* ===================================================================== *)

Lemma quiet_out_of_fuel {A} : quiet (@out_of_fuel A).
Proof. intros st. apply relays_refl. Qed.

Lemma no_main_not_started tr :
  Forall no_main tr -> existsb is_start_thread tr = false.
Proof.
  induction 1 as [|a tr Ha _ IH]; [reflexivity|].
  destruct a; simpl in *; try exact IH. contradiction.
Qed.

Section MainStarted.

Variable w : World.

(** A loop over the pre-commands that ends normally has run them all, and
    each one has exited with 0. *)
Lemma pre_commands_normal n : forall cmds idxs st st',
  List.length idxs = List.length cmds ->
  for_each (combine idxs cmds) (pre_command_step w n) st = (Normal tt, st') ->
  (forall j, j < List.length cmds ->
     p_end (pre_proc w (g_pres st + j)) = Exit 0) /\
  g_pres st' = g_pres st + List.length cmds /\
  exists tr,
    g_trace st' = (g_trace st ++ tr)%list /\
    executed tr = cmds /\ Forall no_main tr.
Proof.
  induction cmds as [|cmd rest IH]; intros idxs st st' Hlen E.
  - destruct idxs; [|discriminate]. simpl in E. injection E as <-.
    split; [intros j Hj; simpl in Hj; lia|].
    split; [simpl; lia|].
    exists []. rewrite app_nil_r. repeat split. constructor.
  - destruct idxs as [|idx idxs]; [discriminate|].
    cbn [combine for_each] in E.
    destruct (p_end (pre_proc w (g_pres st))) as [rc|err] eqn:Hend.
    + destruct (pre_command_step_spec w n idx cmd st rc Hend)
        as (tr & st1 & Hex & Hnm & Hp & H).
      destruct (rc =? 0)%Z eqn:Hrc.
      * destruct H as [E1 Ht]. rewrite (bind_normal _ E1) in E.
        apply Z.eqb_eq in Hrc. subst rc.
        apply IH in E; [|simpl in Hlen; lia].
        destruct E as (Hok & Hp' & tr' & Ht' & Hex' & Hnm').
        split; [|split].
        -- intros j Hj. destruct j as [|j].
           ++ rewrite Nat.add_0_r. exact Hend.
           ++ replace (g_pres st + S j) with (g_pres st1 + j) by lia.
              apply Hok. simpl in Hj. lia.
        -- simpl. lia.
        -- exists (tr ++ tr')%list.
           split; [rewrite Ht', Ht, app_assoc; reflexivity|].
           split; [rewrite executed_app, Hex, Hex'; reflexivity|].
           apply Forall_app. split; assumption.
      * destruct H as [E1 _]. unfold bind in E. rewrite E1 in E. discriminate.
    + destruct (pre_command_step_raise w n idx cmd st err Hend) as (st1 & E1 & _).
      unfold bind in E. rewrite E1 in E. discriminate.
Qed.

Lemma quiet_monitor_loop fuel : forall ns start last polls iter,
  quiet (monitor_loop w fuel ns start last polls iter).
Proof.
  induction fuel as [|f IH]; intros ns start last polls iter; simpl.
  - apply quiet_out_of_fuel.
  - apply quiet_bind; [apply quiet_read_holder|intros h].
    apply quiet_if; [|apply quiet_ret].
    apply quiet_bind; [apply quiet_emit; reflexivity|intros _].
    apply quiet_bind; [apply quiet_drain|intros _].
    apply quiet_bind; [apply quiet_read_holder|intros h'].
    apply quiet_if; [apply quiet_ret|].
    apply quiet_bind; [apply quiet_poll_pod_status|intros last'].
    apply quiet_bind; [apply quiet_time_time|intros now].
    apply quiet_if.
    + apply quiet_bind; [apply quiet_yield_event; discriminate|intros _].
      apply quiet_ret.
    + apply quiet_bind; [apply quiet_emit; reflexivity|intros _]. apply IH.
Qed.

Lemma main_started_relays dc st st' :
  relays st st' -> main_started w dc st -> main_started w dc st'.
Proof.
  intros (Hp & _ & tr & Ht & Hs & _ & Hx)
         (before & after & Hb & H1 & H2 & H3 & H4 & H5 & H6).
  exists before, (after ++ tr)%list.
  split; [rewrite Ht, Hb, <- app_assoc; reflexivity|].
  split; [exact H1|]. split; [exact H2|].
  split; [rewrite existsb_app, H3, Hs; reflexivity|].
  split; [rewrite executed_app, H4, Hx; reflexivity|].
  split; [congruence|exact H6].
Qed.

Lemma pre_done_yield dc t m : keeps (pre_done w dc) (yield_event t m).
Proof.
  intros st (H1 & H2 & H3 & H4). rewrite yield_event_eq.
  unfold pre_done. cbn [snd add_trace after_logs g_trace g_pres].
  split; [rewrite executed_app, H1; apply app_nil_r|].
  split; [apply Forall_app; split; [exact H2|repeat constructor]|].
  split; assumption.
Qed.

Lemma pre_done_not_started dc st : pre_done w dc st -> started st = false.
Proof. intros (_ & H & _). apply no_main_not_started. exact H. Qed.

Lemma run_deployment_started fuel dt dc :
  triple (fun st => st = initial_state) (run_deployment w fuel dt dc)
    (fun _ => main_started w dc)
    (fun st => started st = false \/ main_started w dc st).
Proof.
  unfold run_deployment. cbv zeta.
  set (st0 := add_trace
                [Yield (Data (event EvStart ("Starting " ++ dt ++ " deployment...")))]
                initial_state).
  assert (HE0 : forall st, pre_done w dc st ->
                  started st = false \/ main_started w dc st).
  { intros st H. left. eapply pre_done_not_started. exact H. }
  assert (HE1 : forall st, main_started w dc st ->
                  started st = false \/ main_started w dc st) by auto.
  assert (HK : forall A (m : M A), quiet m -> keeps (main_started w dc) m).
  { intros A m. apply quiet_keeps. apply main_started_relays. }
  apply triple_bind with (Q := fun _ st => st = st0).
  { intros st ->. rewrite yield_event_eq. reflexivity. }
  intros _.
  apply triple_bind with (Q := fun _ => pre_done w dc).
  { intros st ->.
    assert (R0 : Relay0 w st0) by (repeat split).
    pose proof (keeps0_run_pre_commands w (dc_pre_commands dc) st0 R0) as HR.
    unfold run_pre_commands in *.
    destruct (for_each
                (combine (seq 1 (List.length (dc_pre_commands dc)))
                   (dc_pre_commands dc))
                (pre_command_step w (List.length (dc_pre_commands dc))) st0)
      as [[[]| |x|] st1] eqn:E; cbn [snd] in HR;
      try (left; apply HR).
    apply pre_commands_normal in E; [|apply length_seq].
    destruct E as (Hok & Hp & tr & Ht & Hex & Hnm).
    split; [rewrite Ht, executed_app, Hex; reflexivity|].
    split; [rewrite Ht; apply Forall_app; split;
            [repeat constructor|exact Hnm]|].
    split; [exact Hp|exact Hok]. }
  intros _.
  apply triple_step; [apply pre_done_yield|exact HE0|intros _].
  apply triple_step; [apply pre_done_yield|exact HE0|intros _].
  apply triple_bind with (Q := fun _ => main_started w dc).
  { intros st (H1 & H2 & H3 & H4). unfold start_thread, bind. simpl.
    exists (g_trace st), []. repeat split; auto. }
  intros _.
  apply triple_step; [|exact HE1|intros _].
  { apply HK. unfold monitor.
    apply quiet_bind; [apply quiet_time_time|intros t].
    apply quiet_monitor_loop. }
  apply triple_step; [apply HK, quiet_emit; reflexivity|exact HE1|intros _].
  apply triple_keeps; [apply HK, quiet_drain|exact HE1].
Qed.

End MainStarted.

(** X15. The streaming endpoint starts the main command at most once, and
    only after every pre-command has been run in order and has exited with
    0; no pre-command is run after it. *)
Theorem X15_main_command_started_after_pre_commands :
  forall (w : World) (fuel : nat) (env_deploy_type : option string)
         (config : Config) (req : DeploymentRequest),
    let st := snd (deploy_stream w fuel env_deploy_type config req) in
    started st = true ->
    exists deploy_type dc before after,
      active_deployment env_deploy_type config = Some (deploy_type, dc) /\
      g_trace st = (before ++ StartThread (dc_command dc) :: after)%list /\
      executed before = dc_pre_commands dc /\
      Forall no_main before /\
      existsb is_start_thread after = false /\
      executed after = [] /\
      (forall j, j < List.length (dc_pre_commands dc) ->
                 p_end (pre_proc w j) = Exit 0).
Proof.
  intros w fuel e c req st Hst. unfold st in *. clear st.
  remember (deploy_stream w fuel e c req) as r eqn:Er.
  unfold deploy_stream, generate, generate_body in Er.
  destruct (negb (truthy (get_default (apiKey req) "")));
    [subst r; discriminate Hst|].
  destruct (active_deployment e c) as [[dt dc]|]; [|subst r; discriminate Hst].
  pose proof (run_deployment_started w fuel dt dc initial_state eq_refl) as HT.
  assert (Hfin : main_started w dc (snd r)).
  { unfold bind in Er.
    destruct (run_deployment w fuel dt dc initial_state) as [[[]| |x|] st1].
    - pose proof (quiet_report_final_status w (version_env req dc)
                    (dc_log_sources dc) st1) as Hq.
      destruct (report_final_status_spec w (version_env req dc)
                  (dc_log_sources dc) st1) as (st2 & st & E & _).
      rewrite E in Hq, Er. subst r. cbn [snd] in *.
      eapply main_started_relays; eassumption.
    - subst r. cbn [snd] in *. destruct HT as [H|H]; [congruence|exact H].
    - rewrite yield_event_eq in Er. subst r. cbn [snd] in *.
      pose proof (quiet_yield_event EvError ("Error: " ++ x)
                    ltac:(discriminate) st1) as Hq.
      rewrite yield_event_eq in Hq. cbn [snd] in Hq.
      destruct HT as [H|H].
      + rewrite (relays_started _ _ Hq) in Hst. congruence.
      + eapply main_started_relays; eassumption.
    - subst r. cbn [snd] in *. destruct HT as [H|H]; [congruence|exact H]. }
  destruct Hfin as (before & after & H1 & H2 & H3 & H4 & H5 & _ & H7).
  exists dt, dc, before, after. repeat split; assumption.
Qed.

Lemma X15_main_command_started_witness :
  let w := ticking_world ["pulling" ++ String nl ""] 0 100 in
  let st := snd (deploy_stream w 5 None
                   (sample_config ["helm repo update"; "helm fetch x"]
                      "helm install" [])
                   (sample_request "k")) in
  exists deploy_type dc before after,
    active_deployment None
      (sample_config ["helm repo update"; "helm fetch x"] "helm install" []) =
      Some (deploy_type, dc) /\
    g_trace st = (before ++ StartThread (dc_command dc) :: after)%list /\
    executed before = dc_pre_commands dc /\
    Forall no_main before /\
    existsb is_start_thread after = false /\
    executed after = [] /\
    (forall j, j < List.length (dc_pre_commands dc) ->
               p_end (pre_proc w j) = Exit 0).
Proof.
  intros w st.
  apply (X15_main_command_started_after_pre_commands w 5 None
           (sample_config ["helm repo update"; "helm fetch x"] "helm install" [])
           (sample_request "k")).
  vm_compute. reflexivity.
Defined.

(* ===================================================================== *)
(** * The report of a run that was not cut by the timeout *)
(* ===================================================================== *)

Section Settled.

Variable w : World.

(** A run that reaches the final status without the timeout goes through
    the report from a state in which the runner has finished. *)
Lemma stream_settled fuel e c req :
  let st := snd (deploy_stream w fuel e c req) in
  g_checked st <> None -> ~ In timeout_action (g_trace st) ->
  exists dt dc st1,
    active_deployment e c = Some (dt, dc) /\
    running w st1 /\ done (holder (g_shared st1)) = true /\
    report_final_status w (version_env req dc) (dc_log_sources dc) st1 =
      (Normal tt, st).
Proof.
  cbv zeta. remember (deploy_stream w fuel e c req) as r eqn:Er.
  unfold deploy_stream, generate, generate_body in Er.
  destruct (negb (truthy (get_default (apiKey req) ""))).
  { subst r. intros H. exfalso. apply H. reflexivity. }
  destruct (active_deployment e c) as [[dt dc]|];
    [|subst r; intros H; exfalso; apply H; reflexivity].
  pose proof (run_deployment_triple w fuel dt dc initial_state
                (Relay0_initial w)) as HT.
  pose proof (keeps_run_deployment w fuel dt dc initial_state (Inv_initial w)) as HI.
  unfold bind in Er.
  destruct (run_deployment w fuel dt dc initial_state) as [[[]| |x|] st1];
    cbn [snd] in HI.
  - destruct HT as [(_ & Hr1 & _) Hdr].
    pose proof (quiet_report_final_status w (version_env req dc)
                  (dc_log_sources dc) st1) as Hq.
    destruct (report_final_status_spec w (version_env req dc)
                (dc_log_sources dc) st1) as (st2 & st & E & _).
    rewrite E in Hq, Er. cbn [snd] in Hq. subst r. cbn [snd].
    intros _ Hno. exists dt, dc, st1.
    split; [reflexivity|]. split; [exact Hr1|]. split; [|exact E].
    destruct Hdr as [[Hd _]|Hi]; [exact Hd|].
    exfalso. apply Hno.
    destruct Hq as (_ & _ & tr & Ht & _). rewrite Ht.
    apply in_or_app. left. exact Hi.
  - subst r. cbn [snd]. intros H. exfalso. apply H. apply HI.
  - rewrite yield_event_eq in Er. subst r. cbn [snd].
    intros H. exfalso. apply H.
    apply (keeps_yield_event w EvError ("Error: " ++ x)
             ltac:(discriminate) st1 HI).
  - subst r. cbn [snd]. intros H. exfalso. apply H. apply HI.
Qed.

Lemma running_done_advanced st st' :
  running w st -> done (holder (g_shared st)) = true -> advanced st st' ->
  holder (g_shared st') =
    {| done := true; returncode := Some (exit_code (main_proc w));
       stdout := captured (main_proc w) |}.
Proof.
  intros Hr Hd Ha.
  apply (running_done w st').
  - eapply running_advanced; eassumption.
  - eapply advanced_done; eassumption.
Qed.

End Settled.

(** X16. When the final status is reported, the monitoring did not time
    out and the main command failed, the stream ends with the ['error']
    event stating the exit code of the command (1 when it could not be
    run), followed by the non-blank ones of the last 20 lines of what the
    command printed (of the exception text when it could not be run). *)
Theorem X16_settled_failure_shows_real_output :
  forall (w : World) (fuel : nat) (env_deploy_type : option string)
         (config : Config) (req : DeploymentRequest),
    let st := snd (deploy_stream w fuel env_deploy_type config req) in
    g_checked st <> None ->
    ~ In timeout_action (g_trace st) ->
    exit_code (main_proc w) <> 0%Z ->
    exists before,
      g_trace st =
        (before ++
         Yield (Data (event EvError
                        ("Deployment failed with exit code " ++
                         str_of_Z (exit_code (main_proc w))))) ::
         map (yield_line EvError) (shown_lines (captured (main_proc w))))%list.
Proof.
  intros w fuel e c req st Hchk Hno Hrc.
  destruct (stream_settled w fuel e c req Hchk Hno)
    as (dt & dc & st1 & _ & Hr1 & Hd & E).
  fold st in E.
  destruct (report_final_status_spec w (version_env req dc)
              (dc_log_sources dc) st1)
    as (st2 & st' & E' & Ha2 & _ & [[Hz _]|[_ (st3 & st4 & Ha3 & Ha4 & Htr)]]).
  - exfalso. rewrite (running_done_advanced w st1 st2 Hr1 Hd Ha2) in Hz.
    cbn [returncode] in Hz. injection Hz as Hz. contradiction.
  - rewrite E in E'. injection E' as <-.
    pose proof (advanced_trans _ _ _ Ha2 Ha3) as Ha13.
    pose proof (advanced_trans _ _ _ Ha13 Ha4) as Ha14.
    rewrite (running_done_advanced w st1 st3 Hr1 Hd Ha13) in Htr.
    rewrite (running_done_advanced w st1 st4 Hr1 Hd Ha14) in Htr.
    exists (g_trace st1). exact Htr.
Qed.

Lemma X16_settled_failure_witness :
  let w := ticking_world ["pulling" ++ String nl ""; "Error: no chart" ++ String nl ""]
             3 100 in
  let st := snd (deploy_stream w 5 None
                   (sample_config [] "helm install" []) (sample_request "k")) in
  exists before,
    g_trace st =
      (before ++
       Yield (Data (event EvError
                      ("Deployment failed with exit code " ++
                       str_of_Z (exit_code (main_proc w))))) ::
       map (yield_line EvError) (shown_lines (captured (main_proc w))))%list.
Proof.
  intros w st.
  assert (H1 : g_checked st <> None) by (vm_compute; discriminate).
  assert (H2 : ~ In timeout_action (g_trace st)).
  { vm_compute. intros H.
    repeat (destruct H as [H|H]; [discriminate H|]). exact H. }
  apply (X16_settled_failure_shows_real_output w 5 None
           (sample_config [] "helm install" []) (sample_request "k") H1 H2).
  vm_compute. discriminate.
Defined.

(* ===================================================================== *)
(** * The final status test: when it is reached and what it reads *)
(* ===================================================================== *)


Lemma ft_ret {A} (a : A) : falls_through (ret a).
Proof. intros st. exact I. Qed.

Lemma ft_out_of_fuel {A} : falls_through (@out_of_fuel A).
Proof. intros st. exact I. Qed.

Lemma ft_bind {A B} (m : M A) (k : A -> M B) :
  falls_through m -> (forall a, falls_through (k a)) -> falls_through (bind m k).
Proof.
  intros Hm Hk st. unfold bind. specialize (Hm st).
  destruct (m st) as [[a| |e|] st1]; cbn [fst] in *;
    try contradiction; try exact I.
  apply Hk.
Qed.

Lemma ft_if {A} (c : bool) (m1 m2 : M A) :
  falls_through m1 -> falls_through m2 -> falls_through (if c then m1 else m2).
Proof. destruct c; auto. Qed.

Lemma ft_emit a : falls_through (emit a).
Proof. intros st. exact I. Qed.

Lemma ft_yield_event t m : falls_through (yield_event t m).
Proof. intros st. exact I. Qed.

Section Reached.

Variable w : World.

Lemma ft_read_holder : falls_through (read_holder w).
Proof.
  intros st. destruct (read_holder_spec w st) as (st' & E & _).
  rewrite E. exact I.
Qed.

Lemma ft_drain : falls_through (drain w).
Proof.
  intros st. destruct (drain_spec w st) as (evs & st' & E & _).
  rewrite E. exact I.
Qed.

Lemma ft_poll_pod_status ns last : falls_through (poll_pod_status w ns last).
Proof. intros st. rewrite poll_pod_status_eq. exact I. Qed.

Lemma ft_time_time : falls_through (time_time w).
Proof. intros st. exact I. Qed.

Lemma ft_start_thread cmd : falls_through (start_thread w cmd).
Proof. intros st. exact I. Qed.

Lemma ft_monitor_loop fuel : forall ns start last polls iter,
  falls_through (monitor_loop w fuel ns start last polls iter).
Proof.
  induction fuel as [|f IH]; intros ns start last polls iter; simpl.
  - apply ft_out_of_fuel.
  - apply ft_bind; [apply ft_read_holder|intros h].
    apply ft_if; [|apply ft_ret].
    apply ft_bind; [apply ft_emit|intros _].
    apply ft_bind; [apply ft_drain|intros _].
    apply ft_bind; [apply ft_read_holder|intros h'].
    apply ft_if; [apply ft_ret|].
    apply ft_bind; [apply ft_poll_pod_status|intros last'].
    apply ft_bind; [apply ft_time_time|intros now].
    apply ft_if.
    + apply ft_bind; [apply ft_yield_event|intros _]. apply ft_ret.
    + apply ft_bind; [apply ft_emit|intros _]. apply IH.
Qed.

(** Once the pre-commands are through, nothing returns early or raises
    before the final status. *)
Lemma ft_main_phase fuel cmd ns :
  falls_through
    (yield_event EvSection "Main Deployment" ;;
     yield_event EvCommand cmd ;;
     start_thread w cmd ;;
     monitor w fuel ns ;;
     emit (Join 10) ;;
     drain w).
Proof.
  apply ft_bind; [apply ft_yield_event|intros _].
  apply ft_bind; [apply ft_yield_event|intros _].
  apply ft_bind; [apply ft_start_thread|intros _].
  apply ft_bind.
  { unfold monitor. apply ft_bind; [apply ft_time_time|intros t].
    apply ft_monitor_loop. }
  intros _.
  apply ft_bind; [apply ft_emit|intros _].
  apply ft_drain.
Qed.

(** An exception can only come from a pre-command: the main command is
    not started then. *)
Lemma run_deployment_raised fuel dt dc x st1 :
  run_deployment w fuel dt dc initial_state = (Raised x, st1) ->
  started st1 = false.
Proof.
  unfold run_deployment. cbv zeta.
  rewrite (bind_normal _ (yield_event_eq _ _ _)).
  set (st0 := add_trace
                [Yield (Data (event EvStart ("Starting " ++ dt ++ " deployment...")))]
                initial_state).
  intros H.
  assert (R0 : Relay0 w st0) by (repeat split).
  pose proof (keeps0_run_pre_commands w (dc_pre_commands dc) st0 R0) as HR.
  apply bind_cases in H.
  destruct H as [(a & s1 & E1 & H2)|(Hs & _)].
  - exfalso.
    pose proof (ft_main_phase fuel (dc_command dc)
                  (get_default (dc_namespace dc) "nemo") s1) as F.
    cbv beta in H2. rewrite H2 in F. exact F.
  - rewrite <- Hs. apply HR.
Qed.

(** Every run ends before the final status test, or goes through the
    report from the state the last draining has left. *)
Lemma stream_report fuel e c req :
  let r := deploy_stream w fuel e c req in
  let st := snd r in
  (g_checked st = None /\ (started st = false \/ fst r <> Normal tt)) \/
  (exists dt dc st1,
     active_deployment e c = Some (dt, dc) /\
     Inv w st1 /\ Relay1 w st1 /\
     (~ In timeout_action (g_trace st) -> done (holder (g_shared st1)) = true) /\
     report_final_status w (version_env req dc) (dc_log_sources dc) st1 =
       (Normal tt, st) /\
     fst r = Normal tt).
Proof.
  cbv zeta. remember (deploy_stream w fuel e c req) as r eqn:Er.
  unfold deploy_stream, generate, generate_body in Er.
  destruct (negb (truthy (get_default (apiKey req) ""))).
  { subst r. left. split; [reflexivity|left; reflexivity]. }
  destruct (active_deployment e c) as [[dt dc]|];
    [|subst r; left; split; [reflexivity|left; reflexivity]].
  pose proof (run_deployment_triple w fuel dt dc initial_state
                (Relay0_initial w)) as HT.
  pose proof (keeps_run_deployment w fuel dt dc initial_state (Inv_initial w)) as HI.
  unfold bind in Er.
  destruct (run_deployment w fuel dt dc initial_state) as [[[]| |x|] st1] eqn:Erd;
    cbn [snd] in HI.
  - destruct HT as [H1 Hdr].
    pose proof (quiet_report_final_status w (version_env req dc)
                  (dc_log_sources dc) st1) as Hq.
    destruct (report_final_status_spec w (version_env req dc)
                (dc_log_sources dc) st1) as (st2 & st & E & _).
    rewrite E in Hq, Er. cbn [snd] in Hq. subst r. cbn [fst snd].
    right. exists dt, dc, st1.
    split; [reflexivity|]. split; [exact HI|]. split; [exact H1|].
    split; [|split; [exact E|reflexivity]].
    intros Hno. destruct Hdr as [[Hd _]|Hi]; [exact Hd|].
    exfalso. apply Hno.
    destruct Hq as (_ & _ & tr & Ht & _). rewrite Ht.
    apply in_or_app. left. exact Hi.
  - subst r. left. split; [apply HI|right; discriminate].
  - rewrite yield_event_eq in Er. subst r. cbn [fst snd]. left. split.
    + apply (keeps_yield_event w EvError ("Error: " ++ x)
               ltac:(discriminate) st1 HI).
    + left.
      pose proof (quiet_yield_event EvError ("Error: " ++ x)
                    ltac:(discriminate) st1) as Hq.
      rewrite yield_event_eq in Hq. cbn [snd] in Hq.
      rewrite (relays_started _ _ Hq).
      exact (run_deployment_raised fuel dt dc x st1 Erd).
  - subst r. left. split; [apply HI|right; discriminate].
Qed.

End Reached.

(** C2. In every run of the streaming endpoint a ['complete'] event is
    emitted if and only if the exit code the final status test read from the
    shared cell is exactly 0.  When it is emitted it is the last frame of
    the stream, it is the only ['complete'] event, and the ['success'] event
    comes before it; when the test reads anything else, or is never
    reached, no ['complete'] event is emitted.  The test is reached exactly
    when the main command was started and the generator ran to its last
    statement.  What it reads is the cell of the runner: nothing yet, or
    the exit code of the main command (1 when it could not be run), and in
    a run whose monitoring did not time out always the latter.  So a
    ['complete'] event means that the main command has exited with 0, and
    it is emitted whenever the main command, once started, exits with 0 and
    the generator runs to its end without the monitoring timeout. *)
Theorem C2_complete_iff_exit_code_zero :
  forall (w : World) (fuel : nat) (env_deploy_type : option string)
         (config : Config) (req : DeploymentRequest),
    let r := deploy_stream w fuel env_deploy_type config req in
    let st := snd r in
    (Exists is_complete (events (g_trace st)) <->
     g_checked st = Some (Some 0%Z)) /\
    (Exists is_complete (events (g_trace st)) ->
     (exists fs, frames (g_trace st) = (fs ++ [Data complete_event])%list) /\
     (exists before between,
        events (g_trace st) =
          (before ++ success_event :: between ++ [complete_event])%list /\
        ~ Exists is_complete (before ++ success_event :: between))) /\
    (g_checked st <> None <-> started st = true /\ fst r = Normal tt) /\
    (forall rc, g_checked st = Some rc ->
       rc = None \/ rc = Some (exit_code (main_proc w))) /\
    (g_checked st <> None -> ~ In timeout_action (g_trace st) ->
     g_checked st = Some (Some (exit_code (main_proc w)))) /\
    (Exists is_complete (events (g_trace st)) ->
     p_end (main_proc w) = Exit 0) /\
    (started st = true -> fst r = Normal tt ->
     ~ In timeout_action (g_trace st) ->
     p_end (main_proc w) = Exit 0 ->
     Exists is_complete (events (g_trace st))).
Proof.
  intros w fuel e c req r st.
  destruct (complete_iff_checked w fuel e c req) as [H1 H2].
  cbv zeta in H1, H2. fold r in H1, H2. fold st in H1, H2.
  assert (H3 : g_checked st <> None <-> started st = true /\ fst r = Normal tt).
  { destruct (stream_report w fuel e c req)
      as [[Hn Hc]|(dt & dc & st1 & _ & _ & R1 & _ & E & Hf)];
      cbv zeta in *; fold r in Hn, Hc || fold r in E, Hf;
      fold st in Hn, Hc || fold st in E.
    - split; [intros H; contradiction|].
      intros [Hs Hf]. destruct Hc as [Hc|Hc]; [congruence|contradiction].
    - split; intros _.
      + split; [|exact Hf].
        pose proof (quiet_report_final_status w (version_env req dc)
                      (dc_log_sources dc) st1) as Hq.
        rewrite E in Hq. cbn [snd] in Hq.
        rewrite (relays_started _ _ Hq). apply R1.
      + destruct (report_final_status_spec w (version_env req dc)
                    (dc_log_sources dc) st1) as (st2 & st' & E' & _ & Hchk & _).
        rewrite E in E'. injection E' as <-. rewrite Hchk. discriminate. }
  assert (H4 : forall rc, g_checked st = Some rc ->
                 rc = None \/ rc = Some (exit_code (main_proc w))).
  { intros rc Hrc.
    destruct (stream_report w fuel e c req)
      as [[Hn _]|(dt & dc & st1 & _ & HI & _ & _ & E & _)];
      cbv zeta in *; fold r in Hn || fold r in E;
      fold st in Hn || fold st in E.
    - rewrite Hn in Hrc. discriminate.
    - destruct (report_final_status_spec w (version_env req dc)
                  (dc_log_sources dc) st1) as (st2 & st' & E' & Ha2 & Hchk & _).
      rewrite E in E'. injection E' as <-.
      rewrite Hchk in Hrc. injection Hrc as <-.
      assert (R2 : reach w st2).
      { eapply reach_advanced; [|exact Ha2]. apply HI. }
      destruct (reach_holder w st2 R2) as [H|[H _]]; auto. }
  assert (H5 : g_checked st <> None -> ~ In timeout_action (g_trace st) ->
               g_checked st = Some (Some (exit_code (main_proc w)))).
  { intros Hc Hno.
    destruct (stream_relay w fuel e c req) as [_ H]. cbv zeta in H.
    fold r in H. fold st in H. apply (H Hc Hno). }
  split; [exact H1|]. split; [exact H2|]. split; [exact H3|].
  split; [exact H4|]. split; [exact H5|]. split.
  - intros Hex. apply H1 in Hex.
    destruct (H4 _ Hex) as [H|H]; [discriminate|].
    injection H as H. unfold exit_code in H.
    destruct (p_end (main_proc w)) as [rc|err]; [rewrite H; reflexivity|].
    discriminate H.
  - intros Hs Hf Hno Hend. apply H1.
    rewrite (H5 (proj2 H3 (conj Hs Hf)) Hno).
    unfold exit_code. rewrite Hend. reflexivity.
Qed.

Lemma C2_complete_witness :
  let config := sample_config [] "helm install" [] in
  let good := deploy_stream (finishing_world ["installed" ++ String nl ""] 0
                               (fun _ => false))
                5 None config (sample_request "k") in
  let bad := deploy_stream (finishing_world ["no chart" ++ String nl ""] 3
                              (fun _ => false))
               5 None config (sample_request "k") in
  Exists is_complete (events (g_trace (snd good))) /\
  ~ Exists is_complete (events (g_trace (snd bad))).
Proof.
  intros config good bad. split.
  - apply (proj1 (C2_complete_iff_exit_code_zero
                    (finishing_world ["installed" ++ String nl ""] 0
                       (fun _ => false))
                    5 None config (sample_request "k"))).
    vm_compute. reflexivity.
  - intros H.
    apply (proj1 (C2_complete_iff_exit_code_zero
                    (finishing_world ["no chart" ++ String nl ""] 3
                       (fun _ => false))
                    5 None config (sample_request "k"))) in H.
    vm_compute in H. discriminate H.
Defined.


